(** * ExoStack hub: registry, schedulers and peer handoff

    A shallow embedding of the control-plane services of the hub
    ([hub/services/registry.py], [hub/services/scheduler.py],
    [hub/services/gpu_scheduler.py], [hub/services/p2p_handoff.py]) and
    the properties of the fleet registry, the task lifecycle, the
    GPU-aware matching loop and the handoff fallback chain.

    Conventions.
    - Instants are integers: microseconds, the resolution of Python's
      [datetime].  A [timedelta] comparison is a comparison of integers.
    - A Redis hash is a finite map from field names to strings, as the
      client returns it with [decode_responses=True].
    - A Python [try: ... except Exception: ...] is a computation that may
      raise ([None]) together with the state reached at the raise. *)

From Stdlib Require Import ZArith Lia DecimalString DecimalZ DecimalPos Floats.
From stdpp Require Import gmap strings list fin_maps sorting.

(** ** JSON-like Python values *)

(** The values that travel through [json.dumps] / [json.loads] and that the
    task dictionaries of [get_task] hold. *)
#[warnings="-register-all"]
Inductive json : Type :=
| JNull
| JBool (b : bool)
| JInt (z : Z)
| JStr (s : string)
| JArr (l : list json)
| JObj (kv : list (string * json)).

(** A Python string among the values ([None]: the value is not a string),
    so that [v == "text"] reads [as_str v = Some "text"]. *)
Definition as_str (v : json) : option string :=
  match v with
  | JStr s => Some s
  | _ => None
  end.

(** [a == b] on these values; the keys of an object are kept in one
    canonical order, so that two equal dictionaries list them alike. *)
Fixpoint json_eqb (a b : json) : bool :=
  match a, b with
  | JNull, JNull => true
  | JBool x, JBool y => Bool.eqb x y
  | JInt x, JInt y => (x =? y)%Z
  | JStr x, JStr y => String.eqb x y
  | JArr l, JArr l' =>
      (fix go (l l' : list json) : bool :=
         match l, l' with
         | [], [] => true
         | x :: l, y :: l' => json_eqb x y && go l l'
         | _, _ => false
         end) l l'
  | JObj kv, JObj kv' =>
      (fix go (l l' : list (string * json)) : bool :=
         match l, l' with
         | [], [] => true
         | (k, x) :: l, (k', y) :: l' => String.eqb k k' && json_eqb x y && go l l'
         | _, _ => false
         end) kv kv'
  | _, _ => false
  end.

(** Truthiness ([if value:]). *)
Definition json_truthy (v : json) : bool :=
  match v with
  | JNull => false
  | JBool b => b
  | JInt z => negb (z =? 0)%Z
  | JStr s => negb (String.eqb s "")
  | JArr l => negb (bool_decide (l = []))
  | JObj kv => negb (bool_decide (kv = []))
  end.

(** The dictionary literal [{"error": msg}]. *)
Definition error_obj (msg : string) : json := JObj [("error", JStr msg)].

(** ** hub/models.py *)

Inductive NodeStatus := ONLINE | OFFLINE | MAINTENANCE | ERROR.

Definition NodeStatus_value (s : NodeStatus) : string :=
  match s with
  | ONLINE => "online"
  | OFFLINE => "offline"
  | MAINTENANCE => "maintenance"
  | ERROR => "error"
  end.

Record NodeCapabilities := {
  gpu_count : Z;
  gpu_memory : Z;
  cpu_cores : Z;
  memory : Z;
  supported_models : list string;
  max_concurrent_tasks : Z
}.

(** [NodeCapabilities()] *)
Definition NodeCapabilities_default : NodeCapabilities :=
  {| gpu_count := 0; gpu_memory := 0; cpu_cores := 1; memory := 0;
     supported_models := []; max_concurrent_tasks := 1 |}.

Record Node := {
  id : string;
  status : NodeStatus;
  capabilities : option NodeCapabilities;
  host : option string;
  port : option Z;
  tasks_completed : Z;
  tasks_failed : Z
}.

Inductive TaskStatus := PENDING | RUNNING | COMPLETED | FAILED | CANCELLED.

Definition TaskStatus_value (s : TaskStatus) : string :=
  match s with
  | PENDING => "pending"
  | RUNNING => "running"
  | COMPLETED => "completed"
  | FAILED => "failed"
  | CANCELLED => "cancelled"
  end.

#[global] Instance hub_TaskStatus_eq_dec : EqDecision TaskStatus.
Proof. solve_decision. Defined.

Record TaskInput := {
  prompt : string;
  max_tokens : Z;
  temperature : float;
  top_p : float;
  stop_sequences : option (list string);
  stream : bool
}.

(** The [Task] model: the fields the registry reads. *)
Module Task.
Record t := {
  id : string;
  status : TaskStatus;
  model : string;
  input_data : TaskInput;
  node_id : option string;
  priority : Z
}.
End Task.

(** ** The runtime the services run on

    The clock and the text formats of the Python standard library.  The
    services only rely on what is listed here; every theorem holds for
    every runtime. *)
Class Runtime := {
  (** [datetime.now()] at the k-th reading of the clock, in microseconds *)
  clock : nat → Z;
  (** [datetime.isoformat] and [datetime.fromisoformat] ([None]: ValueError) *)
  isoformat : Z → string;
  fromisoformat : string → option Z;
  (** [json.dumps] on a JSON value, and [json.loads] ([None]: JSONDecodeError) *)
  json_dumps : json → string;
  json_loads : string → option json;
  (** [json.dumps(node.capabilities)] ([None]: TypeError, the value is not
      serializable) *)
  dumps_capabilities : option NodeCapabilities → option string;
  (** [float(text)] ([None]: ValueError) *)
  parse_float : string → option float
}.

(** [json.dumps(task.input_data)] on the input object of a task ([None]:
    TypeError, the value is not serializable). *)
Class TaskCodec := {
  dumps_input_data : TaskInput → option string
}.

(** ** The Redis store *)

Module Redis.

(** Hashes, sets, sorted sets and the time-to-live set with [EXPIRE].
    The keys of the three kinds never collide in this program
    ([node:<id>] and [task:<id>] are hashes, [active_nodes],
    [running_tasks], [completed_tasks], [failed_tasks] and [all_tasks]
    are sets, [pending_tasks] is a sorted set).  Eviction of an expired
    key is an action of the server between calls, not of a call. *)
Record t := mk {
  hashes : gmap string (gmap string string);
  sets : gmap string (gset string);
  zsets : gmap string (gmap string Z);
  ttls : gmap string Z
}.

Definition empty : t := mk ∅ ∅ ∅ ∅.

Definition exists_ (k : string) (r : t) : bool :=
  bool_decide (is_Some (hashes r !! k)).

Definition hgetall (k : string) (r : t) : gmap string string :=
  default ∅ (hashes r !! k).

(** [HSET key field value [field value ...]]: the given fields are
    written over the stored ones, the others are kept. *)
Definition hset (k : string) (m : gmap string string) (r : t) : t :=
  mk (<[k := m ∪ hgetall k r]> (hashes r)) (sets r) (zsets r) (ttls r).

Definition hset1 (k f v : string) (r : t) : t := hset k {[f := v]} r.

Definition Z_to_string (z : Z) : string := NilZero.string_of_int (Z.to_int z).

(** Redis reads an integer only in its canonical decimal form. *)
Definition Z_of_string (s : string) : option Z :=
  match NilZero.int_of_string s with
  | Some d =>
      let z := Z.of_int d in
      if String.eqb (Z_to_string z) s then Some z else None
  | None => None
  end.

(** [HINCRBY key field n]: a missing field counts as 0; a value that is
    not a 64-bit integer, or an overflow, is an error ([None]). *)
Definition hincrby (k f : string) (n : Z) (r : t) : option t :=
  let old :=
    match hgetall k r !! f with
    | None => Some 0%Z
    | Some s => Z_of_string s
    end in
  match old with
  | Some v =>
      if bool_decide (- 2 ^ 63 ≤ v < 2 ^ 63 ∧ - 2 ^ 63 ≤ v + n < 2 ^ 63)%Z
      then Some (hset1 k f (Z_to_string (v + n)) r)
      else None
  | None => None
  end.

Definition smembers (k : string) (r : t) : gset string :=
  default ∅ (sets r !! k).

Definition sadd (k x : string) (r : t) : t :=
  mk (hashes r) (<[k := {[x]} ∪ smembers k r]> (sets r)) (zsets r) (ttls r).

(** An emptied set is removed, as an emptied key is in Redis. *)
Definition srem (k x : string) (r : t) : t :=
  match sets r !! k with
  | None => r
  | Some s =>
      let s' := s ∖ {[x]} in
      mk (hashes r)
         (if decide (s' = ∅) then delete k (sets r) else <[k := s']> (sets r))
         (zsets r) (ttls r)
  end.

Definition zmembers (k : string) (r : t) : gmap string Z :=
  default ∅ (zsets r !! k).

Definition zadd (k x : string) (score : Z) (r : t) : t :=
  mk (hashes r) (sets r) (<[k := <[x := score]> (zmembers k r)]> (zsets r)) (ttls r).

Definition zrem (k x : string) (r : t) : t :=
  match zsets r !! k with
  | None => r
  | Some z =>
      let z' := delete x z in
      mk (hashes r) (sets r)
         (if decide (z' = ∅) then delete k (zsets r) else <[k := z']> (zsets r))
         (ttls r)
  end.

(** The order of a sorted set: by score, then by member. *)
Definition zle (a b : string * Z) : Prop :=
  (a.2 < b.2)%Z ∨ (a.2 = b.2 ∧ String.leb a.1 b.1 = true).

#[global] Instance zle_dec a b : Decision (zle a b).
Proof. unfold zle. apply _. Defined.

(** [ZRANGE key 0 -1] *)
Definition zrange_all (k : string) (r : t) : list string :=
  (merge_sort zle (map_to_list (zmembers k r))).*1.

(** [EXPIRE key seconds] *)
Definition expire (k : string) (secs : Z) (r : t) : t :=
  if exists_ k r
  then mk (hashes r) (sets r) (zsets r) (<[k := secs]> (ttls r))
  else r.

Definition delete (k : string) (r : t) : t :=
  mk (base.delete k (hashes r)) (sets r) (zsets r) (base.delete k (ttls r)).

(** [ZREVRANGE key 0 0]: the last member in the order of the set, if any. *)
Definition zrevrange_first (k : string) (r : t) : list string :=
  take 1 (reverse (zrange_all k r)).

(** [SCARD key] and [ZCARD key] *)
Definition scard (k : string) (r : t) : Z := Z.of_nat (size (smembers k r)).

Definition zcard (k : string) (r : t) : Z := Z.of_nat (size (zmembers k r)).

End Redis.

(** ** State and exceptions *)

(** The outcome of a Python call: a value, or a raised exception with the
    text [str(e)] gives. *)
Inductive outcome (A : Type) : Type :=
| Ok (a : A)
| Raised (msg : string).
Arguments Ok {A} a.
Arguments Raised {A} msg.

(** A computation on a state [S] that may raise; an exception leaves the
    state as it is at the raise. *)
Definition M (S A : Type) : Type := S → outcome A * S.

#[global] Instance M_ret {S} : MRet (M S) := λ A a w, (Ok a, w).

#[global] Instance M_bind {S} : MBind (M S) := λ A B f m w,
  match m w with
  | (Ok a, w') => f a w'
  | (Raised e, w') => (Raised e, w')
  end.

Definition raise {S A} (msg : string) : M S A := λ w, (Raised msg, w).

(** The value of an option, raising on [None]. *)
Definition get_or_raise {S A} (o : option A) (msg : string) : M S A :=
  match o with
  | Some a => mret a
  | None => raise msg
  end.

(** [try: body except Exception as e: handler(e)] *)
Definition try_except {S A} (body : M S A) (handler : string → M S A) : M S A :=
  λ w,
  match body w with
  | (Ok a, w') => (Ok a, w')
  | (Raised e, w') => handler e w'
  end.

(** [try: body except Exception: return dflt] as the whole body of a
    method: the method itself never raises. *)
Definition guarded {S A} (body : M S A) (dflt : A) : S → A * S := λ w,
  match body w with
  | (Ok a, w') => (a, w')
  | (Raised _, w') => (dflt, w')
  end.

(** Calling a method that never raises. *)
Definition call {S A} (f : S → A * S) : M S A := λ w,
  let '(a, w') := f w in (Ok a, w').

(** A computation that ends as the given outcome. *)
Definition of_outcome {S A} (o : outcome A) : M S A := λ w, (o, w).

Definition get_state {S} : M S S := λ w, (Ok w, w).
Definition put_state {S} (w : S) : M S unit := λ _, (Ok tt, w).
Definition modify {S} (f : S → S) : M S unit := λ w, (Ok tt, f w).

(** The state a registry call runs in: the store and the number of clock
    readings made so far. *)
Record World := {
  redis : Redis.t;
  ticks : nat
}.

Definition now `{Runtime} : M World Z := λ w,
  (Ok (clock (ticks w)), {| redis := redis w; ticks := S (ticks w) |}).

Definition redis_get {A} (f : Redis.t → A) : M World A := λ w, (Ok (f (redis w)), w).

Definition redis_do (f : Redis.t → Redis.t) : M World unit := λ w,
  (Ok tt, {| redis := f (redis w); ticks := ticks w |}).

Definition redis_try (f : Redis.t → option Redis.t) : M World unit := λ w,
  match f (redis w) with
  | Some r => (Ok tt, {| redis := r; ticks := ticks w |})
  | None => (Raised "ResponseError", w)
  end.

(** Microseconds in [n] seconds. *)
Definition seconds (n : Z) : Z := (n * 1000000)%Z.

(** Truthiness of an optional string ([if node_id:]). *)
Definition truthy_str (o : option string) : option string :=
  match o with
  | Some s => if decide (s = "") then None else Some s
  | None => None
  end.

(** ** hub/services/registry.py: RedisRegistry *)

Module Registry.
Section WithRuntime.
Context `{Runtime}.

Definition node_key (node_id : string) : string := "node:" +:+ node_id.
Definition task_key (task_id : string) : string := "task:" +:+ task_id.

(** *** Node management *)

(** The dictionary [node_data] of [register_node]. *)
Definition node_data (node : Node) (caps : string)
    (last_heartbeat registered_at : Z) : gmap string string :=
  list_to_map
    [("id", id node);
     ("status", NodeStatus_value (status node));
     ("capabilities", caps);
     ("last_heartbeat", isoformat last_heartbeat);
     ("registered_at", isoformat registered_at);
     ("tasks_completed", "0");
     ("tasks_failed", "0")].

Definition register_node (node : Node) : World → bool * World :=
  let node_key := node_key (id node) in
  guarded
    (caps ← get_or_raise (dumps_capabilities (capabilities node)) "TypeError";
     last_heartbeat ← now;
     registered_at ← now;
     redis_do (Redis.hset node_key
                 (node_data node caps last_heartbeat registered_at));;
     redis_do (Redis.sadd "active_nodes" (id node));;
     redis_do (Redis.expire node_key 86400);;
     mret true)
    false.

Definition update_node_heartbeat (node_id : string) : World → bool * World :=
  let node_key := node_key node_id in
  guarded
    (ex ← redis_get (Redis.exists_ node_key);
     if negb ex then mret false
     else
       t ← now;
       redis_do (Redis.hset node_key
                   (list_to_map [("last_heartbeat", isoformat t);
                                 ("status", "online")]));;
       redis_do (Redis.expire node_key 86400);;
       mret true)
    false.

Definition get_node (node_id : string)
  : World → option (gmap string string) * World :=
  let node_key := node_key node_id in
  guarded
    (node_data ← redis_get (Redis.hgetall node_key);
     if decide (node_data = ∅) then mret None
     else
       last_heartbeat ←
         get_or_raise (fromisoformat (default "" (node_data !! "last_heartbeat")))
             "ValueError";
       t ← now;
       if bool_decide (seconds 30 < t - last_heartbeat)%Z
       then
         redis_do (Redis.hset1 node_key "status" "offline");;
         mret (Some (<["status" := "offline"]> node_data))
       else mret (Some node_data))
    None.

(** The loop of [get_all_nodes]: a node that reads as [None] (or as an
    empty dictionary) is dropped from the [active_nodes] set. *)
Fixpoint get_all_nodes_loop (node_ids : list string)
    (nodes : list (gmap string string)) : M World (list (gmap string string)) :=
  match node_ids with
  | [] => mret nodes
  | node_id :: rest =>
      node_data ← call (get_node node_id);
      match node_data with
      | Some d =>
          if decide (d = ∅)
          then redis_do (Redis.srem "active_nodes" node_id);;
               get_all_nodes_loop rest nodes
          else get_all_nodes_loop rest (nodes ++ [d])
      | None =>
          redis_do (Redis.srem "active_nodes" node_id);;
          get_all_nodes_loop rest nodes
      end
  end.

Definition get_all_nodes : World → list (gmap string string) * World :=
  guarded
    (node_ids ← redis_get (Redis.smembers "active_nodes");
     get_all_nodes_loop (elements node_ids) [])
    [].

Definition remove_node (node_id : string) : World → bool * World :=
  guarded
    (redis_do (Redis.srem "active_nodes" node_id);;
     redis_do (Redis.delete (node_key node_id));;
     mret true)
    false.

(** *** Task management *)

Definition update_task_status (task_id status : string)
    (node_id : option string) (result : option json) : World → bool * World :=
  let task_key := task_key task_id in
  guarded
    (ex ← redis_get (Redis.exists_ task_key);
     if negb ex then mret false
     else
       updated_at ← now;
       let update_data : gmap string string :=
         list_to_map [("status", status); ("updated_at", isoformat updated_at)] in
       let update_data :=
         match truthy_str node_id with
         | Some n => <["node_id" := n]> update_data
         | None => update_data
         end in
       let update_data :=
         match result with
         | Some r => <["result" := json_dumps r]> update_data
         | None => update_data
         end in
       update_data ←
         (if decide (status = "completed")
          then completed_at ← now;
               mret (<["completed_at" := isoformat completed_at]> update_data)
          else mret update_data);
       redis_do (Redis.hset task_key update_data);;
       (if decide (status = "running") then
          redis_do (Redis.zrem "pending_tasks" task_id);;
          redis_do (Redis.sadd "running_tasks" task_id)
        else if decide (status = "completed") then
          redis_do (Redis.srem "running_tasks" task_id);;
          redis_do (Redis.sadd "completed_tasks" task_id);;
          match truthy_str node_id with
          | Some n => redis_try (Redis.hincrby (node_key n) "tasks_completed" 1)
          | None => mret tt
          end
        else if decide (status = "failed") then
          redis_do (Redis.srem "running_tasks" task_id);;
          redis_do (Redis.sadd "failed_tasks" task_id);;
          match truthy_str node_id with
          | Some n => redis_try (Redis.hincrby (node_key n) "tasks_failed" 1)
          | None => mret tt
          end
        else mret tt);;
       mret true)
    false.

(** The dictionary [get_task] returns: the stored strings, with
    [input_data] and [result] decoded ([{}] and [None] when the text is
    not JSON). *)
Definition decode_task (task_data : gmap string string) : gmap string json :=
  let d : gmap string json := JStr <$> task_data in
  let d :=
    match task_data !! "input_data" with
    | Some s => <["input_data" := default (JObj []) (json_loads s)]> d
    | None => d
    end in
  match task_data !! "result" with
  | Some s => <["result" := default JNull (json_loads s)]> d
  | None => d
  end.

Definition get_task (task_id : string)
  : World → option (gmap string json) * World :=
  guarded
    (task_data ← redis_get (Redis.hgetall (task_key task_id));
     if decide (task_data = ∅) then mret None
     else mret (Some (decode_task task_data)))
    None.

Fixpoint get_tasks_loop (task_ids : list string)
    (tasks : list (gmap string json)) : M World (list (gmap string json)) :=
  match task_ids with
  | [] => mret tasks
  | task_id :: rest =>
      task_data ← call (get_task task_id);
      match task_data with
      | Some d =>
          if decide (d = ∅) then get_tasks_loop rest tasks
          else get_tasks_loop rest (tasks ++ [d])
      | None => get_tasks_loop rest tasks
      end
  end.

Definition get_tasks_by_status (status : string)
  : World → list (gmap string json) * World :=
  guarded
    (if decide (status = "pending") then
       task_ids ← redis_get (Redis.zrange_all "pending_tasks");
       get_tasks_loop task_ids []
     else if decide (status = "running") then
       task_ids ← redis_get (Redis.smembers "running_tasks");
       get_tasks_loop (elements task_ids) []
     else if decide (status = "completed") then
       task_ids ← redis_get (Redis.smembers "completed_tasks");
       get_tasks_loop (elements task_ids) []
     else if decide (status = "failed") then
       task_ids ← redis_get (Redis.smembers "failed_tasks");
       get_tasks_loop (elements task_ids) []
     else mret [])
    [].

(** The dictionary [task_data] of [create_task]. *)
Definition task_data (task : Task.t) (input_text node_id : string)
    (created_at updated_at : Z) : gmap string string :=
  list_to_map
    [("id", Task.id task);
     ("status", TaskStatus_value (Task.status task));
     ("model", Task.model task);
     ("input_data", input_text);
     ("node_id", node_id);
     ("created_at", isoformat created_at);
     ("updated_at", isoformat updated_at);
     ("priority", Redis.Z_to_string (Task.priority task))].

(** [create_task]: the values of the dictionary are evaluated in order, so
    the input is serialised before the clock is read; the client refuses
    to encode [None] (DataError), so a task without [node_id] is not
    written. *)
Definition create_task `{TaskCodec} (task : Task.t) : World → bool * World :=
  let task_key := task_key (Task.id task) in
  guarded
    (input_text ←
       get_or_raise (dumps_input_data (Task.input_data task)) "TypeError";
     created_at ← now;
     updated_at ← now;
     node_id ← get_or_raise (Task.node_id task) "DataError";
     redis_do (Redis.hset task_key
                 (task_data task input_text node_id created_at updated_at));;
     (if decide (Task.status task = PENDING)
      then redis_do (Redis.zadd "pending_tasks" (Task.id task)
                       (Task.priority task))
      else mret tt);;
     redis_do (Redis.sadd "all_tasks" (Task.id task));;
     mret true)
    false.

Definition get_pending_task : World → option string * World :=
  guarded
    (tasks ← redis_get (Redis.zrevrange_first "pending_tasks");
     mret (head tasks))
    None.

(** The loop of [cleanup_old_tasks] over the members of one set. *)
Fixpoint cleanup_loop (status : string) (cutoff_date : Z)
    (task_ids : list string) (cleaned_count : Z) : M World Z :=
  match task_ids with
  | [] => mret cleaned_count
  | task_id :: rest =>
      task_data ← call (get_task task_id);
      match task_data with
      | Some d =>
          if decide (d = ∅) then cleanup_loop status cutoff_date rest cleaned_count
          else
            match d !! "created_at" with
            | Some v =>
                text ← get_or_raise (as_str v) "TypeError";
                created_at ← get_or_raise (fromisoformat text) "ValueError";
                if bool_decide (created_at < cutoff_date)%Z then
                  redis_do (Redis.srem status task_id);;
                  redis_do (Redis.srem "all_tasks" task_id);;
                  redis_do (Redis.delete (task_key task_id));;
                  cleanup_loop status cutoff_date rest (cleaned_count + 1)
                else cleanup_loop status cutoff_date rest cleaned_count
            | None => cleanup_loop status cutoff_date rest cleaned_count
            end
      | None => cleanup_loop status cutoff_date rest cleaned_count
      end
  end.

(** [cleanup_old_tasks(days)], for a number of days the calendar holds.
    The members of a set are read before its loop starts. *)
Definition cleanup_old_tasks (days : Z) : World → Z * World :=
  guarded
    (t ← now;
     let cutoff_date := (t - seconds (days * 86400))%Z in
     task_ids ← redis_get (Redis.smembers "completed_tasks");
     cleaned_count ←
       cleanup_loop "completed_tasks" cutoff_date (elements task_ids) 0;
     task_ids ← redis_get (Redis.smembers "failed_tasks");
     cleanup_loop "failed_tasks" cutoff_date (elements task_ids) cleaned_count)
    0%Z.

(** The dictionary of [get_stats], flattened. *)
Record Stats := {
  nodes_total : Z;
  nodes_online : Z;
  nodes_offline : Z;
  pending_count : Z;
  running_count : Z;
  completed_count : Z;
  failed_count : Z;
  total_count : Z
}.

Definition Stats_zero : Stats :=
  {| nodes_total := 0; nodes_online := 0; nodes_offline := 0;
     pending_count := 0; running_count := 0; completed_count := 0;
     failed_count := 0; total_count := 0 |}.

(** The loop that counts the nodes: a node that is not online counts as
    offline. *)
Fixpoint count_nodes (nodes : list (gmap string string)) (online offline : Z)
  : Z * Z :=
  match nodes with
  | [] => (online, offline)
  | node :: rest =>
      if decide (node !! "status" = Some "online")
      then count_nodes rest (online + 1)%Z offline
      else count_nodes rest online (offline + 1)%Z
  end.

Definition get_stats : World → Stats * World :=
  guarded
    (total ← redis_get (Redis.scard "active_nodes");
     pending ← redis_get (Redis.zcard "pending_tasks");
     running ← redis_get (Redis.scard "running_tasks");
     completed ← redis_get (Redis.scard "completed_tasks");
     failed ← redis_get (Redis.scard "failed_tasks");
     all ← redis_get (Redis.scard "all_tasks");
     nodes ← call get_all_nodes;
     let '(online, offline) := count_nodes nodes 0 0 in
     mret {| nodes_total := total; nodes_online := online;
             nodes_offline := offline; pending_count := pending;
             running_count := running; completed_count := completed;
             failed_count := failed; total_count := all |})
    Stats_zero.

End WithRuntime.
End Registry.

(** ** hub/services/scheduler.py: TaskScheduler *)

Module TaskScheduler.
Section WithRuntime.
Context `{Runtime}.

(** [t.get("node_id") == node["id"]] for the tasks of the comprehension;
    the subscript [node["id"]] raises KeyError when the field is missing,
    and is evaluated once per task. *)
Fixpoint tasks_of_node (node : gmap string string)
    (tasks : list (gmap string json)) : M World (list (gmap string json)) :=
  match tasks with
  | [] => mret []
  | t :: rest =>
      node_id ← get_or_raise (node !! "id") "KeyError";
      node_tasks ← tasks_of_node node rest;
      if decide (t !! "node_id" ≫= as_str = Some node_id)
      then mret (t :: node_tasks)
      else mret node_tasks
  end.

Fixpoint available_nodes_loop (all_nodes available_nodes : list (gmap string string))
  : M World (list (gmap string string)) :=
  match all_nodes with
  | [] => mret available_nodes
  | node :: rest =>
      if decide (node !! "status" = Some "online") then
        running_tasks ← call (Registry.get_tasks_by_status "running");
        running_again ← call (Registry.get_tasks_by_status "running");
        node_tasks ← tasks_of_node node running_again;
        if bool_decide (length node_tasks < 3)%nat
        then available_nodes_loop rest (available_nodes ++ [node])
        else available_nodes_loop rest available_nodes
      else available_nodes_loop rest available_nodes
  end.

Definition _get_available_nodes : World → list (gmap string string) * World :=
  guarded
    (all_nodes ← call Registry.get_all_nodes;
     available_nodes_loop all_nodes [])
    [].

(** The loop of [_check_running_tasks]; [running] is [self.running], which
    nothing changes while the loop runs (the body does not await). *)
Fixpoint check_running_loop (running : bool) (running_tasks : list (gmap string json))
  : M World unit :=
  match running_tasks with
  | [] => mret tt
  | task :: rest =>
      if negb running then mret tt
      else
        created_text ←
          get_or_raise (as_str (default (JStr "") (task !! "created_at"))) "TypeError";
        created_at ← get_or_raise (fromisoformat created_text) "ValueError";
        t ← now;
        (if bool_decide (seconds 300 < t - created_at)%Z then
           task_id ← get_or_raise (task !! "id" ≫= as_str) "KeyError";
           call (Registry.update_task_status task_id "failed"
                   (task !! "node_id" ≫= as_str)
                   (Some (error_obj "Task timeout")));;
           mret tt
         else mret tt);;
        check_running_loop running rest
  end.

Definition _check_running_tasks (running : bool) : World → unit * World :=
  guarded
    (running_tasks ← call (Registry.get_tasks_by_status "running");
     check_running_loop running running_tasks)
    tt.

Definition cancel_task (task_id : string) : World → bool * World :=
  guarded
    (task ← call (Registry.get_task task_id);
     match task with
     | None => mret false
     | Some task =>
         if decide (task = ∅) then mret false
         else if decide (task !! "status" ≫= as_str = Some "pending") then
           call (Registry.update_task_status task_id "failed" None
                   (Some (error_obj "Task cancelled by user")));;
           mret true
         else mret false
     end)
    false.

(** [create_task], given the identifier [uuid.uuid4()] draws.  The [Task]
    model validates its fields: a priority outside 1..10 is refused. *)
Definition create_task `{TaskCodec} (task_id model : string)
    (input_data : TaskInput) (priority : Z) : M World string :=
  try_except
    (task ←
       (if bool_decide (1 ≤ priority ≤ 10)%Z
        then mret {| Task.id := task_id; Task.status := PENDING;
                     Task.model := model; Task.input_data := input_data;
                     Task.node_id := None; Task.priority := priority |}
        else raise "ValidationError");
     success ← call (Registry.create_task task);
     if success : bool then mret task_id
     else raise "Failed to create task")
    (λ e, raise e).

(** The attribute [_cleanup_counter] of the scheduler ([None]: not set
    yet), and [_cleanup_old_tasks], which returns its new value. *)
Definition _cleanup_old_tasks (_cleanup_counter : option Z)
  : World → option Z * World := λ w,
  let counter := (default 0 _cleanup_counter + 1)%Z in
  if bool_decide (720 ≤ counter)%Z then
    let '(cleaned_count, w') := Registry.cleanup_old_tasks 7 w in
    (Some 0%Z, w')
  else (Some counter, w).

End WithRuntime.
End TaskScheduler.

(** ** Python's list sort

    [list.sort(key=...)] is stable and compares keys with [<] only.  On
    keys that [<] orders totally (no NaN among them) its result is the one
    of the insertion sort below; [reverse=True] sorts the reversed list and
    reverses the result, which keeps equal keys in their original order. *)

Fixpoint insert_sorted {A} (lt : A → A → bool) (x : A) (l : list A) : list A :=
  match l with
  | [] => [x]
  | y :: l' => if lt x y then x :: y :: l' else y :: insert_sorted lt x l'
  end.

Definition py_sort {A} (lt : A → A → bool) (l : list A) : list A :=
  foldl (λ acc x, insert_sorted lt x acc) [] l.

Definition py_sort_reverse {A} (lt : A → A → bool) (l : list A) : list A :=
  reverse (py_sort lt (reverse l)).

(** [a < b] on the tuples [(str, datetime)]. *)
Definition tuple_lt (a b : string * Z) : bool :=
  if String.eqb a.1 b.1 then (a.2 <? b.2)%Z else String.ltb a.1 b.1.

(** [l[start:]] *)
Definition py_slice_from {A} (start : Z) (l : list A) : list A :=
  if (start <? 0)%Z then drop (Z.to_nat (Z.of_nat (length l) + start)) l
  else drop (Z.to_nat start) l.

(** ** hub/services/registry.py: the listing of all tasks *)

Module RedisRegistry.
Section WithRuntime.
Context `{Runtime}.

(** The key of the sort, [x.get('created_at', '')]; the stored value is a
    string. *)
Definition created_key (x : gmap string json) : option string :=
  as_str (default (JStr "") (x !! "created_at")).

Definition key_lt (a b : option string) : bool :=
  match a, b with
  | Some x, Some y => String.ltb x y
  | _, _ => false
  end.

(** [get_all_tasks(limit)]: the members of [all_tasks] in the order the
    server lists them, the last [limit] of them read and sorted, newest
    first.  A key that is not a string makes the comparison raise. *)
Definition get_all_tasks (limit : Z) : World → list (gmap string json) * World :=
  guarded
    (ids ← redis_get (Redis.smembers "all_tasks");
     let all_task_ids := py_slice_from (- limit) (elements ids) in
     tasks ← Registry.get_tasks_loop all_task_ids [];
     if forallb (λ x, bool_decide (is_Some (created_key x))) tasks
     then mret (py_sort_reverse (λ a b, key_lt (created_key a) (created_key b))
                  tasks)
     else raise "TypeError")
    [].

End WithRuntime.
End RedisRegistry.

(** ** shared/models/base.py *)

Module Base.

Inductive TaskStatus := PENDING | RUNNING | COMPLETED | FAILED | CANCELLED.

Inductive TaskPriority := LOW | NORMAL | HIGH | URGENT.

Definition TaskPriority_value (p : TaskPriority) : string :=
  match p with
  | LOW => "low"
  | NORMAL => "normal"
  | HIGH => "high"
  | URGENT => "urgent"
  end.

Record NodeCapabilities := {
  inference : bool;
  text_generation : bool;
  auto_model_loading : bool;
  streaming : bool;
  model_registry : bool
}.

(** An entry of [gpu_info["devices"]]; a missing key is [None]. *)
Record GpuDevice := {
  memory_total_gb : option float;
  memory_allocated_gb : option float;
  compute_capability : option string
}.

(** [gpu_info]: the keys the scheduler reads. *)
Record GpuInfo := {
  devices : option (list GpuDevice);
  total_memory_gb : option float
}.

Record ComputeResources := {
  cpu_cores : Z;
  total_ram_gb : float;
  available_ram_gb : float;
  has_gpu : bool;
  gpu_info : GpuInfo
}.

Record TaskRequirements := {
  requires_gpu : bool;
  min_ram_gb : float;
  min_gpu_memory_gb : float;
  min_compute_capability : option string;
  preferred_models : list string;
  max_duration_seconds : Z
}.

Record InferenceTask := {
  id : string;
  model : string;
  input : string;
  task_type : string;
  requirements : TaskRequirements;
  priority : TaskPriority;
  status : TaskStatus;
  created_at : Z;
  started_at : option Z;
  completed_at : option Z;
  assigned_node : option string;
  result : option json;
  error : option string
}.

Record AgentNode := {
  node_id : string;
  node_host : string;
  node_port : Z;
  node_status : string;
  last_heartbeat : option Z;
  capabilities : NodeCapabilities;
  compute_resources : ComputeResources;
  supported_models : list string;
  max_concurrent_tasks : Z;
  current_tasks : Z;
  features : list string
}.

(** Field updates of the mutable objects. *)
Definition set_current_tasks (n : AgentNode) (c : Z) : AgentNode :=
  {| node_id := node_id n; node_host := node_host n; node_port := node_port n;
     node_status := node_status n; last_heartbeat := last_heartbeat n;
     capabilities := capabilities n; compute_resources := compute_resources n;
     supported_models := supported_models n;
     max_concurrent_tasks := max_concurrent_tasks n;
     current_tasks := c; features := features n |}.

Definition task_failed (t : InferenceTask) (e : string) : InferenceTask :=
  {| id := id t; model := model t; input := input t; task_type := task_type t;
     requirements := requirements t; priority := priority t;
     status := FAILED; created_at := created_at t; started_at := started_at t;
     completed_at := completed_at t; assigned_node := assigned_node t;
     result := result t; error := Some e |}.

Definition task_running (t : InferenceTask) (started : Z) (node : string)
  : InferenceTask :=
  {| id := id t; model := model t; input := input t; task_type := task_type t;
     requirements := requirements t; priority := priority t;
     status := RUNNING; created_at := created_at t; started_at := Some started;
     completed_at := completed_at t; assigned_node := Some node;
     result := result t; error := error t |}.

Definition task_finished (t : InferenceTask) (completed : Z)
    (res : option json) (err : option string) : InferenceTask :=
  match err with
  | Some e =>
      {| id := id t; model := model t; input := input t; task_type := task_type t;
         requirements := requirements t; priority := priority t;
         status := FAILED; created_at := created_at t; started_at := started_at t;
         completed_at := Some completed; assigned_node := assigned_node t;
         result := result t; error := Some e |}
  | None =>
      {| id := id t; model := model t; input := input t; task_type := task_type t;
         requirements := requirements t; priority := priority t;
         status := COMPLETED; created_at := created_at t; started_at := started_at t;
         completed_at := Some completed; assigned_node := assigned_node t;
         result := res; error := error t |}
  end.

(** [a == b] on the models: field by field, floats by IEEE equality. *)
Definition option_eqb {A} (eqb : A → A → bool) (a b : option A) : bool :=
  match a, b with
  | Some x, Some y => eqb x y
  | None, None => true
  | _, _ => false
  end.

Fixpoint list_eqb {A} (eqb : A → A → bool) (l l' : list A) : bool :=
  match l, l' with
  | [], [] => true
  | x :: l, y :: l' => eqb x y && list_eqb eqb l l'
  | _, _ => false
  end.

#[global] Instance TaskStatus_eq_dec : EqDecision TaskStatus.
Proof. solve_decision. Defined.

#[global] Instance TaskPriority_eq_dec : EqDecision TaskPriority.
Proof. solve_decision. Defined.

Definition requirements_eqb (a b : TaskRequirements) : bool :=
  Bool.eqb (requires_gpu a) (requires_gpu b)
  && PrimFloat.eqb (min_ram_gb a) (min_ram_gb b)
  && PrimFloat.eqb (min_gpu_memory_gb a) (min_gpu_memory_gb b)
  && option_eqb String.eqb (min_compute_capability a) (min_compute_capability b)
  && list_eqb String.eqb (preferred_models a) (preferred_models b)
  && (max_duration_seconds a =? max_duration_seconds b)%Z.

Definition task_eqb (a b : InferenceTask) : bool :=
  String.eqb (id a) (id b)
  && String.eqb (model a) (model b)
  && String.eqb (input a) (input b)
  && String.eqb (task_type a) (task_type b)
  && requirements_eqb (requirements a) (requirements b)
  && bool_decide (priority a = priority b)
  && bool_decide (status a = status b)
  && (created_at a =? created_at b)%Z
  && option_eqb Z.eqb (started_at a) (started_at b)
  && option_eqb Z.eqb (completed_at a) (completed_at b)
  && option_eqb String.eqb (assigned_node a) (assigned_node b)
  && option_eqb json_eqb (result a) (result b)
  && option_eqb String.eqb (error a) (error b).

End Base.

(** ** hub/services/gpu_scheduler.py: GPUScheduler *)

(** Modelled from the spec: the [Registry] class that [gpu_scheduler.py]
    imports from [registry.py] is not in the repository.  The scheduler
    reads it through [get_active_nodes()] and [get_node(node_id)] and
    mutates the node objects it gets, so the registry is the list of the
    registered node objects (a node object is its position in the list),
    [get_active_nodes] returns the registered nodes whose effective status
    is online, and [get_node] the registered node with the given id.  What
    makes a node's effective status online is left to the registry. *)
Class Fleet := {
  is_active : Base.AgentNode → bool
}.

Module GPUScheduler.
Import Base.

(** The scheduler with the registry it holds.  Tasks are objects shared by
    the queue, the running table and the callers: [tasks] is the store of
    the task objects, and a task object is its position in it. *)
Record t := {
  registry : list AgentNode;
  tasks : list InferenceTask;
  task_queue : list nat;
  running_tasks : gmap string nat;
  task_assignments : gmap string string;
  clock_readings : nat
}.

Definition with_registry (s : t) (r : list AgentNode) : t :=
  {| registry := r; tasks := tasks s; task_queue := task_queue s;
     running_tasks := running_tasks s; task_assignments := task_assignments s;
     clock_readings := clock_readings s |}.

Definition with_tasks (s : t) (ts : list InferenceTask) : t :=
  {| registry := registry s; tasks := ts; task_queue := task_queue s;
     running_tasks := running_tasks s; task_assignments := task_assignments s;
     clock_readings := clock_readings s |}.

Definition with_task_queue (s : t) (q : list nat) : t :=
  {| registry := registry s; tasks := tasks s; task_queue := q;
     running_tasks := running_tasks s; task_assignments := task_assignments s;
     clock_readings := clock_readings s |}.

Definition with_tracking (s : t) (r : gmap string nat) (a : gmap string string) : t :=
  {| registry := registry s; tasks := tasks s; task_queue := task_queue s;
     running_tasks := r; task_assignments := a;
     clock_readings := clock_readings s |}.

Section WithRuntime.
Context `{Runtime} `{Fleet}.

Definition now : M t Z := λ s,
  (Ok (clock (clock_readings s)),
   {| registry := registry s; tasks := tasks s; task_queue := task_queue s;
      running_tasks := running_tasks s; task_assignments := task_assignments s;
      clock_readings := S (clock_readings s) |}).

(** [self.registry.get_active_nodes()]: the active node objects, in the
    order of the registry. *)
Definition active_at (s : t) (i : nat) : bool :=
  match registry s !! i with
  | Some n => is_active n
  | None => false
  end.

Definition get_active_nodes (s : t) : list nat :=
  filter (λ i, active_at s i = true) (seq 0 (length (registry s))).

(** [self.registry.get_node(node_id)] *)
Definition get_node (nid : string) (s : t) : option nat :=
  list_find (λ n, node_id n = nid) (registry s) ≫= λ p, Some p.1.


(** [float(n)] for an integer below 2^63 in magnitude. *)
Definition Z_to_float (z : Z) : float :=
  match z with
  | Z0 => 0%float
  | Zpos _ => PrimFloat.of_uint63 (Uint63.of_Z z)
  | Zneg p => PrimFloat.opp (PrimFloat.of_uint63 (Uint63.of_Z (Zpos p)))
  end.

(** [min(a, b)] on two floats: the first of the smallest. *)
Definition py_min (a b : float) : float := if PrimFloat.ltb b a then b else a.

Definition has_sufficient_gpu_memory (requirements : TaskRequirements)
    (gpu_devices : list GpuDevice) : bool :=
  existsb
    (λ device,
       let available_memory :=
         PrimFloat.sub (default 0%float (memory_total_gb device))
                       (default 0%float (memory_allocated_gb device)) in
       PrimFloat.leb (min_gpu_memory_gb requirements) available_memory)
    gpu_devices.

(** A capability text that [float] rejects (ValueError) skips the device. *)
Definition has_sufficient_compute (min_capability : string)
    (gpu_devices : list GpuDevice) : bool :=
  existsb
    (λ device,
       match parse_float (default "0.0" (compute_capability device)),
             parse_float min_capability with
       | Some device_capability, Some wanted =>
           PrimFloat.leb wanted device_capability
       | _, _ => false
       end)
    gpu_devices.

Definition _node_meets_requirements (node : AgentNode)
    (requirements : TaskRequirements) : bool :=
  let cr := compute_resources node in
  let gpu_devices := default [] (devices (gpu_info cr)) in
  if requires_gpu requirements && negb (has_gpu cr) then false
  else if PrimFloat.ltb (available_ram_gb cr) (min_ram_gb requirements) then false
  else if PrimFloat.ltb 0%float (min_gpu_memory_gb requirements)
          && (negb (has_gpu cr)
              || negb (has_sufficient_gpu_memory requirements gpu_devices))
  then false
  else if match truthy_str (min_compute_capability requirements) with
          | Some c => negb (has_gpu cr) || negb (has_sufficient_compute c gpu_devices)
          | None => false
          end
  then false
  else if bool_decide (max_concurrent_tasks node ≤ current_tasks node)%Z then false
  else true.

Definition _find_suitable_nodes (requirements : TaskRequirements) (s : t)
  : list nat :=
  filter (λ i, match registry s !! i with
               | Some node => _node_meets_requirements node requirements
               | None => false
               end = true)
         (get_active_nodes s).

(** [None]: ZeroDivisionError. *)
Definition _calculate_node_score (node : AgentNode) (task : InferenceTask)
  : option float :=
  let cr := compute_resources node in
  let req := requirements task in
  if PrimFloat.eqb (total_ram_gb cr) 0%float then None
  else
    let ram_ratio := PrimFloat.div (available_ram_gb cr) (total_ram_gb cr) in
    let score := PrimFloat.add 0%float (PrimFloat.mul ram_ratio 10%float) in
    let score :=
      if requires_gpu req && has_gpu cr then
        let total_gpu_memory := default 0%float (total_memory_gb (gpu_info cr)) in
        PrimFloat.add (PrimFloat.add score 20%float)
                      (py_min (PrimFloat.div total_gpu_memory 10%float) 10%float)
      else score in
    if bool_decide (max_concurrent_tasks node = 0)%Z then None
    else
      let load_ratio :=
        PrimFloat.div (Z_to_float (current_tasks node))
                      (Z_to_float (max_concurrent_tasks node)) in
      let score := PrimFloat.sub score (PrimFloat.mul load_ratio 15%float) in
      let score :=
        if negb (String.eqb (model task) "auto")
           && bool_decide (model task ∈ supported_models node)
        then PrimFloat.add score 5%float else score in
      let score :=
        foldl (λ score preferred_model,
                 if bool_decide (preferred_model ∈ supported_models node)
                 then PrimFloat.add score 3%float else score)
              score (preferred_models req) in
      let score :=
        if String.eqb (task_type task) "streaming" && streaming (capabilities node)
        then PrimFloat.add score 5%float else score in
      Some score.

(** The scores of the suitable nodes, in order ([None]: one of them raised). *)
Fixpoint score_nodes (s : t) (task : InferenceTask) (nodes : list nat)
  : option (list (nat * float)) :=
  match nodes with
  | [] => Some []
  | i :: rest =>
      node ← registry s !! i;
      score ← _calculate_node_score node task;
      scores ← score_nodes s task rest;
      Some ((i, score) :: scores)
  end.

Definition _find_best_node (task : InferenceTask) : M t (option nat) :=
  s ← get_state;
  let suitable_nodes := _find_suitable_nodes (requirements task) s in
  if bool_decide (suitable_nodes = []) then mret None
  else
    node_scores ← get_or_raise (score_nodes s task suitable_nodes) "ZeroDivisionError";
    let node_scores :=
      py_sort_reverse (λ a b, PrimFloat.ltb a.2 b.2) node_scores in
    mret (head node_scores.*1).


Definition _assign_task_to_node (task node : nat) : t → bool * t :=
  guarded
    (started_at ← now;
     s ← get_state;
     task_obj ← get_or_raise (tasks s !! task) "dangling task";
     node_obj ← get_or_raise (registry s !! node) "dangling node";
     let task_obj := task_running task_obj started_at (node_id node_obj) in
     put_state
       (with_registry
          (with_tracking
             (with_tasks s (<[task := task_obj]> (tasks s)))
             (<[id task_obj := task]> (running_tasks s))
             (<[id task_obj := node_id node_obj]> (task_assignments s)))
          (<[node := set_current_tasks node_obj (current_tasks node_obj + 1)]>
             (registry s)));;
     mret true)
    false.

(** The key of [self.task_queue.sort]. *)
Definition sort_key (s : t) (task : nat) : string * Z :=
  match tasks s !! task with
  | Some task_obj => (TaskPriority_value (priority task_obj), created_at task_obj)
  | None => ("", 0%Z)
  end.

Definition sort_queue (s : t) : list nat :=
  py_sort (λ a b, tuple_lt (sort_key s a) (sort_key s b)) (task_queue s).

(** The [for task in self.task_queue] loop: an exception while a task is
    processed is logged and the loop goes on. *)
Fixpoint process_loop (queue tasks_to_remove : list nat) : M t (list nat) :=
  match queue with
  | [] => mret tasks_to_remove
  | task :: rest =>
      tasks_to_remove ←
        try_except
          (s ← get_state;
           task_obj ← get_or_raise (tasks s !! task) "dangling task";
           best_node ← _find_best_node task_obj;
           match best_node with
           | Some node =>
               success ← call (_assign_task_to_node task node);
               if success : bool then mret (tasks_to_remove ++ [task])
               else mret tasks_to_remove
           | None => mret tasks_to_remove
           end)
          (λ _, mret tasks_to_remove);
      process_loop rest tasks_to_remove
  end.

(** [queue.remove(task)]: the first element that is the object [task] or
    equals it. *)
Fixpoint list_remove (s : t) (task : nat) (queue : list nat) : list nat :=
  match queue with
  | [] => []
  | x :: rest =>
      if bool_decide (x = task)
         || match tasks s !! x, tasks s !! task with
            | Some a, Some b => task_eqb a b
            | _, _ => false
            end
      then rest
      else x :: list_remove s task rest
  end.

Definition _process_task_queue : M t unit :=
  s ← get_state;
  if bool_decide (task_queue s = []) then mret tt
  else
    put_state (with_task_queue s (sort_queue s));;
    s ← get_state;
    tasks_to_remove ← process_loop (task_queue s) [];
    s ← get_state;
    put_state
      (with_task_queue s
         (foldl (λ queue task, list_remove s task queue) (task_queue s)
                tasks_to_remove)).

(** One round of [_scheduler_loop]: an exception is logged. *)
Definition process_tick : t → unit * t := guarded _process_task_queue tt.

Definition submit_task (task : nat) : t → bool * t :=
  guarded
    (s ← get_state;
     task_obj ← get_or_raise (tasks s !! task) "dangling task";
     let suitable_nodes := _find_suitable_nodes (requirements task_obj) s in
     if bool_decide (suitable_nodes = []) then
       put_state
         (with_tasks s
            (<[task := task_failed task_obj "No suitable nodes available"]>
               (tasks s)));;
       mret false
     else
       put_state (with_task_queue s (task_queue s ++ [task]));;
       mret true)
    false.

Definition complete_task (task_id : string) (result : option json)
    (error : option string) : M t unit :=
  s ← get_state;
  match running_tasks s !! task_id with
  | None => mret tt
  | Some task =>
      let node_id := task_assignments s !! task_id in
      completed_at ← now;
      s ← get_state;
      task_obj ← get_or_raise (tasks s !! task) "dangling task";
      let s :=
        with_tasks s
          (<[task := task_finished task_obj completed_at result (truthy_str error)]>
             (tasks s)) in
      let s :=
        match truthy_str node_id ≫= λ n, get_node n s with
        | Some node =>
            match registry s !! node with
            | Some node_obj =>
                with_registry s
                  (<[node := set_current_tasks node_obj
                               (0 `max` (current_tasks node_obj - 1))]>
                     (registry s))
            | None => s
            end
        | None => s
        end in
      put_state
        (with_tracking s (delete task_id (running_tasks s))
                       (delete task_id (task_assignments s)))
  end.

End WithRuntime.
End GPUScheduler.

(** ** hub/services/p2p_handoff.py: P2PHandoff *)

(** What a POST to a node comes back with: a response, with its status
    and what [response.json()] gives (a value, or an exception), or an
    exception of the HTTP client. *)
Inductive http_outcome :=
| Response (status : Z) (body : outcome json)
| ClientError (msg : string).

(** The network: the outcome of the k-th request the service sends, given
    its URL.  Every theorem holds for every network. *)
Class Network := {
  http_post : nat → string → http_outcome
}.

(** Pydantic's validation of a value for a field declared
    [Optional[Dict[str, Any]]], as [HandoffResponse.result] is.  [None]
    and a dictionary pass as they are.  What happens to any other value
    depends on the version of the library: it is refused (a
    [ValidationError], with its text) or converted to a dictionary; this
    is the parameter [dict_of_value]. *)
Class Validation := {
  dict_of_value : json → outcome (list (string * json))
}.

Definition validate_optional_dict `{Validation} (v : json) : outcome (option json) :=
  match v with
  | JNull => Ok None
  | JObj kv => Ok (Some (JObj kv))
  | _ =>
      match dict_of_value v with
      | Ok kv => Ok (Some (JObj kv))
      | Raised e => Raised e
      end
  end.

Module P2PHandoff.

Inductive HandoffStatus := PENDING | IN_PROGRESS | COMPLETED | FAILED | CANCELLED.

Record HandoffRequest := {
  task_id : string;
  source_node_id : string;
  target_node_id : string;
  model_name : string;
  input_data : json;
  priority : Z;
  timeout : Z
}.

Record HandoffResponse := {
  resp_handoff_id : string;
  resp_status : HandoffStatus;
  resp_result : option json;
  resp_error : option string;
  resp_metrics : option json
}.

Record HandoffSession := {
  handoff_id : string;
  request : HandoffRequest;
  status : HandoffStatus;
  start_time : Z;
  end_time : option Z;
  result : option json;
  error : option string;
  retries : Z;
  max_retries : Z
}.

(** [HandoffSession(handoff_id=..., request=..., status=..., start_time=...)] *)
Definition new_session (hid : string) (req : HandoffRequest) (st : HandoffStatus)
    (start : Z) : HandoffSession :=
  {| handoff_id := hid; request := req; status := st; start_time := start;
     end_time := None; result := None; error := None;
     retries := 0; max_retries := 3 |}.

Definition with_target (req : HandoffRequest) (target : string) : HandoffRequest :=
  {| task_id := task_id req; source_node_id := source_node_id req;
     target_node_id := target; model_name := model_name req;
     input_data := input_data req; priority := priority req;
     timeout := timeout req |}.

Definition with_status (x : HandoffSession) (st : HandoffStatus) : HandoffSession :=
  {| handoff_id := handoff_id x; request := request x; status := st;
     start_time := start_time x; end_time := end_time x; result := result x;
     error := error x; retries := retries x; max_retries := max_retries x |}.

Definition with_error (x : HandoffSession) (e : string) : HandoffSession :=
  {| handoff_id := handoff_id x; request := request x; status := status x;
     start_time := start_time x; end_time := end_time x; result := result x;
     error := Some e; retries := retries x; max_retries := max_retries x |}.

Definition with_result (x : HandoffSession) (r : json) (ended : Z) : HandoffSession :=
  {| handoff_id := handoff_id x; request := request x; status := status x;
     start_time := start_time x; end_time := Some ended; result := Some r;
     error := error x; retries := retries x; max_retries := max_retries x |}.

Definition with_retries (x : HandoffSession) (n : Z) : HandoffSession :=
  {| handoff_id := handoff_id x; request := request x; status := status x;
     start_time := start_time x; end_time := end_time x; result := result x;
     error := error x; retries := n; max_retries := max_retries x |}.

(** A request the service posts to a node: a connection request with
    the body [{"peer_node": peer}], or a handoff request with the body
    [request.dict()]. *)
Inductive outbound :=
| PostConnect (node peer : string)
| PostHandoff (req : HandoffRequest).

Definition url_of (o : outbound) : string :=
  match o with
  | PostConnect node _ => "http://" +:+ node +:+ "/connect"
  | PostHandoff req => "http://" +:+ target_node_id req +:+ "/handoff"
  end.

(** The service.  A session is an object ([sessions] is the store of the
    session objects, a session object is its position in it);
    [node_connections] keeps the insertion order of the dictionary;
    [sent] is the trace of the requests posted so far, oldest first. *)
Record t := {
  sessions : list HandoffSession;
  active_sessions : gmap string nat;
  node_connections : list (string * gset string);
  session_locks : gset string;
  http_session : bool;
  sent : list outbound;
  clock_readings : nat
}.

Definition with_sessions (s : t) (l : list HandoffSession) : t :=
  {| sessions := l; active_sessions := active_sessions s;
     node_connections := node_connections s; session_locks := session_locks s;
     http_session := http_session s; sent := sent s;
     clock_readings := clock_readings s |}.

Definition with_active (s : t) (a : gmap string nat) (locks : gset string) : t :=
  {| sessions := sessions s; active_sessions := a;
     node_connections := node_connections s; session_locks := locks;
     http_session := http_session s; sent := sent s;
     clock_readings := clock_readings s |}.

Definition with_connections (s : t) (c : list (string * gset string)) : t :=
  {| sessions := sessions s; active_sessions := active_sessions s;
     node_connections := c; session_locks := session_locks s;
     http_session := http_session s; sent := sent s;
     clock_readings := clock_readings s |}.

(** Dictionary operations on [node_connections]. *)
Definition conn_keys (c : list (string * gset string)) : list string := c.*1.

Definition conn_get (k : string) (c : list (string * gset string))
  : option (gset string) :=
  list_find (λ e, e.1 = k) c ≫= λ p, Some p.2.2.

(** [if k not in d: d[k] = set()] *)
Definition conn_ensure (k : string) (c : list (string * gset string))
  : list (string * gset string) :=
  if bool_decide (k ∈ conn_keys c) then c else c ++ [(k, ∅)].

(** [d[k].add(x)] *)
Fixpoint conn_add (k x : string) (c : list (string * gset string))
  : list (string * gset string) :=
  match c with
  | [] => []
  | (k', peers) :: rest =>
      if bool_decide (k' = k) then (k', {[x]} ∪ peers) :: rest
      else (k', peers) :: conn_add k x rest
  end.

Section WithRuntime.
Context `{Runtime} `{Network} `{Validation}.

Definition now : M t Z := λ s,
  (Ok (clock (clock_readings s)),
   {| sessions := sessions s; active_sessions := active_sessions s;
      node_connections := node_connections s; session_locks := session_locks s;
      http_session := http_session s; sent := sent s;
      clock_readings := S (clock_readings s) |}).

(** [self.http_session.post(url, json=...)]: without a session
    ([start()] was not called) the attribute access raises. *)
Definition post (o : outbound) : M t (Z * outcome json) := λ s,
  if http_session s then
    let s' :=
      {| sessions := sessions s; active_sessions := active_sessions s;
         node_connections := node_connections s; session_locks := session_locks s;
         http_session := http_session s; sent := sent s ++ [o];
         clock_readings := clock_readings s |} in
    match http_post (length (sent s)) (url_of o) with
    | Response status body => (Ok (status, body), s')
    | ClientError msg => (Raised msg, s')
    end
  else (Raised "'NoneType' object has no attribute 'post'", s).

(** Allocation of a session object. *)
Definition alloc (x : HandoffSession) : M t nat := λ s,
  (Ok (length (sessions s)), with_sessions s (sessions s ++ [x])).

Definition deref (session : nat) : M t HandoffSession :=
  s ← get_state;
  get_or_raise (sessions s !! session) "dangling session".

Definition update (session : nat) (f : HandoffSession → HandoffSession) : M t unit :=
  x ← deref session;
  modify (λ s, with_sessions s (<[session := f x]> (sessions s))).

Definition _execute_handoff (session : nat) : M t json :=
  x ← deref session;
  '(status, body) ← post (PostHandoff (request x));
  if bool_decide (status ≠ 200%Z) then
    raise ("Handoff request failed with status " +:+ Redis.Z_to_string status)
  else
    result ← of_outcome body;
    ended ← now;
    update session (λ x, with_result x result ended);;
    mret result.

Definition _find_alternative_nodes (model_name : string)
    (exclude_nodes : list string) : M t (list string) :=
  s ← get_state;
  mret (filter (λ node, node ∉ exclude_nodes) (conn_keys (node_connections s))).

(** The loop of [_handle_fallback]: the first alternative that takes the
    task ends it; a failure is logged and the next one is tried. *)
Fixpoint fallback_loop (session : HandoffSession) (alternative_nodes : list string)
  : M t (option json) :=
  match alternative_nodes with
  | [] => mret None
  | node_id :: rest =>
      attempt ←
        try_except
          (let modified_request := with_target (request session) node_id in
           start ← now;
           fallback_session ←
             alloc (new_session
                      (handoff_id session +:+ "_fallback_"
                         +:+ Redis.Z_to_string (retries session))
                      modified_request PENDING start);
           result ← _execute_handoff fallback_session;
           mret (Some result))
          (λ _, mret None);
      match attempt with
      | Some result => mret (Some result)
      | None => fallback_loop session rest
      end
  end.

Definition _handle_fallback (session : nat) : M t (option json) :=
  x ← deref session;
  if bool_decide (max_retries x ≤ retries x)%Z then mret None
  else
    update session (λ x, with_retries x (retries x + 1));;
    x ← deref session;
    alternative_nodes ←
      _find_alternative_nodes (model_name (request x))
        [source_node_id (request x); target_node_id (request x)];
    fallback_loop x alternative_nodes.

Definition _establish_connection (source_node target_node : string) : M t unit :=
  '(status, _) ← post (PostConnect source_node target_node);
  if bool_decide (status ≠ 200%Z) then raise "Source node connection failed"
  else
    '(status, _) ← post (PostConnect target_node source_node);
    if bool_decide (status ≠ 200%Z) then raise "Target node connection failed"
    else
      modify (λ s, with_connections s
                     (conn_add target_node source_node
                        (conn_add source_node target_node (node_connections s)))).

Definition _verify_node_connection (source_node target_node : string) : M t bool :=
  modify (λ s, with_connections s
                 (conn_ensure target_node
                    (conn_ensure source_node (node_connections s))));;
  s ← get_state;
  if bool_decide (target_node ∈ default ∅ (conn_get source_node (node_connections s)))
  then mret true
  else
    try_except
      (_establish_connection source_node target_node;; mret true)
      (λ _, mret false).

(** [HandoffResponse(handoff_id=..., status=COMPLETED, result=...,
    metrics=...)]: the model validates the result and raises when it
    refuses it. *)
Definition completed_response (handoff_id : string) (result : json)
    (metrics : option json) : M t HandoffResponse :=
  validated ← of_outcome (validate_optional_dict result);
  mret {| resp_handoff_id := handoff_id; resp_status := COMPLETED;
          resp_result := validated; resp_error := None;
          resp_metrics := metrics |}.

(** [HandoffResponse(handoff_id=..., status=FAILED, error=str(e))] *)
Definition failed_response (handoff_id e : string) : HandoffResponse :=
  {| resp_handoff_id := handoff_id; resp_status := FAILED;
     resp_result := None; resp_error := Some e; resp_metrics := None |}.

(** The [try] block of [initiate_handoff]; the response is built inside
    it. *)
Definition first_attempt (handoff_id : string) (session : nat)
    (req : HandoffRequest) : M t HandoffResponse :=
  connected ← _verify_node_connection (source_node_id req) (target_node_id req);
  if negb connected then raise "Nodes are not connected"
  else
    update session (λ x, with_status x IN_PROGRESS);;
    result ← _execute_handoff session;
    completed_response handoff_id result None.

(** Its [except Exception as e] block.  The inner [try] holds the call
    of the fallback and the response built from its result: an exception
    of either is logged, and the failed response is returned. *)
Definition on_failure (handoff_id : string) (session : nat) (e : string)
  : M t HandoffResponse :=
  update session (λ x, with_error (with_status x FAILED) e);;
  fallback_response ←
    try_except
      (fallback_result ← _handle_fallback session;
       match fallback_result with
       | Some r =>
           if json_truthy r then
             resp ← completed_response handoff_id r
                      (Some (JObj [("fallback_used", JBool true)]));
             mret (Some resp)
           else mret None
       | None => mret None
       end)
      (λ _, mret None);
  match fallback_response with
  | Some resp => mret resp
  | None => mret (failed_response handoff_id e)
  end.

Definition initiate_handoff (req : HandoffRequest) : M t HandoffResponse :=
  stamp ← now;
  let handoff_id :=
    "handoff_" +:+ task_id req +:+ "_" +:+ Redis.Z_to_string (stamp / 1000000) in
  start ← now;
  session ← alloc (new_session handoff_id req PENDING start);
  modify (λ s, with_active s (<[handoff_id := session]> (active_sessions s))
                 ({[handoff_id]} ∪ session_locks s));;
  try_except (first_attempt handoff_id session req)
             (on_failure handoff_id session).

(** [session.status in [COMPLETED, FAILED]] and the age test of
    [_cleanup_expired_sessions]. *)
Definition is_expired (current_time : Z) (session : HandoffSession) : bool :=
  match status session with
  | COMPLETED | FAILED =>
      bool_decide (seconds 3600 < current_time - start_time session)%Z
  | _ => false
  end.

(** One round of [_cleanup_expired_sessions], up to its sleep: the expired
    sessions are collected, then dropped with their locks.  A reference
    always denotes a session object. *)
Definition expired_at (current_time : Z) (s : t) (session : nat) : bool :=
  match sessions s !! session with
  | Some x => is_expired current_time x
  | None => false
  end.

Definition expired_sessions (current_time : Z) (s : t) : gmap string nat :=
  filter (λ kv, expired_at current_time s kv.2 = true) (active_sessions s).

Definition cleanup_round : t → unit * t :=
  guarded
    (current_time ← now;
     s ← get_state;
     let expired := expired_sessions current_time s in
     put_state (with_active s (active_sessions s ∖ expired)
                  (session_locks s ∖ dom expired)))
    tt.

End WithRuntime.
End P2PHandoff.

(** * Specification-side definitions and example data *)

(** ** A concrete runtime, for the examples

    One second between two clock readings; an instant is written as the
    decimal text of its microseconds; [json.dumps] as the standard module
    does on a [Node]'s capabilities ([None] is [null], a capabilities
    object is not serializable). *)
Definition example_runtime : Runtime := {|
  clock := λ k, (Z.of_nat k * 1000000)%Z;
  isoformat := Redis.Z_to_string;
  fromisoformat := Redis.Z_of_string;
  json_dumps := λ j,
    match j with
    | JObj [(k, JStr v)] => k +:+ "=" +:+ v
    | _ => "json"
    end;
  json_loads := λ _, None;
  dumps_capabilities := λ c,
    match c with
    | None => Some "null"
    | Some _ => None
    end;
  parse_float := λ _, None
|}.

(** The stored status of a task. *)
Definition status_of (task_id : string) (w : World) : option string :=
  Redis.hgetall (Registry.task_key task_id) (redis w) !! "status".

(** The stored text of a task field. *)
Definition task_field (task_id field : string) (w : World) : option string :=
  Redis.hgetall (Registry.task_key task_id) (redis w) !! field.


(** Example stores: one task [t1], completed, pending or running. *)
Definition world_with_task (status : string) (sets : list (string * gset string))
  : World :=
  {| redis :=
       Redis.mk
         {[ Registry.task_key "t1" :=
              list_to_map [("id", "t1"); ("status", status); ("created_at", "0")] ]}
         (list_to_map sets) ∅ ∅;
     ticks := 0 |}.

(** The empty store, before any clock reading. *)
Definition empty_world : World := {| redis := Redis.empty; ticks := 0 |}.

(** Example nodes, without capabilities: one that reports itself offline,
    one that reports itself online, and the node the registration route
    builds, online with the default capabilities. *)
Definition node_offline : Node :=
  {| id := "a"; status := OFFLINE; capabilities := None;
     host := None; port := None; tasks_completed := 0; tasks_failed := 0 |}.

Definition node_online : Node :=
  {| id := "a"; status := ONLINE; capabilities := None;
     host := None; port := None; tasks_completed := 0; tasks_failed := 0 |}.

Definition node_from_route : Node :=
  {| id := "a"; status := ONLINE; capabilities := Some NodeCapabilities_default;
     host := None; port := None; tasks_completed := 0; tasks_failed := 0 |}.

(** The store a little more than an hour after the node [a] registered as
    online: the stored status is still online. *)
Definition world_stale : World :=
  {| redis := redis (Registry.register_node (H := example_runtime)
                       node_online empty_world).2;
     ticks := 3700 |}.

(** A record stored under [node:<m>] that has an id has the id [m]. *)
Definition well_keyed (w : World) : Prop :=
  ∀ m i, Redis.hgetall (Registry.node_key m) (redis w) !! "id" = Some i → i = m.

(** [w'] is [w] after some reads of nodes: later, and with the same node
    and task records but for their status. *)
Definition same_nodes (w w' : World) : Prop :=
  ticks w ≤ ticks w'
  ∧ ∀ k f, f ≠ "status" →
      Redis.hgetall k (redis w') !! f = Redis.hgetall k (redis w) !! f.

(** A node dictionary that is not the node [n], or that reads offline. *)
Definition hidden (n : string) (d : gmap string string) : Prop :=
  d !! "id" ≠ Some n ∨ d !! "status" = Some "offline".

(** A task the timeout check has failed: stored as failed with the given
    result text, out of the running set and in the failed set. *)
Definition timed_out (task_id result_text : string) (w : World) : Prop :=
  status_of task_id w = Some "failed"
  ∧ task_field task_id "result" w = Some result_text
  ∧ (task_id ∉ Redis.smembers "running_tasks" (redis w))
  ∧ (task_id ∈ Redis.smembers "failed_tasks" (redis w)).

(** The task has a stored record. *)
Definition stored (task_id : string) (w : World) : Prop :=
  is_Some (Redis.hashes (redis w) !! Registry.task_key task_id).

(** A task record the check can read: its creation instant parses and it
    has an id. *)
Definition readable `{Runtime} (h : gmap string string) : Prop :=
  (∃ s c, h !! "created_at" = Some s ∧ fromisoformat s = Some c)
  ∧ is_Some (h !! "id").

(** The same, on the dictionary [get_task] returns. *)
Definition checkable `{Runtime} (d : gmap string json) : Prop :=
  ∃ s c i, d !! "created_at" = Some (JStr s) ∧ fromisoformat s = Some c
           ∧ d !! "id" = Some (JStr i).

(** A store with one running task, created (and started) at instant 0,
    whose own time limit is 30 seconds, seen [age] seconds later. *)
Definition world_running (age : nat) : World :=
  {| redis :=
       Redis.mk
         {[ Registry.task_key "t1" :=
              list_to_map [("id", "t1"); ("status", "running"); ("node_id", "a");
                           ("created_at", "0"); ("started_at", "0");
                           ("timeout_seconds", "30")] ]}
         {[ "running_tasks" := {["t1"]} ]} ∅ ∅;
     ticks := age |}.

(** In a list sorted by [lt], [a] may stand before [b]: [b < a] does not
    hold. *)
Definition not_after {A} (lt : A → A → bool) (a b : A) : Prop := lt b a = false.

Section SchedulerDefinitions.
Import Base.

(** The operations of the GPU-aware scheduler: a task is submitted, the
    matching loop runs once, a task completes. *)
Inductive scheduler_op :=
| Submit (task : nat)
| Tick
| Complete (task_id : string) (result : option json) (error : option string).

(** The load of a node is within its capacity. *)
Definition within_capacity (n : AgentNode) : Prop :=
  (0 ≤ current_tasks n ≤ max_concurrent_tasks n)%Z.

Definition capacity_ok (s : GPUScheduler.t) : Prop :=
  Forall within_capacity (GPUScheduler.registry s).

(** The scheduler after an operation, and after a sequence of them. *)
Definition step `{Runtime} `{Fleet} (o : scheduler_op) (s : GPUScheduler.t)
  : GPUScheduler.t :=
  match o with
  | Submit task => (GPUScheduler.submit_task task s).2
  | Tick => (GPUScheduler.process_tick s).2
  | Complete task_id result error =>
      (GPUScheduler.complete_task task_id result error s).2
  end.

Definition run `{Runtime} `{Fleet} (ops : list scheduler_op)
    (s : GPUScheduler.t) : GPUScheduler.t :=
  foldl (λ s o, step o s) s ops.

(** The hard constraints of the specification that do not depend on the
    load of the node. *)
Definition satisfies_hard_constraints `{Runtime} (node : AgentNode)
    (req : TaskRequirements) : bool :=
  let cr := compute_resources node in
  let gpu_devices := default [] (devices (gpu_info cr)) in
  implb (requires_gpu req) (has_gpu cr)
  && PrimFloat.leb (min_ram_gb req) (available_ram_gb cr)
  && (if PrimFloat.ltb 0%float (min_gpu_memory_gb req)
      then GPUScheduler.has_sufficient_gpu_memory req gpu_devices
      else true)
  && match min_compute_capability req with
     | Some c => GPUScheduler.has_sufficient_compute c gpu_devices
     | None => true
     end.

(** A registry for which a node is active when its status says so. *)
Definition example_fleet : Fleet :=
  {| is_active := λ node, String.eqb (node_status node) "active" |}.

(** Example nodes and tasks: 16 GB of free RAM on a node, 1 GB asked by a
    task. *)
Definition example_capabilities : NodeCapabilities :=
  {| inference := true; text_generation := true; auto_model_loading := false;
     streaming := false; model_registry := false |}.

Definition example_node (name : string) (gpu : bool) (current max : Z) : AgentNode :=
  {| node_id := name; node_host := "localhost"; node_port := 8000;
     node_status := "active"; last_heartbeat := None;
     capabilities := example_capabilities;
     compute_resources :=
       {| cpu_cores := 8; total_ram_gb := 16; available_ram_gb := 16;
          has_gpu := gpu;
          gpu_info := {| devices := None; total_memory_gb := None |} |};
     supported_models := []; max_concurrent_tasks := max;
     current_tasks := current; features := [] |}.

Definition example_task (name : string) (p : TaskPriority) (created : Z)
    (gpu : bool) : InferenceTask :=
  {| id := name; model := "auto"; input := ""; task_type := "text-generation";
     requirements :=
       {| requires_gpu := gpu; min_ram_gb := 1; min_gpu_memory_gb := 0;
          min_compute_capability := None; preferred_models := [];
          max_duration_seconds := 300 |};
     priority := p; status := PENDING; created_at := created;
     started_at := None; completed_at := None; assigned_node := None;
     result := None; error := None |}.

Definition example_scheduler (nodes : list AgentNode) (ts : list InferenceTask)
    (queue : list nat) : GPUScheduler.t :=
  {| GPUScheduler.registry := nodes; GPUScheduler.tasks := ts;
     GPUScheduler.task_queue := queue; GPUScheduler.running_tasks := ∅;
     GPUScheduler.task_assignments := ∅; GPUScheduler.clock_readings := 0 |}.

End SchedulerDefinitions.

Section HandoffDefinitions.
Import P2PHandoff.

(** The targets of the handoff requests of a trace. *)
Definition handoff_targets (trace : list outbound) : list string :=
  omap (λ o, match o with
             | PostHandoff req => Some (target_node_id req)
             | PostConnect _ _ => None
             end) trace.

(** What one call leaves alone: the session objects that exist keep their
    place, and the connection table is the same. *)
Definition extends (s s' : P2PHandoff.t) : Prop :=
  length (sessions s) ≤ length (sessions s')
  ∧ node_connections s' = node_connections s
  ∧ http_session s' = http_session s.

(** What [post] returns for the k-th request, and the service once the
    request is in the trace. *)
Definition post_outcome `{Network} (k : nat) (o : outbound)
  : outcome (Z * outcome json) :=
  match http_post k (url_of o) with
  | Response status body => Ok (status, body)
  | ClientError msg => Raised msg
  end.

Definition record_sent (s : P2PHandoff.t) (o : outbound) : P2PHandoff.t :=
  {| sessions := sessions s; active_sessions := active_sessions s;
     node_connections := node_connections s;
     session_locks := session_locks s;
     http_session := http_session s; sent := sent s ++ [o];
     clock_readings := clock_readings s |}.




(** A validation that refuses every value that is neither [None] nor a
    dictionary. *)
Definition strict_validation : Validation :=
  {| dict_of_value := λ _, Raised "value is not a valid dict" |}.





(** A handoff of the task [T] from [src] to [tgt]. *)
Definition example_request : HandoffRequest :=
  {| task_id := "T"; source_node_id := "src"; target_node_id := "tgt";
     model_name := "m"; input_data := JNull; priority := 1; timeout := 300 |}.

(** A started service that knows the given peers and holds the given
    session objects. *)
Definition example_service (peers : list string) (l : list HandoffSession)
  : P2PHandoff.t :=
  {| sessions := l; active_sessions := ∅;
     node_connections := (λ n, (n, ∅)) <$> peers;
     session_locks := ∅; http_session := true; sent := [];
     clock_readings := 0 |}.

End HandoffDefinitions.

(** ** Definitions for the properties of the registry *)

(** A node record that [get_node] returns: it is not empty and its
    heartbeat parses. *)
Definition node_readable `{Runtime} (h : gmap string string) : Prop :=
  h ≠ ∅ ∧ is_Some (fromisoformat (default "" (h !! "last_heartbeat"))).

#[global] Instance node_readable_dec `{Runtime} h : Decision (node_readable h).
Proof. unfold node_readable. apply _. Defined.

(** [w'] is [w] without some task records, each of a task in [F] created
    before [cutoff]. *)
Definition pruned `{Runtime} (cutoff : Z) (F : string → Prop) (w w' : World) : Prop :=
  ∀ k, Redis.hgetall k (redis w') = Redis.hgetall k (redis w)
       ∨ (Redis.hgetall k (redis w') = ∅
          ∧ ∃ j s c, k = Registry.task_key j ∧ F j
              ∧ Redis.hgetall k (redis w) !! "created_at" = Some s
              ∧ fromisoformat s = Some c ∧ (c < cutoff)%Z).

(** The dictionary [get_task] returns for a task. *)
Definition task_dict `{Runtime} (w : World) (task_id : string)
  : option (gmap string json) :=
  let h := Redis.hgetall (Registry.task_key task_id) (redis w) in
  if decide (h = ∅) then None else Some (Registry.decode_task h).

(** The calls on the registry and on the scheduler that works on it. *)
Inductive registry_op :=
| RegisterNode (node : Node)
| Heartbeat (node_id : string)
| GetNode (node_id : string)
| GetAllNodes
| RemoveNode (node_id : string)
| CreateTask (task : Task.t)
| UpdateTaskStatus (task_id status : string) (node_id : option string)
    (result : option json)
| CleanupOldTasks (days : Z)
| GetStats
| GetAvailableNodes
| CheckRunningTasks (running : bool)
| CancelTask (task_id : string).

(** The store after a call, and after a sequence of calls. *)
Definition registry_step `{Runtime} `{TaskCodec} (o : registry_op) (w : World)
  : World :=
  match o with
  | RegisterNode node => (Registry.register_node node w).2
  | Heartbeat node_id => (Registry.update_node_heartbeat node_id w).2
  | GetNode node_id => (Registry.get_node node_id w).2
  | GetAllNodes => (Registry.get_all_nodes w).2
  | RemoveNode node_id => (Registry.remove_node node_id w).2
  | CreateTask task => (Registry.create_task task w).2
  | UpdateTaskStatus task_id status node_id result =>
      (Registry.update_task_status task_id status node_id result w).2
  | CleanupOldTasks days => (Registry.cleanup_old_tasks days w).2
  | GetStats => (Registry.get_stats w).2
  | GetAvailableNodes => (TaskScheduler._get_available_nodes w).2
  | CheckRunningTasks running => (TaskScheduler._check_running_tasks running w).2
  | CancelTask task_id => (TaskScheduler.cancel_task task_id w).2
  end.

Definition registry_run `{Runtime} `{TaskCodec} (ops : list registry_op)
    (w : World) : World :=
  foldl (λ w o, registry_step o w) w ops.

(** [json.dumps] as the standard module does on a task's input: the input
    is a model object, which is not serializable. *)
Definition standard_codec : TaskCodec := {| dumps_input_data := λ _, None |}.

(** A [json.dumps] that writes the prompt of an input. *)
Definition example_codec : TaskCodec :=
  {| dumps_input_data := λ i, Some (prompt i) |}.

Definition example_input : TaskInput :=
  {| prompt := "hello"; max_tokens := 100; temperature := 1%float;
     top_p := 1%float; stop_sequences := None; stream := false |}.

(** A task that carries the node it is meant for. *)
Definition example_task_for (name : string) (st : TaskStatus) (p : Z) : Task.t :=
  {| Task.id := name; Task.status := st; Task.model := "m";
     Task.input_data := example_input; Task.node_id := Some "a";
     Task.priority := p |}.

(** The store after the node [a] registered and the task [t1], meant for
    it, was created with the given status and priority. *)
Definition world_node_task (st : TaskStatus) (p : Z) : World :=
  (Registry.create_task (H := example_runtime) (H0 := example_codec)
     (example_task_for "t1" st p)
     (Registry.register_node (H := example_runtime) node_online empty_world).2).2.


Section MatchingDefinitions.
Import Base.

(** The node objects of [s] are those of [s0], but for their load. *)
Definition same_fleet (s0 s : GPUScheduler.t) : Prop :=
  ∀ i node, GPUScheduler.registry s !! i = Some node →
    ∃ node0, GPUScheduler.registry s0 !! i = Some node0
             ∧ node = set_current_tasks node0 (current_tasks node).

(** A task object that a matching round started: it is running on a
    node of the fleet that was active and passed the hard filter, under
    some load. *)
Definition started_on `{Runtime} `{Fleet} (s0 : GPUScheduler.t)
    (obj : InferenceTask) : Prop :=
  status obj = RUNNING
  ∧ ∃ node c,
      node ∈ GPUScheduler.registry s0
      ∧ assigned_node obj = Some (node_id node)
      ∧ is_active (set_current_tasks node c) = true
      ∧ GPUScheduler._node_meets_requirements (set_current_tasks node c)
          (requirements obj) = true.

(** The task object [t] is running and has a node. *)
Definition is_running (s : GPUScheduler.t) (t : nat) : Prop :=
  ∃ obj, GPUScheduler.tasks s !! t = Some obj
         ∧ status obj = RUNNING ∧ is_Some (assigned_node obj).

(** Every tracked task has an assignment, to a node of the registry. *)
Definition tracked (s : GPUScheduler.t) : Prop :=
  dom (GPUScheduler.running_tasks s) = dom (GPUScheduler.task_assignments s)
  ∧ ∀ task_id n, GPUScheduler.task_assignments s !! task_id = Some n →
                 n ∈ node_id <$> GPUScheduler.registry s.

End MatchingDefinitions.

Section SessionDefinitions.
Import P2PHandoff.

(** No request was posted between [s] and [s'], and no session opened. *)
Definition silent (s s' : P2PHandoff.t) : Prop :=
  sent s' = sent s ∧ http_session s' = http_session s.

(** A network on which every node answers 200, with a JSON object. *)
Definition accepting_network : Network :=
  {| http_post := λ _ _, Response 200 (Ok (JObj [("status", JStr "accepted")])) |}.

(** A service that was not started: it has no HTTP session. *)
Definition unstarted_service : P2PHandoff.t :=
  {| sessions := []; active_sessions := ∅; node_connections := [];
     session_locks := ∅; http_session := false; sent := [];
     clock_readings := 0 |}.

End SessionDefinitions.

(** * Properties *)

(** ** Reasoning about computations *)

Ltac unfold_monad :=
  unfold guarded, call, mbind, M_bind, mret, M_ret, raise, get_or_raise,
    of_outcome, try_except, get_state, put_state, modify, redis_get, redis_do,
    redis_try, now in *.

Lemma node_key_ne_task_key (n t : string) : Registry.node_key n ≠ Registry.task_key t.
Proof.
  unfold Registry.node_key, Registry.task_key.
  intros Heq. injection Heq. intros. discriminate.
Qed.

Lemma task_key_inj (a b : string) : Registry.task_key a = Registry.task_key b → a = b.
Proof. unfold Registry.task_key. intros Heq. injection Heq. auto. Qed.

Lemma node_key_inj (a b : string) : Registry.node_key a = Registry.node_key b → a = b.
Proof. unfold Registry.node_key. intros Heq. injection Heq. auto. Qed.

Section RegistryProperties.
Context `{Runtime}.

(** C10: updating the status of a task that has no stored record returns
    [False] and leaves the whole store as it was: no record, no queue
    membership and no node counter changes, and the clock is not read. *)
Theorem update_task_status_not_found (w : World) (task_id status : string)
    (node_id : option string) (result : option json) :
  Redis.hashes (redis w) !! Registry.task_key task_id = None →
  Registry.update_task_status task_id status node_id result w = (false, w).
Proof.
  intros Hnone. unfold Registry.update_task_status. unfold_monad.
  unfold Redis.exists_. rewrite Hnone.
  rewrite bool_decide_eq_false_2; [reflexivity|].
  intros [x Hx]. discriminate.
Qed.

End RegistryProperties.

Lemma update_task_status_not_found_witness :
  Registry.update_task_status (H := example_runtime) "t1" "running" (Some "a") None
    {| redis := Redis.empty; ticks := 0 |}
  = (false, {| redis := Redis.empty; ticks := 0 |}).
Proof.
  apply (update_task_status_not_found (H := example_runtime)).
  reflexivity.
Defined.

(** ** The store operations *)

Lemma hashes_sadd k x r : Redis.hashes (Redis.sadd k x r) = Redis.hashes r.
Proof. reflexivity. Qed.

Lemma hashes_srem k x r : Redis.hashes (Redis.srem k x r) = Redis.hashes r.
Proof. unfold Redis.srem. destruct (Redis.sets r !! k); reflexivity. Qed.

Lemma hashes_zrem k x r : Redis.hashes (Redis.zrem k x r) = Redis.hashes r.
Proof. unfold Redis.zrem. destruct (Redis.zsets r !! k); reflexivity. Qed.

Lemma hashes_expire k n r : Redis.hashes (Redis.expire k n r) = Redis.hashes r.
Proof. unfold Redis.expire. destruct (Redis.exists_ k r); reflexivity. Qed.

Lemma hgetall_sadd k' k x r : Redis.hgetall k' (Redis.sadd k x r) = Redis.hgetall k' r.
Proof. reflexivity. Qed.

Lemma hgetall_srem k' k x r : Redis.hgetall k' (Redis.srem k x r) = Redis.hgetall k' r.
Proof. unfold Redis.hgetall. by rewrite hashes_srem. Qed.

Lemma hgetall_zrem k' k x r : Redis.hgetall k' (Redis.zrem k x r) = Redis.hgetall k' r.
Proof. unfold Redis.hgetall. by rewrite hashes_zrem. Qed.

Lemma hgetall_expire k' k n r : Redis.hgetall k' (Redis.expire k n r) = Redis.hgetall k' r.
Proof. unfold Redis.hgetall. by rewrite hashes_expire. Qed.

Lemma hgetall_hset_eq k m r : Redis.hgetall k (Redis.hset k m r) = m ∪ Redis.hgetall k r.
Proof. unfold Redis.hgetall at 1, Redis.hset. simpl. by rewrite lookup_insert_eq. Qed.

Lemma hgetall_hset_ne k' k m r :
  k ≠ k' → Redis.hgetall k' (Redis.hset k m r) = Redis.hgetall k' r.
Proof. intros. unfold Redis.hgetall, Redis.hset. simpl. by rewrite lookup_insert_ne. Qed.

Lemma hgetall_hincrby_ne k' k f n r r' :
  Redis.hincrby k f n r = Some r' → k ≠ k' → Redis.hgetall k' r' = Redis.hgetall k' r.
Proof.
  unfold Redis.hincrby. intros Hinc Hne.
  destruct (match Redis.hgetall k r !! f with
            | Some s => Redis.Z_of_string s
            | None => Some 0%Z
            end) as [v|]; [|discriminate].
  case_bool_decide; [|discriminate].
  injection Hinc as <-. unfold Redis.hset1. by apply hgetall_hset_ne.
Qed.

Lemma hgetall_hincrby_field k' k f g n r r' :
  Redis.hincrby k f n r = Some r' → f ≠ g →
  Redis.hgetall k' r' !! g = Redis.hgetall k' r !! g.
Proof.
  unfold Redis.hincrby. intros Hinc Hne.
  destruct (match Redis.hgetall k r !! f with
            | Some s => Redis.Z_of_string s
            | None => Some 0%Z
            end) as [v|]; [|discriminate].
  case_bool_decide; [|discriminate].
  injection Hinc as <-. unfold Redis.hset1.
  destruct (decide (k = k')) as [<-|Hk].
  - rewrite hgetall_hset_eq. rewrite lookup_union_r; [done|].
    by rewrite lookup_singleton_ne.
  - by rewrite hgetall_hset_ne.
Qed.

Lemma exists_hset k' k m r :
  Redis.exists_ k' r = true → Redis.exists_ k' (Redis.hset k m r) = true.
Proof.
  unfold Redis.exists_, Redis.hset. simpl.
  intros Hex%bool_decide_eq_true. apply bool_decide_eq_true.
  destruct (decide (k = k')) as [->|Hne].
  - rewrite lookup_insert_eq. eauto.
  - by rewrite lookup_insert_ne.
Qed.

Lemma sets_hset k m r : Redis.sets (Redis.hset k m r) = Redis.sets r.
Proof. reflexivity. Qed.

Lemma sets_hincrby k f n r r' :
  Redis.hincrby k f n r = Some r' → Redis.sets r' = Redis.sets r.
Proof.
  unfold Redis.hincrby. intros Hinc.
  destruct (match Redis.hgetall k r !! f with
            | Some s => Redis.Z_of_string s
            | None => Some 0%Z
            end) as [v|]; [|discriminate].
  case_bool_decide; [|discriminate].
  by injection Hinc as <-.
Qed.

Lemma smembers_sadd k' k x r :
  Redis.smembers k' (Redis.sadd k x r)
  = if decide (k = k') then {[x]} ∪ Redis.smembers k r else Redis.smembers k' r.
Proof.
  unfold Redis.smembers at 1, Redis.sadd. simpl.
  case_decide as Hk.
  - subst. by rewrite lookup_insert_eq.
  - by rewrite lookup_insert_ne.
Qed.

Lemma smembers_srem k' k x r :
  Redis.smembers k' (Redis.srem k x r)
  = if decide (k = k') then Redis.smembers k r ∖ {[x]} else Redis.smembers k' r.
Proof.
  unfold Redis.smembers, Redis.srem.
  destruct (decide (k = k')) as [<-|Hk];
    destruct (Redis.sets r !! k) as [s|] eqn:Hs; simpl.
  - destruct (decide (s ∖ {[x]} = ∅)) as [He|He].
    + rewrite lookup_delete_eq. simpl. by rewrite He.
    + by rewrite lookup_insert_eq.
  - rewrite Hs. simpl. by rewrite difference_disjoint_L by apply disjoint_empty_l.
  - destruct (decide (s ∖ {[x]} = ∅)).
    + by rewrite lookup_delete_ne.
    + by rewrite lookup_insert_ne.
  - done.
Qed.

Lemma smembers_zrem k' k x r : Redis.smembers k' (Redis.zrem k x r) = Redis.smembers k' r.
Proof. unfold Redis.smembers, Redis.zrem. destruct (Redis.zsets r !! k); reflexivity. Qed.

Ltac store_simpl :=
  repeat first
    [ rewrite hgetall_sadd
    | rewrite hgetall_srem
    | rewrite hgetall_zrem
    | rewrite hgetall_expire
    | rewrite hgetall_hset_eq
    | rewrite hgetall_hset_ne
        by (apply node_key_ne_task_key
            || (apply not_eq_sym; apply node_key_ne_task_key)
            || congruence)
    | match goal with
      | Hinc : Redis.hincrby (Registry.node_key _) _ _ _ = Some ?t
        |- context [Redis.hgetall (Registry.task_key ?k) ?t] =>
          rewrite (hgetall_hincrby_ne (Registry.task_key k) _ _ _ _ _ Hinc
                     (node_key_ne_task_key _ _))
      end ].

(** ** The task store *)

Section TaskStoreProperties.
Context `{Runtime}.

Lemma decode_task_status (h : gmap string string) :
  Registry.decode_task h !! "status" ≫= as_str = h !! "status".
Proof.
  unfold Registry.decode_task.
  repeat case_match; rewrite ?lookup_insert_ne by done;
    rewrite lookup_fmap; by destruct (h !! "status").
Qed.

Lemma decode_task_None (h : gmap string string) (k : string) :
  Registry.decode_task h !! k = None → h !! k = None.
Proof.
  unfold Registry.decode_task. intros Hk.
  destruct (h !! "result") as [r|] eqn:Hr.
  - destruct (decide (k = "result")) as [->|Hne].
    { by rewrite lookup_insert_eq in Hk. }
    rewrite lookup_insert_ne in Hk by done.
    destruct (h !! "input_data") as [i|] eqn:Hi.
    + destruct (decide (k = "input_data")) as [->|Hne'].
      { by rewrite lookup_insert_eq in Hk. }
      rewrite lookup_insert_ne in Hk by done.
      rewrite lookup_fmap in Hk. by destruct (h !! k).
    + rewrite lookup_fmap in Hk. by destruct (h !! k).
  - destruct (h !! "input_data") as [i|] eqn:Hi.
    + destruct (decide (k = "input_data")) as [->|Hne'].
      { by rewrite lookup_insert_eq in Hk. }
      rewrite lookup_insert_ne in Hk by done.
      rewrite lookup_fmap in Hk. by destruct (h !! k).
    + rewrite lookup_fmap in Hk. by destruct (h !! k).
Qed.

Lemma decode_task_empty (h : gmap string string) :
  Registry.decode_task h = ∅ → h = ∅.
Proof.
  intros Hsz.
  apply map_eq. intros k. rewrite lookup_empty.
  apply decode_task_None. by rewrite Hsz.
Qed.

Lemma update_task_status_writes (w : World) (task_id status : string)
    (node_id : option string) (result : option json) (h : gmap string string) :
  Redis.hashes (redis w) !! Registry.task_key task_id = Some h →
  status_of task_id
    (Registry.update_task_status task_id status node_id result w).2 = Some status.
Proof.
  intros Hh. unfold Registry.update_task_status. unfold_monad.
  unfold Redis.exists_. rewrite Hh. rewrite bool_decide_eq_true_2 by eauto. simpl.
  unfold status_of.
  repeat (case_decide || case_match); simpl in *; simplify_eq.
  all: cbn [redis]; store_simpl.
  all: apply lookup_union_Some_l; by simplify_map_eq.
Qed.

Lemma update_task_status_result (w : World) (task_id status : string)
    (node_id : option string) (r : json) (h : gmap string string) :
  Redis.hashes (redis w) !! Registry.task_key task_id = Some h →
  task_field task_id "result"
    (Registry.update_task_status task_id status node_id (Some r) w).2
  = Some (json_dumps r).
Proof.
  intros Hh. unfold Registry.update_task_status. unfold_monad.
  unfold Redis.exists_. rewrite Hh. rewrite bool_decide_eq_true_2 by eauto. simpl.
  unfold task_field.
  repeat (case_decide || case_match); simpl in *; simplify_eq.
  all: cbn [redis]; store_simpl.
  all: apply lookup_union_Some_l; by simplify_map_eq.
Qed.



End TaskStoreProperties.



Section CancelProperties.
Context `{Runtime}.

Lemma get_task_spec (task_id : string) (w : World) :
  Registry.get_task task_id w
  = (if decide (Redis.hgetall (Registry.task_key task_id) (redis w) = ∅)
     then None
     else Some (Registry.decode_task
                  (Redis.hgetall (Registry.task_key task_id) (redis w))),
     w).
Proof.
  unfold Registry.get_task. unfold_monad. by case_decide.
Qed.

Lemma status_of_stored (task_id s : string) (w : World) :
  status_of task_id w = Some s →
  ∃ h, Redis.hashes (redis w) !! Registry.task_key task_id = Some h
       ∧ Redis.hgetall (Registry.task_key task_id) (redis w) = h
       ∧ h !! "status" = Some s.
Proof.
  unfold status_of, Redis.hgetall.
  destruct (Redis.hashes (redis w) !! Registry.task_key task_id) as [h|]; simpl.
  - eauto.
  - by rewrite lookup_empty.
Qed.

(** C8, as the code has it: [cancel_task] cancels a pending task only, and
    records it as failed: the stored status becomes [failed], with the
    result [{"error": "Task cancelled by user"}], and the call returns
    [True].  A task in any other status (running, or any other value) is
    refused: the call returns [False] and the store is as it was. *)
Theorem cancel_task_pending_only (w : World) (task_id : string) :
  (status_of task_id w = Some "pending" →
   (TaskScheduler.cancel_task task_id w).1 = true
   ∧ status_of task_id (TaskScheduler.cancel_task task_id w).2 = Some "failed"
   ∧ task_field task_id "result" (TaskScheduler.cancel_task task_id w).2
     = Some (json_dumps (error_obj "Task cancelled by user")))
  ∧ (status_of task_id w ≠ Some "pending" →
     TaskScheduler.cancel_task task_id w = (false, w)).
Proof.
  split.
  - intros (h & Hh & Hall & Hst)%status_of_stored.
    unfold TaskScheduler.cancel_task. unfold_monad.
    rewrite get_task_spec, Hall.
    assert (h ≠ ∅) as Hne.
    { intros ->. by rewrite lookup_empty in Hst. }
    rewrite decide_False by done.
    assert (Registry.decode_task h ≠ ∅) as Hsz.
    { intros Hz%decode_task_empty. done. }
    rewrite decide_False by done.
    rewrite decide_True by (by rewrite decode_task_status).
    destruct (Registry.update_task_status task_id "failed" None
                (Some (error_obj "Task cancelled by user")) w) as [b w'] eqn:Hupd.
    simpl. split; [done|].
    replace w' with
      (Registry.update_task_status task_id "failed" None
         (Some (error_obj "Task cancelled by user")) w).2 by (by rewrite Hupd).
    split.
    + by eapply update_task_status_writes.
    + by eapply update_task_status_result.
  - intros Hst.
    unfold TaskScheduler.cancel_task. unfold_monad.
    rewrite get_task_spec.
    case_decide as Hempty; [done|].
    case_decide as Hsz; [done|].
    rewrite decide_False; [done|].
    rewrite decode_task_status. exact Hst.
Qed.

End CancelProperties.

Lemma cancel_task_pending_only_witness :
  ((TaskScheduler.cancel_task (H := example_runtime) "t1"
      (world_with_task "pending" [])).1 = true
   ∧ status_of "t1"
       (TaskScheduler.cancel_task (H := example_runtime) "t1"
          (world_with_task "pending" [])).2 = Some "failed"
   ∧ task_field "t1" "result"
       (TaskScheduler.cancel_task (H := example_runtime) "t1"
          (world_with_task "pending" [])).2
     = Some (json_dumps (Runtime := example_runtime)
               (error_obj "Task cancelled by user")))
  ∧ TaskScheduler.cancel_task (H := example_runtime) "t1"
      (world_with_task "running" [("running_tasks", {["t1"]})])
    = (false, world_with_task "running" [("running_tasks", {["t1"]})]).
Proof.
  split.
  - apply (proj1 (cancel_task_pending_only (H := example_runtime)
                    (world_with_task "pending" []) "t1")).
    vm_compute. reflexivity.
  - apply (proj2 (cancel_task_pending_only (H := example_runtime)
                    (world_with_task "running" [("running_tasks", {["t1"]})]) "t1")).
    vm_compute. discriminate.
Defined.

(** C8, as stated, fails: a cancelled pending task is stored as failed,
    and a running task is not cancelled at all. *)
Lemma cancel_task_not_cancelled :
  ¬ (∀ (w : World) (task_id : string),
       (status_of task_id w = Some "pending" ∨ status_of task_id w = Some "queued"
        ∨ status_of task_id w = Some "running") →
       (TaskScheduler.cancel_task (H := example_runtime) task_id w).1 = true
       ∧ status_of task_id
           (TaskScheduler.cancel_task (H := example_runtime) task_id w).2
         = Some "cancelled").
Proof.
  intros Hclaim.
  destruct (Hclaim (world_with_task "pending" []) "t1") as [_ Hst].
  { left. by vm_compute. }
  vm_compute in Hst. discriminate Hst.
Qed.

(** ** The fleet registry *)

Section RegistryNodeProperties.
Context `{Runtime}.

Lemma register_node_spec (node : Node) (caps : string) (w : World) :
  dumps_capabilities (capabilities node) = Some caps →
  Registry.register_node node w
  = (true,
     {| redis :=
          Redis.expire (Registry.node_key (id node)) 86400
            (Redis.sadd "active_nodes" (id node)
               (Redis.hset (Registry.node_key (id node))
                  (Registry.node_data node caps (clock (ticks w))
                     (clock (S (ticks w))))
                  (redis w)));
        ticks := S (S (ticks w)) |}).
Proof.
  intros Hc. unfold Registry.register_node. unfold_monad. by rewrite Hc.
Qed.

Lemma get_node_spec (node_id : string) (w : World) :
  Registry.get_node node_id w
  = let h := Redis.hgetall (Registry.node_key node_id) (redis w) in
    if decide (h = ∅) then (None, w)
    else
      match fromisoformat (default "" (h !! "last_heartbeat")) with
      | None => (None, w)
      | Some last_heartbeat =>
          if bool_decide (seconds 30 < clock (ticks w) - last_heartbeat)%Z
          then (Some (<["status" := "offline"]> h),
                {| redis := Redis.hset1 (Registry.node_key node_id)
                              "status" "offline" (redis w);
                   ticks := S (ticks w) |})
          else (Some h, {| redis := redis w; ticks := S (ticks w) |})
      end.
Proof.
  unfold Registry.get_node. unfold_monad. cbn zeta.
  case_decide; [done|].
  destruct (fromisoformat _); [|done].
  simpl. by case_bool_decide.
Qed.

Lemma node_data_dom (node : Node) (caps : string) (a b : Z) :
  dom (Registry.node_data node caps a b)
  = list_to_set ["id"; "status"; "capabilities"; "last_heartbeat";
                 "registered_at"; "tasks_completed"; "tasks_failed"].
Proof. unfold Registry.node_data. by rewrite dom_list_to_map_L. Qed.

Lemma union_absorb (m1 m2 old : gmap string string) :
  dom m1 = dom m2 → m2 ∪ (m1 ∪ old) = m2 ∪ old.
Proof.
  intros Hdom. rewrite (assoc_L (∪)). f_equal.
  apply map_eq. intros k. rewrite lookup_union.
  destruct (m2 !! k) as [v|] eqn:H2; simpl.
  - by destruct (m1 !! k).
  - assert (m1 !! k = None) as ->; [|done].
    apply not_elem_of_dom. rewrite Hdom. by apply not_elem_of_dom.
Qed.

Lemma register_node_twice (node : Node) (caps : string) (w : World) :
  dumps_capabilities (capabilities node) = Some caps →
  redis (Registry.register_node node (Registry.register_node node w).2).2
  = redis (Registry.register_node node
             {| redis := redis w; ticks := S (S (ticks w)) |}).2.
Proof.
  intros Hc. rewrite !(register_node_spec _ _ _ Hc). cbn [snd redis ticks].
  set (m1 := Registry.node_data node caps (clock (ticks w)) (clock (S (ticks w)))).
  set (m2 := Registry.node_data node caps (clock (S (S (ticks w))))
               (clock (S (S (S (ticks w)))))).
  assert (dom m1 = dom m2) as Hdom by (unfold m1, m2; by rewrite !node_data_dom).
  clearbody m1 m2.
  unfold Redis.expire.
  assert (∀ m r, Redis.exists_ (Registry.node_key (id node))
                   (Redis.sadd "active_nodes" (id node)
                      (Redis.hset (Registry.node_key (id node)) m r)) = true)
    as Hex.
  { intros m r. unfold Redis.exists_, Redis.sadd, Redis.hset. cbn.
    apply bool_decide_eq_true. rewrite lookup_insert_eq. eauto. }
  rewrite !Hex.
  unfold Redis.sadd, Redis.hset, Redis.smembers, Redis.hgetall. cbn.
  rewrite !lookup_insert_eq. cbn. rewrite !insert_insert_eq.
  f_equal.
  - f_equal. by apply union_absorb.
  - f_equal. by rewrite (assoc_L (∪)), union_idemp_L.
Qed.

(** C9, as the code has it: when the capabilities of the node serialise,
    registration succeeds, and reading the node at once (the clock has
    moved by at most the 30 seconds of the liveness threshold) returns the
    record written: the id, the status the caller supplied (it is not set
    to online), the serialised capabilities, the heartbeat instant and the
    two counters at zero.  Registering the same node again overwrites all
    of it: the store after two registrations is the store after the later
    one alone. *)
Theorem register_then_get (node : Node) (caps : string) (w : World) :
  dumps_capabilities (capabilities node) = Some caps →
  fromisoformat (isoformat (clock (ticks w))) = Some (clock (ticks w)) →
  (clock (S (S (ticks w))) - clock (ticks w) ≤ seconds 30)%Z →
  (Registry.register_node node w).1 = true
  ∧ (∃ d w2,
       Registry.get_node (id node) (Registry.register_node node w).2 = (Some d, w2)
       ∧ d !! "id" = Some (id node)
       ∧ d !! "status" = Some (NodeStatus_value (status node))
       ∧ d !! "capabilities" = Some caps
       ∧ d !! "last_heartbeat" = Some (isoformat (clock (ticks w)))
       ∧ d !! "tasks_completed" = Some "0"
       ∧ d !! "tasks_failed" = Some "0")
  ∧ redis (Registry.register_node node (Registry.register_node node w).2).2
    = redis (Registry.register_node node
               {| redis := redis w; ticks := S (S (ticks w)) |}).2.
Proof.
  intros Hc Hiso Himm. split; [|split].
  - by rewrite (register_node_spec _ _ _ Hc).
  - rewrite (register_node_spec _ _ _ Hc). cbn [snd].
    rewrite get_node_spec. cbn [redis ticks].
    rewrite hgetall_expire, hgetall_sadd, hgetall_hset_eq. cbn zeta.
    set (old := Redis.hgetall (Registry.node_key (id node)) (redis w)).
    set (d := Registry.node_data node caps (clock (ticks w)) (clock (S (ticks w)))
              ∪ old).
    assert (d !! "id" = Some (id node)) as Hid.
    { apply lookup_union_Some_l. unfold Registry.node_data. by simplify_map_eq. }
    assert (d !! "last_heartbeat" = Some (isoformat (clock (ticks w)))) as Hhb.
    { apply lookup_union_Some_l. unfold Registry.node_data. by simplify_map_eq. }
    rewrite decide_False; last first.
    { intros He. rewrite He, lookup_empty in Hid. discriminate. }
    rewrite Hhb. cbn. rewrite Hiso.
    rewrite bool_decide_eq_false_2 by lia.
    eexists _, _. split; [reflexivity|].
    repeat split; try done;
      apply lookup_union_Some_l; unfold Registry.node_data; by simplify_map_eq.
  - by apply (register_node_twice node caps).
Qed.

End RegistryNodeProperties.

Lemma register_then_get_witness :
  (Registry.register_node (H := example_runtime) node_offline empty_world).1 = true
  ∧ (∃ d w2,
       Registry.get_node (H := example_runtime) "a"
         (Registry.register_node (H := example_runtime) node_offline empty_world).2
       = (Some d, w2)
       ∧ d !! "id" = Some "a"
       ∧ d !! "status" = Some "offline"
       ∧ d !! "capabilities" = Some "null"
       ∧ d !! "last_heartbeat" = Some "0"
       ∧ d !! "tasks_completed" = Some "0"
       ∧ d !! "tasks_failed" = Some "0")
  ∧ redis (Registry.register_node (H := example_runtime) node_offline
             (Registry.register_node (H := example_runtime)
                node_offline empty_world).2).2
    = redis (Registry.register_node (H := example_runtime) node_offline
               {| redis := Redis.empty; ticks := 2 |}).2.
Proof.
  apply (register_then_get (H := example_runtime) node_offline "null" empty_world).
  - reflexivity.
  - vm_compute. reflexivity.
  - vm_compute. discriminate.
Defined.

(** With [json.dumps] as the standard module has it, the node the
    registration route builds is not registered at all: serialising its
    capabilities object raises, and the store stays empty. *)
Example register_with_capabilities_fails :
  Registry.register_node (H := example_runtime) node_from_route empty_world
  = (false, empty_world)
  ∧ Registry.get_node (H := example_runtime) "a" empty_world = (None, empty_world).
Proof. split; reflexivity. Qed.

(** C9, as stated, fails: the status read back is the one the caller
    supplied, here offline, not online. *)
Lemma register_keeps_supplied_status :
  ¬ (∀ (node : Node) (w : World),
       (Registry.register_node (H := example_runtime) node w).1 = true
       ∧ ∃ d w2,
           Registry.get_node (H := example_runtime) (id node)
             (Registry.register_node (H := example_runtime) node w).2
           = (Some d, w2)
           ∧ d !! "status" = Some "online").
Proof.
  intros Hclaim.
  destruct (Hclaim node_offline empty_world) as (_ & d & w2 & Hget & Hst).
  vm_compute in Hget. injection Hget as <- _.
  vm_compute in Hst. discriminate Hst.
Qed.

(** ** Liveness of the nodes *)

Section LivenessProperties.
Context `{Runtime}.

Lemma same_nodes_refl w : same_nodes w w.
Proof. split; [lia|done]. Qed.

Lemma same_nodes_trans w1 w2 w3 : same_nodes w1 w2 → same_nodes w2 w3 → same_nodes w1 w3.
Proof.
  intros [Ht1 Hf1] [Ht2 Hf2]. split; [lia|].
  intros k f Hf. by rewrite Hf2, Hf1.
Qed.

Lemma get_node_same_nodes m w : same_nodes w (Registry.get_node m w).2.
Proof.
  rewrite get_node_spec. cbn zeta.
  case_decide; [apply same_nodes_refl|].
  destruct (fromisoformat _); [|apply same_nodes_refl].
  case_bool_decide; split; cbn; try lia; try done.
  intros k f Hf. unfold Redis.hset1.
  destruct (decide (Registry.node_key m = k)) as [<-|Hne].
  - rewrite hgetall_hset_eq. rewrite lookup_union_r; [done|].
    by rewrite lookup_singleton_ne.
  - by rewrite hgetall_hset_ne.
Qed.

Lemma srem_same_nodes k x w :
  same_nodes w {| redis := Redis.srem k x (redis w); ticks := ticks w |}.
Proof. split; cbn; [lia|]. intros. by rewrite hgetall_srem. Qed.

Lemma get_node_hidden n s t w0 m w d w' :
  Redis.hgetall (Registry.node_key n) (redis w0) !! "last_heartbeat" = Some s →
  fromisoformat s = Some t →
  (∀ k, ticks w0 ≤ k → (seconds 30 < clock k - t)%Z) →
  well_keyed w0 →
  same_nodes w0 w →
  Registry.get_node m w = (Some d, w') →
  hidden n d.
Proof.
  intros Hhb Ht Hstale Hwk [Hticks Hsame]. rewrite get_node_spec. cbn zeta.
  case_decide as Hne; [done|].
  destruct (decide (m = n)) as [->|Hmn].
  - rewrite Hsame, Hhb by done. cbn. rewrite Ht.
    rewrite bool_decide_eq_true_2 by (apply Hstale; lia).
    intros [= <- _]. right. by rewrite lookup_insert_eq.
  - assert (Redis.hgetall (Registry.node_key m) (redis w) !! "id" ≠ Some n) as Hid.
    { rewrite Hsame by done. intros Hi. apply Hwk in Hi. done. }
    destruct (fromisoformat (default "" _)); [|done].
    case_bool_decide; intros [= <- <-]; left.
    + by rewrite lookup_insert_ne.
    + done.
Qed.

Lemma get_all_nodes_loop_hidden n s t w0 ids :
  Redis.hgetall (Registry.node_key n) (redis w0) !! "last_heartbeat" = Some s →
  fromisoformat s = Some t →
  (∀ k, ticks w0 ≤ k → (seconds 30 < clock k - t)%Z) →
  well_keyed w0 →
  ∀ acc w, same_nodes w0 w → Forall (hidden n) acc →
  ∃ r w', Registry.get_all_nodes_loop ids acc w = (Ok r, w') ∧ Forall (hidden n) r.
Proof.
  intros Hhb Ht Hstale Hwk. induction ids as [|m ids IH]; intros acc w Hsame Hacc.
  - eexists _, _. split; [reflexivity|done].
  - cbn [Registry.get_all_nodes_loop]. unfold_monad.
    destruct (Registry.get_node m w) as [[d|] w1] eqn:Hget.
    + assert (same_nodes w0 w1) as Hsame1.
      { eapply same_nodes_trans; [done|].
        replace w1 with (Registry.get_node m w).2 by (by rewrite Hget).
        apply get_node_same_nodes. }
      case_decide.
      * apply IH; [|done].
        eapply same_nodes_trans; [done|]. apply srem_same_nodes.
      * apply IH; [done|]. apply Forall_app. split; [done|].
        apply Forall_singleton.
        by apply (get_node_hidden n s t w0 m w d w1).
    + apply IH; [|done].
      eapply same_nodes_trans; [|apply srem_same_nodes].
      eapply same_nodes_trans; [done|].
      replace w1 with (Registry.get_node m w).2 by (by rewrite Hget).
      apply get_node_same_nodes.
Qed.

Lemma available_nodes_loop_sub all :
  ∀ acc w r w',
    TaskScheduler.available_nodes_loop all acc w = (Ok r, w') →
    ∀ d, d ∈ r → d ∈ acc ∨ (d ∈ all ∧ d !! "status" = Some "online").
Proof.
  induction all as [|node all IH]; intros acc w r w'.
  - cbn. unfold_monad. intros [= <- _] d Hd. by left.
  - cbn [TaskScheduler.available_nodes_loop]. case_decide as Hon.
    + unfold_monad.
      destruct (Registry.get_tasks_by_status "running" w) as [r1 w1].
      destruct (Registry.get_tasks_by_status "running" w1) as [r2 w2].
      destruct (TaskScheduler.tasks_of_node node r2 w2) as [[nt|e] w3]; [|done].
      case_bool_decide; intros Hloop d Hd;
        destruct (IH _ _ _ _ Hloop d Hd) as [Hacc|[Hall Hst]].
      * apply elem_of_app in Hacc as [Hacc|Hnode%list_elem_of_singleton].
        -- by left.
        -- subst. right. split; [left|done].
      * right. split; [by right|done].
      * by left.
      * right. split; [by right|done].
    + intros Hloop d Hd.
      destruct (IH _ _ _ _ Hloop d Hd) as [Hacc|[Hall Hst]].
      * by left.
      * right. split; [by right|done].
Qed.

(** C6: a stored node whose last heartbeat is older than the 30 seconds of
    the liveness threshold when it is read is returned with status offline,
    whatever its stored status is, and it is not in the list of available
    nodes the scheduler works from.  ([well_keyed]: the record under
    [node:<id>] carries that id, as [register_node] writes it.) *)
Theorem stale_node_is_offline (w : World) (n s : string) (t : Z) :
  Redis.hgetall (Registry.node_key n) (redis w) !! "last_heartbeat" = Some s →
  fromisoformat s = Some t →
  (∀ k, ticks w ≤ k → (seconds 30 < clock k - t)%Z) →
  well_keyed w →
  (∃ d w', Registry.get_node n w = (Some d, w') ∧ d !! "status" = Some "offline")
  ∧ ∀ d, d ∈ (TaskScheduler._get_available_nodes w).1 → d !! "id" ≠ Some n.
Proof.
  intros Hhb Ht Hstale Hwk. split.
  - rewrite get_node_spec. cbn zeta.
    rewrite decide_False; last first.
    { intros He. by rewrite He, lookup_empty in Hhb. }
    rewrite Hhb. cbn. rewrite Ht.
    rewrite bool_decide_eq_true_2 by (apply Hstale; lia).
    eexists _, _. split; [reflexivity|]. by rewrite lookup_insert_eq.
  - unfold TaskScheduler._get_available_nodes, Registry.get_all_nodes.
    unfold_monad.
    destruct (get_all_nodes_loop_hidden n s t w
                (elements (Redis.smembers "active_nodes" (redis w)))
                Hhb Ht Hstale Hwk [] w (same_nodes_refl w) (Forall_nil_2 _))
      as (all & w1 & -> & Hall).
    destruct (TaskScheduler.available_nodes_loop all [] w1) as [[r|e] w2] eqn:Hloop;
      cbn; intros d Hd.
    + destruct (available_nodes_loop_sub _ _ _ _ _ Hloop d Hd) as [Hnil|[Hin Hon]].
      * by apply elem_of_nil in Hnil.
      * rewrite Forall_forall in Hall. destruct (Hall d Hin) as [Hid|Hoff]; [done|].
        rewrite Hoff in Hon. discriminate.
    + by apply elem_of_nil in Hd.
Qed.
End LivenessProperties.

Lemma world_stale_well_keyed : well_keyed world_stale.
Proof.
  intros m i. unfold Redis.hgetall.
  destruct (decide (Registry.node_key m = Registry.node_key "a")) as [Heq|Hne].
  - rewrite Heq. apply node_key_inj in Heq as ->.
    vm_compute. congruence.
  - replace (Redis.hashes (redis world_stale) !! Registry.node_key m)
      with (@None (gmap string string));
      [cbn; rewrite lookup_empty; discriminate|].
    symmetry. unfold world_stale.
    rewrite (register_node_spec (H := example_runtime) node_online "null")
      by reflexivity.
    cbn [snd redis]. rewrite hashes_expire, hashes_sadd.
    unfold Redis.hset. cbn [Redis.hashes].
    rewrite lookup_insert_ne by (intros Hk; by apply Hne).
    reflexivity.
Qed.

Lemma stale_node_is_offline_witness :
  Redis.hgetall (Registry.node_key "a") (redis world_stale) !! "status"
  = Some "online"
  ∧ (∃ d w', Registry.get_node (H := example_runtime) "a" world_stale = (Some d, w')
             ∧ d !! "status" = Some "offline")
  ∧ ∀ d, d ∈ (TaskScheduler._get_available_nodes (H := example_runtime)
                world_stale).1 → d !! "id" ≠ Some "a".
Proof.
  split; [by vm_compute|].
  apply (stale_node_is_offline (H := example_runtime) world_stale "a" "0" 0).
  - by vm_compute.
  - by vm_compute.
  - intros k Hk. unfold world_stale in Hk. cbn in Hk. cbn. unfold seconds. lia.
  - apply world_stale_well_keyed.
Defined.

Section WellKeyed.
Context `{Runtime}.

Lemma empty_world_well_keyed : well_keyed empty_world.
Proof. intros m i. unfold Redis.hgetall. cbn. rewrite !lookup_empty. cbn. by rewrite lookup_empty. Qed.

(** Registration keeps the node records under their own ids. *)
Lemma register_node_well_keyed (node : Node) (w : World) :
  well_keyed w → well_keyed (Registry.register_node node w).2.
Proof.
  intros Hwk.
  destruct (dumps_capabilities (capabilities node)) as [caps|] eqn:Hc.
  - rewrite (register_node_spec _ _ _ Hc). cbn [snd redis].
    intros m i. cbn [redis]. rewrite hgetall_expire, hgetall_sadd.
    destruct (decide (Registry.node_key (id node) = Registry.node_key m))
      as [Heq|Hne].
    + rewrite <- Heq, hgetall_hset_eq. apply node_key_inj in Heq as <-.
      rewrite (lookup_union_Some_l _ _ _ (id node)).
      * congruence.
      * unfold Registry.node_data. by simplify_map_eq.
    + rewrite hgetall_hset_ne by done. apply Hwk.
  - unfold Registry.register_node. unfold_monad. by rewrite Hc.
Qed.

(** Reading a node keeps them so, too. *)
Lemma get_node_well_keyed (node_id : string) (w : World) :
  well_keyed w → well_keyed (Registry.get_node node_id w).2.
Proof.
  intros Hwk m i.
  destruct (get_node_same_nodes node_id w) as [_ Hsame].
  rewrite Hsame by done. apply Hwk.
Qed.

(** A heartbeat rewrites [last_heartbeat] and [status] only. *)
Lemma update_node_heartbeat_well_keyed (node_id : string) (w : World) :
  well_keyed w → well_keyed (Registry.update_node_heartbeat node_id w).2.
Proof.
  intros Hwk. unfold Registry.update_node_heartbeat. unfold_monad.
  destruct (Redis.exists_ _ _); [|done]. cbn.
  intros m i. cbn [redis]. rewrite hgetall_expire.
  destruct (decide (Registry.node_key node_id = Registry.node_key m))
    as [Heq|Hne].
  - apply node_key_inj in Heq as <-.
    rewrite hgetall_hset_eq. rewrite lookup_union_r by (by simplify_map_eq).
    apply Hwk.
  - rewrite hgetall_hset_ne by done. apply Hwk.
Qed.

(** A task update touches a node record through its counters only. *)
Lemma update_task_status_well_keyed (task_id status : string)
    (node_id : option string) (result : option json) (w : World) :
  well_keyed w →
  well_keyed (Registry.update_task_status task_id status node_id result w).2.
Proof.
  intros Hwk m i.
  assert (Redis.hgetall (Registry.node_key m)
            (redis (Registry.update_task_status
                      task_id status node_id result w).2)
          !! "id"
          = Redis.hgetall (Registry.node_key m) (redis w) !! "id") as ->;
    [|apply Hwk].
  unfold Registry.update_task_status. unfold_monad.
  destruct (Redis.exists_ _ _); [|done]. cbn.
  repeat (case_decide || case_match); simpl in *; simplify_eq.
  all: cbn [redis].
  all: repeat first
         [ rewrite hgetall_sadd | rewrite hgetall_srem | rewrite hgetall_zrem
         | rewrite hgetall_hset_ne
             by (apply not_eq_sym; apply node_key_ne_task_key)
         | match goal with
           | Hinc : Redis.hincrby _ _ _ _ = Some ?t
             |- context [Redis.hgetall ?k ?t !! "id"] =>
               rewrite (hgetall_hincrby_field k _ _ "id" _ _ _ Hinc) by done
           end ].
  all: done.
Qed.

End WellKeyed.

(** ** The timeout check *)

Section TimeoutProperties.
Context `{Runtime}.

Lemma update_failed_spec (i : string) (nid : option string) (r : json) (w : World)
    (h : gmap string string) :
  Redis.hashes (redis w) !! Registry.task_key i = Some h →
  ∃ upd b r',
    Registry.update_task_status i "failed" nid (Some r) w
    = (b, {| redis := r'; ticks := S (ticks w) |})
    ∧ upd !! "status" = Some "failed"
    ∧ upd !! "result" = Some (json_dumps r)
    ∧ (r' = Redis.sadd "failed_tasks" i
              (Redis.srem "running_tasks" i
                 (Redis.hset (Registry.task_key i) upd (redis w)))
       ∨ ∃ n, Redis.hincrby (Registry.node_key n) "tasks_failed" 1
                (Redis.sadd "failed_tasks" i
                   (Redis.srem "running_tasks" i
                      (Redis.hset (Registry.task_key i) upd (redis w))))
              = Some r').
Proof.
  intros Hh. unfold Registry.update_task_status. unfold_monad.
  unfold Redis.exists_. rewrite Hh. rewrite bool_decide_eq_true_2 by eauto.
  cbn -[Redis.hincrby Redis.sadd Redis.srem Redis.hset].
  destruct (truthy_str nid) as [n|];
    repeat (rewrite decide_False by done); rewrite decide_True by done;
    cbn -[Redis.hincrby Redis.sadd Redis.srem Redis.hset].
  - destruct (Redis.hincrby _ _ _ _) as [r'|] eqn:Hinc.
    + match type of Hinc with
      | Redis.hincrby _ _ _
          (Redis.sadd _ _ (Redis.srem _ _ (Redis.hset _ ?g _))) = _ => exists g
      end.
      eexists _, _. split; [reflexivity|].
      split; [by simplify_map_eq|]. split; [by simplify_map_eq|].
      right. eauto.
    + match type of Hinc with
      | Redis.hincrby _ _ _
          (Redis.sadd _ _ (Redis.srem _ _ (Redis.hset _ ?g _))) = _ => exists g
      end.
      eexists _, _. split; [reflexivity|].
      split; [by simplify_map_eq|]. split; [by simplify_map_eq|].
      by left.
  - eexists (<["result":=json_dumps r]>
               (<["status":="failed"]>
                  (<["updated_at":=isoformat (clock (ticks w))]> ∅))), _, _.
    split; [reflexivity|].
    split; [by simplify_map_eq|]. split; [by simplify_map_eq|].
    by left.
Qed.
End TimeoutProperties.

Lemma smembers_hset k' k m r :
  Redis.smembers k' (Redis.hset k m r) = Redis.smembers k' r.
Proof. reflexivity. Qed.

Lemma moved_to_failed_running i r :
  Redis.smembers "running_tasks"
    (Redis.sadd "failed_tasks" i (Redis.srem "running_tasks" i r))
  = Redis.smembers "running_tasks" r ∖ {[i]}.
Proof.
  rewrite smembers_sadd, decide_False by done.
  by rewrite smembers_srem, decide_True by done.
Qed.

Lemma moved_to_failed_failed i r :
  Redis.smembers "failed_tasks"
    (Redis.sadd "failed_tasks" i (Redis.srem "running_tasks" i r))
  = {[i]} ∪ Redis.smembers "failed_tasks" r.
Proof.
  rewrite smembers_sadd, decide_True by done.
  by rewrite smembers_srem, decide_False by done.
Qed.

Section TimeoutEffect.
Context `{Runtime}.

Lemma update_task_status_absent (i status : string) (nid : option string)
    (r : option json) (w : World) :
  Redis.hashes (redis w) !! Registry.task_key i = None →
  Registry.update_task_status i status nid r w = (false, w).
Proof.
  intros Hnone. unfold Registry.update_task_status. unfold_monad.
  assert (Redis.exists_ (Registry.task_key i) (redis w) = false) as ->; [|done].
  unfold Redis.exists_. apply bool_decide_eq_false_2.
  rewrite Hnone. by intros [x Hx].
Qed.

Lemma update_failed_effect (i : string) (nid : option string) (r : json) (w : World) :
  let w' := (Registry.update_task_status i "failed" nid (Some r) w).2 in
  ticks w ≤ ticks w'
  ∧ (∀ j, stored j w → stored j w')
  ∧ (stored i w → timed_out i (json_dumps r) w')
  ∧ (∀ j, timed_out j (json_dumps r) w → timed_out j (json_dumps r) w').
Proof.
  cbn zeta.
  destruct (Redis.hashes (redis w) !! Registry.task_key i) as [h|] eqn:Hh.
  - destruct (update_failed_spec i nid r w h Hh)
      as (upd & b & r' & -> & Hst & Hres & Hr').
    cbn [snd ticks redis].
    set (base := Redis.sadd "failed_tasks" i
                   (Redis.srem "running_tasks" i
                      (Redis.hset (Registry.task_key i) upd (redis w)))) in *.
    assert (∀ j, Redis.hgetall (Registry.task_key j) r'
                 = Redis.hgetall (Registry.task_key j) base) as Hhash.
    { intros j. destruct Hr' as [->|[n Hinc]]; [done|].
      eapply hgetall_hincrby_ne; [done|]. apply node_key_ne_task_key. }
    assert (∀ k, Redis.smembers k r' = Redis.smembers k base) as Hsets.
    { intros k. destruct Hr' as [->|[n Hinc]]; [done|].
      unfold Redis.smembers. by rewrite (sets_hincrby _ _ _ _ _ Hinc). }
    assert (∀ j, is_Some (Redis.hashes base !! Registry.task_key j)
                 → is_Some (Redis.hashes r' !! Registry.task_key j)) as Hstored.
    { intros j. destruct Hr' as [->|[n Hinc]]; [done|].
      unfold Redis.hincrby in Hinc.
      destruct (match Redis.hgetall _ base !! _ with
                | Some s => Redis.Z_of_string s
                | None => Some 0%Z
                end); [|done].
      case_bool_decide; [|done]. injection Hinc as <-.
      unfold Redis.hset1, Redis.hset. cbn [Redis.hashes].
      rewrite lookup_insert_ne by apply node_key_ne_task_key. done. }
    assert (timed_out i (json_dumps r) {| redis := r'; ticks := S (ticks w) |})
      as Hi.
    { unfold timed_out, status_of, task_field. cbn [redis].
      rewrite !Hhash, !Hsets. unfold base.
      rewrite hgetall_sadd, hgetall_srem, hgetall_hset_eq.
      rewrite moved_to_failed_running, moved_to_failed_failed.
      split; [by apply lookup_union_Some_l|].
      split; [by apply lookup_union_Some_l|].
      split; set_solver. }
    split; [lia|]. split; [|split].
    + intros j Hj. unfold stored. cbn [redis]. apply Hstored.
      unfold base. rewrite hashes_sadd, hashes_srem.
      unfold Redis.hset. cbn [Redis.hashes].
      destruct (decide (Registry.task_key i = Registry.task_key j)) as [<-|Hne].
      * rewrite lookup_insert_eq. eauto.
      * by rewrite lookup_insert_ne.
    + done.
    + intros j Hj. destruct (decide (j = i)) as [->|Hji]; [done|].
      destruct Hj as (Hs & Hres' & Hrun & Hfail).
      unfold timed_out, status_of, task_field in *. cbn [redis].
      rewrite !Hhash, !Hsets. unfold base.
      rewrite hgetall_sadd, hgetall_srem.
      rewrite hgetall_hset_ne by (intros Hk%task_key_inj; done).
      rewrite moved_to_failed_running, moved_to_failed_failed, !smembers_hset.
      split; [done|]. split; [done|].
      split; set_solver.
  - rewrite update_task_status_absent by done. cbn [snd].
    split; [lia|]. split; [done|]. split; [|done].
    intros [x Hx]. unfold stored in *. congruence.
Qed.
End TimeoutEffect.

Section TimeoutLoop.
Context `{Runtime}.

Lemma decode_task_field (h : gmap string string) (k : string) :
  k ≠ "input_data" → k ≠ "result" →
  Registry.decode_task h !! k = JStr <$> h !! k.
Proof.
  intros Hi Hr. unfold Registry.decode_task.
  repeat case_match; rewrite ?lookup_insert_ne by done; by rewrite lookup_fmap.
Qed.

Lemma get_tasks_loop_spec (ids : list string) (acc : list (gmap string json))
    (w : World) :
  Registry.get_tasks_loop ids acc w
  = (Ok (acc ++ omap (λ m,
                        let h := Redis.hgetall (Registry.task_key m) (redis w) in
                        if decide (h = ∅) then None
                        else Some (Registry.decode_task h)) ids), w).
Proof.
  revert acc. induction ids as [|m ids IH]; intros acc.
  - cbn. unfold_monad. by rewrite app_nil_r.
  - cbn [Registry.get_tasks_loop omap list_omap]. unfold_monad.
    rewrite get_task_spec. cbn zeta.
    destruct (decide (Redis.hgetall (Registry.task_key m) (redis w) = ∅))
      as [He|He].
    + by rewrite IH.
    + rewrite decide_False by (intros Hz%decode_task_empty; done).
      rewrite IH. by rewrite <- app_assoc.
Qed.

Lemma check_running_loop_spec (task_id s0 : string) (c0 : Z) (d0 : gmap string json)
    (w0 : World) (L : list (gmap string json)) :
  d0 !! "created_at" = Some (JStr s0) →
  fromisoformat s0 = Some c0 →
  d0 !! "id" = Some (JStr task_id) →
  (∀ k, ticks w0 ≤ k → (seconds 300 < clock k - c0)%Z) →
  Forall checkable L →
  ∀ w, ticks w0 ≤ ticks w → stored task_id w →
  ∃ w', TaskScheduler.check_running_loop true L w = (Ok tt, w')
        ∧ (timed_out task_id (json_dumps (error_obj "Task timeout")) w
           ∨ d0 ∈ L
           → timed_out task_id (json_dumps (error_obj "Task timeout")) w').
Proof.
  intros Hc Hparse Hid Hstale. induction 1 as [|d L Hd HL IH]; intros w Ht Hst.
  - eexists. split; [reflexivity|]. intros [Hto|Hin]; [done|].
    by apply elem_of_nil in Hin.
  - destruct Hd as (s & c & i & Hds & Hdc & Hdi).
    cbn [TaskScheduler.check_running_loop negb]. unfold_monad.
    rewrite Hds. cbn. rewrite Hdc. cbn.
    case_bool_decide as Hold.
    + rewrite Hdi. cbn.
      set (w1 := {| redis := redis w; ticks := S (ticks w) |}).
      destruct (update_failed_effect i (d !! "node_id" ≫= as_str)
                  (error_obj "Task timeout") w1) as (Ht2 & Hst2 & Hi2 & Hj2).
      destruct (Registry.update_task_status i "failed" _ _ w1) as [b w2] eqn:Hu.
      cbn [snd] in *.
      destruct (IH w2) as (w' & -> & Hw').
      { cbn in Ht2. lia. }
      { by apply Hst2. }
      eexists. split; [reflexivity|].
      intros [Hto|Hin]; apply Hw'.
      * left. by apply Hj2.
      * apply elem_of_cons in Hin as [->|Hin]; [|by right].
        left. rewrite Hid in Hdi. injection Hdi as <-. by apply Hi2.
    + set (w1 := {| redis := redis w; ticks := S (ticks w) |}).
      destruct (IH w1) as (w' & -> & Hw').
      { cbn. lia. }
      { done. }
      eexists. split; [reflexivity|].
      intros [Hto|Hin]; apply Hw'.
      * by left.
      * apply elem_of_cons in Hin as [->|Hin]; [|by right].
        exfalso. apply Hold.
        rewrite Hc in Hds. injection Hds as <-.
        rewrite Hparse in Hdc. injection Hdc as <-.
        apply Hstale. lia.
Qed.
End TimeoutLoop.

Section TimeoutCheck.
Context `{Runtime}.

Lemma get_running_tasks_spec (w : World) :
  Registry.get_tasks_by_status "running" w
  = (omap (λ m,
             let h := Redis.hgetall (Registry.task_key m) (redis w) in
             if decide (h = ∅) then None else Some (Registry.decode_task h))
          (elements (Redis.smembers "running_tasks" (redis w))), w).
Proof.
  unfold Registry.get_tasks_by_status. unfold_monad.
  rewrite decide_False by done. rewrite decide_True by done.
  by rewrite get_tasks_loop_spec.
Qed.

(** C4, as the code has it: the limit is a fixed 300 seconds counted from
    [created_at].  For every task of the running set whose record carries
    its id and whose [created_at] age exceeds 300 seconds at every reading
    of the clock from the check on, the check (with the scheduler running,
    and every running record readable) stores the task as failed with the
    result [{"error": "Task timeout"}], takes it out of the running set,
    which is what the load of its node is counted from, and puts it into
    the failed set.  No report from the node is involved. *)
Theorem check_running_tasks_timeout (w : World) (task_id s : string) (c : Z) :
  task_id ∈ Redis.smembers "running_tasks" (redis w) →
  task_field task_id "id" w = Some task_id →
  task_field task_id "created_at" w = Some s →
  fromisoformat s = Some c →
  (∀ k, ticks w ≤ k → (seconds 300 < clock k - c)%Z) →
  (∀ m, m ∈ Redis.smembers "running_tasks" (redis w) →
        Redis.hgetall (Registry.task_key m) (redis w) ≠ ∅ →
        readable (Redis.hgetall (Registry.task_key m) (redis w))) →
  timed_out task_id (json_dumps (error_obj "Task timeout"))
    (TaskScheduler._check_running_tasks true w).2.
Proof.
  intros Hrun Hid Hcreated Hparse Hstale Hread.
  unfold TaskScheduler._check_running_tasks. unfold_monad.
  rewrite get_running_tasks_spec.
  set (read := λ m : string,
         let h := Redis.hgetall (Registry.task_key m) (redis w) in
         if decide (h = ∅) then None else Some (Registry.decode_task h)).
  set (L := omap read (elements (Redis.smembers "running_tasks" (redis w)))).
  set (h0 := Redis.hgetall (Registry.task_key task_id) (redis w)).
  assert (h0 ≠ ∅) as Hne.
  { intros He. unfold task_field in Hid. fold h0 in Hid.
    by rewrite He, lookup_empty in Hid. }
  assert (Forall checkable L) as Hall.
  { apply Forall_forall. intros d Hd.
    apply list_elem_of_omap in Hd as (m & Hm & Hdm).
    unfold read in Hdm. cbn zeta in Hdm. case_decide as Hem; [done|].
    injection Hdm as <-.
    destruct (Hread m) as [(sm & cm & Hsm & Hcm) [im Him]]; [set_solver|done|].
    exists sm, cm, im. rewrite !decode_task_field by done.
    rewrite Hsm, Him. done. }
  assert (Registry.decode_task h0 ∈ L) as Hin.
  { apply list_elem_of_omap. exists task_id. split; [set_solver|].
    unfold read. cbn zeta. fold h0. by rewrite decide_False. }
  assert (stored task_id w) as Hst.
  { unfold stored. unfold h0, Redis.hgetall in Hne.
    destruct (Redis.hashes (redis w) !! Registry.task_key task_id); [eauto|done]. }
  destruct (check_running_loop_spec task_id s c (Registry.decode_task h0) w L)
    with (w := w) as (w' & -> & Hw'); try done.
  - rewrite decode_task_field by done. unfold task_field in Hcreated.
    fold h0 in Hcreated. by rewrite Hcreated.
  - rewrite decode_task_field by done. unfold task_field in Hid.
    fold h0 in Hid. by rewrite Hid.
  - cbn. apply Hw'. by right.
Qed.
End TimeoutCheck.

Lemma check_running_tasks_timeout_witness :
  status_of "t1" (world_running 400) = Some "running"
  ∧ timed_out "t1" (json_dumps (Runtime := example_runtime) (error_obj "Task timeout"))
      (TaskScheduler._check_running_tasks (H := example_runtime) true
         (world_running 400)).2.
Proof.
  split; [by vm_compute|].
  apply (check_running_tasks_timeout (H := example_runtime)
           (world_running 400) "t1" "0" 0).
  - unfold Redis.smembers, world_running. cbn.
    rewrite lookup_singleton_eq. cbn. set_solver.
  - by vm_compute.
  - by vm_compute.
  - by vm_compute.
  - intros k Hk. cbn in *. unfold seconds. lia.
  - intros m Hm _.
    assert (m = "t1") as ->.
    { unfold Redis.smembers, world_running in Hm. cbn in Hm.
      rewrite lookup_singleton_eq in Hm. cbn in Hm. set_solver. }
    split; [exists "0", 0%Z; by vm_compute|]. exists "t1". by vm_compute.
Defined.

(** C4, as stated, fails: a task running for 100 seconds whose own limit is
    30 seconds is left running. *)
Lemma timeout_ignores_own_duration :
  ¬ (∀ (w : World) (task_id : string) (started duration : Z),
       task_id ∈ Redis.smembers "running_tasks" (redis w) →
       task_field task_id "started_at" w
         ≫= fromisoformat (Runtime := example_runtime) = Some started →
       task_field task_id "timeout_seconds" w ≫= Redis.Z_of_string = Some duration →
       (seconds duration < clock (Runtime := example_runtime) (ticks w) - started)%Z →
       status_of task_id
         (TaskScheduler._check_running_tasks (H := example_runtime) true w).2
       = Some "failed").
Proof.
  intros Hclaim.
  specialize (Hclaim (world_running 100) "t1" 0%Z 30%Z).
  assert (status_of "t1"
            (TaskScheduler._check_running_tasks (H := example_runtime) true
               (world_running 100)).2 = Some "failed") as Hst.
  { apply Hclaim.
    - unfold Redis.smembers, world_running. cbn.
    rewrite lookup_singleton_eq. cbn. set_solver.
    - by vm_compute.
    - by vm_compute.
    - by vm_compute. }
  vm_compute in Hst. discriminate Hst.
Qed.

(** ** The GPU-aware scheduler: capacity *)

Section CapacityProperties.
Import Base.
Context `{Runtime} `{Fleet}.

Lemma insert_sorted_elem {A} (lt : A → A → bool) (x y : A) (l : list A) :
  y ∈ insert_sorted lt x l ↔ y = x ∨ y ∈ l.
Proof.
  induction l as [|z l IH]; cbn.
  - rewrite list_elem_of_singleton. set_solver.
  - destruct (lt x z).
    + set_solver.
    + rewrite !elem_of_cons, IH. tauto.
Qed.

Lemma py_sort_elem {A} (lt : A → A → bool) (y : A) (l : list A) :
  y ∈ py_sort lt l ↔ y ∈ l.
Proof.
  unfold py_sort.
  assert (∀ acc, y ∈ foldl (λ acc x, insert_sorted lt x acc) acc l ↔ y ∈ acc ∨ y ∈ l)
    as Hgen.
  { induction l as [|x l IH]; intros acc; cbn.
    - set_solver.
    - rewrite IH, insert_sorted_elem. set_solver. }
  rewrite Hgen. set_solver.
Qed.

Lemma py_sort_reverse_elem {A} (lt : A → A → bool) (y : A) (l : list A) :
  y ∈ py_sort_reverse lt l ↔ y ∈ l.
Proof.
  unfold py_sort_reverse. by rewrite elem_of_reverse, py_sort_elem, elem_of_reverse.
Qed.

Lemma score_nodes_fst s task nodes l :
  GPUScheduler.score_nodes s task nodes = Some l → l.*1 = nodes.
Proof.
  revert l. induction nodes as [|i nodes IH]; intros l; cbn.
  - by intros [= <-].
  - destruct (GPUScheduler.registry s !! i); cbn; [|done].
    destruct (GPUScheduler._calculate_node_score _ _); cbn; [|done].
    destruct (GPUScheduler.score_nodes s task nodes); cbn; [|done].
    intros [= <-]. cbn. by rewrite IH.
Qed.




Lemma capacity_ok_insert s i node node' :
  capacity_ok s →
  GPUScheduler.registry s !! i = Some node →
  within_capacity node' →
  Forall within_capacity (<[i := node']> (GPUScheduler.registry s)).
Proof.
  intros Hok Hi Hn. apply Forall_insert; done.
Qed.







End CapacityProperties.



Section CapacityExamples.
Import Base.


(** Three tasks for a node with two slots: two of them run, the third
    waits in the queue until one completes. *)
Example three_tasks_two_slots :
  let s0 := example_scheduler [example_node "A" false 0 2]
              [example_task "t1" NORMAL 0 false;
               example_task "t2" NORMAL 1 false;
               example_task "t3" NORMAL 2 false] [] in
  let s1 := run (H := example_runtime) (H0 := example_fleet)
              [Submit 0; Submit 1; Submit 2; Tick] s0 in
  let s2 := run (H := example_runtime) (H0 := example_fleet)
              [Complete "t1" None None; Tick] s1 in
  (GPUScheduler.task_queue s1 = [2]
   ∧ current_tasks <$> GPUScheduler.registry s1 = [2%Z]
   ∧ dom (GPUScheduler.running_tasks s1) = {["t1"; "t2"]})
  ∧ (GPUScheduler.task_queue s2 = []
     ∧ current_tasks <$> GPUScheduler.registry s2 = [2%Z]
     ∧ dom (GPUScheduler.running_tasks s2) = {["t2"; "t3"]}).
Proof. by vm_compute. Qed.

End CapacityExamples.

(** ** The GPU-aware scheduler: order of the queue *)

Section SortProperties.
Context {A : Type} (lt : A → A → bool).
Hypothesis lt_asym : ∀ a b, lt a b = true → lt b a = false.

Lemma insert_sorted_hd (x : A) (l : list A) (y : A) :
  HdRel (not_after lt) y l → (not_after lt) y x → HdRel (not_after lt) y (insert_sorted lt x l).
Proof.
  intros Hl Hx. destruct l as [|z l]; cbn.
  - by constructor.
  - destruct (lt x z); constructor; [done|]. by inversion Hl.
Qed.

Lemma insert_sorted_Sorted (x : A) (l : list A) :
  Sorted (not_after lt) l → Sorted (not_after lt) (insert_sorted lt x l).
Proof.
  induction 1 as [|y l Hl IH Hhd]; cbn.
  - by repeat constructor.
  - destruct (lt x y) eqn:Hxy.
    + constructor; [by constructor|]. constructor. by apply lt_asym.
    + constructor; [done|]. by apply insert_sorted_hd.
Qed.

Lemma py_sort_Sorted (l : list A) : Sorted (not_after lt) (py_sort lt l).
Proof.
  unfold py_sort.
  assert (∀ acc, Sorted (not_after lt) acc →
                 Sorted (not_after lt) (foldl (λ acc x, insert_sorted lt x acc) acc l))
    as Hgen.
  { induction l as [|x l IH]; intros acc Hacc; cbn; [done|].
    apply IH. by apply insert_sorted_Sorted. }
  apply Hgen. constructor.
Qed.

Lemma insert_sorted_perm (x : A) (l : list A) : insert_sorted lt x l ≡ₚ x :: l.
Proof.
  induction l as [|y l IH]; cbn; [done|].
  destruct (lt x y); [done|]. rewrite IH. apply Permutation_swap.
Qed.

Lemma py_sort_perm (l : list A) : py_sort lt l ≡ₚ l.
Proof.
  unfold py_sort.
  assert (∀ acc, foldl (λ acc x, insert_sorted lt x acc) acc l ≡ₚ acc ++ l) as Hgen.
  { induction l as [|x l IH]; intros acc; cbn.
    - by rewrite app_nil_r.
    - rewrite IH, insert_sorted_perm. cbn. apply Permutation_middle. }
  by rewrite Hgen.
Qed.
End SortProperties.

Lemma tuple_lt_asym (a b : string * Z) : tuple_lt a b = true → tuple_lt b a = false.
Proof.
  unfold tuple_lt. destruct a as [s1 z1], b as [s2 z2]. cbn.
  destruct (String.eqb s1 s2) eqn:Heq.
  - apply String.eqb_eq in Heq as ->. rewrite String.eqb_refl. lia.
  - rewrite String.eqb_sym, Heq. unfold String.ltb.
    rewrite (String.compare_antisym s1 s2).
    destruct (String.compare s2 s1); cbn; congruence.
Qed.

Section QueueOrder.
Context `{Runtime} `{Fleet}.

(** What the sort of the queue does: the queue is permuted into ascending
    order of the pair (text of the priority, creation instant). *)
Lemma sort_queue_ascending (s : GPUScheduler.t) :
  GPUScheduler.sort_queue s ≡ₚ GPUScheduler.task_queue s
  ∧ Sorted (λ a b, tuple_lt (GPUScheduler.sort_key s b) (GPUScheduler.sort_key s a)
                   = false)
      (GPUScheduler.sort_queue s).
Proof.
  unfold GPUScheduler.sort_queue. split.
  - apply py_sort_perm.
  - apply (py_sort_Sorted
             (λ a b, tuple_lt (GPUScheduler.sort_key s a) (GPUScheduler.sort_key s b))).
    intros a b. apply tuple_lt_asym.
Qed.
End QueueOrder.

Section OrderExamples.
Import Base.

(** C3 fails on the code: the queue is sorted on the text of the priority
    ([high] < [low] < [normal] < [urgent]), in ascending order.  With an
    urgent task, created first, and a low one in the queue, the round
    attempts the low task first; on a node with one free slot it is the
    low task that runs and the urgent one that waits. *)
Theorem low_priority_attempted_before_urgent :
  let s := example_scheduler [example_node "A" false 0 1]
             [example_task "urgent" URGENT 0 false;
              example_task "low" LOW 1 false] [0; 1] in
  GPUScheduler.sort_queue s = [1; 0]
  ∧ GPUScheduler.task_queue
      (GPUScheduler.process_tick (H := example_runtime) (H0 := example_fleet) s).2
    = [0]
  ∧ dom (GPUScheduler.running_tasks
           (GPUScheduler.process_tick (H := example_runtime)
              (H0 := example_fleet) s).2)
    = {["low"]}.
Proof. by vm_compute. Qed.

End OrderExamples.

(** ** The GPU-aware scheduler: submission *)

Section SubmitProperties.
Import Base.
Context `{Runtime} `{Fleet}.

Lemma find_suitable_nodes_nil req s :
  GPUScheduler._find_suitable_nodes req s = []
  ↔ ∀ i node, GPUScheduler.registry s !! i = Some node →
               is_active node = true →
               GPUScheduler._node_meets_requirements node req = false.
Proof.
  unfold GPUScheduler._find_suitable_nodes, GPUScheduler.get_active_nodes.
  split.
  - intros Hnil i node Hi Hact.
    destruct (GPUScheduler._node_meets_requirements node req) eqn:Hm; [|done].
    exfalso. eapply (not_elem_of_nil i). rewrite <- Hnil.
    apply list_elem_of_filter. split; [by rewrite Hi|].
    apply list_elem_of_filter. split.
    + unfold GPUScheduler.active_at. by rewrite Hi.
    + apply elem_of_seq. apply lookup_lt_Some in Hi. lia.
  - intros Hall. apply elem_of_nil_inv. intros i Hin.
    apply list_elem_of_filter in Hin as [Hm Hin].
    apply list_elem_of_filter in Hin as [Hact _].
    unfold GPUScheduler.active_at in Hact.
    destruct (GPUScheduler.registry s !! i) as [node|] eqn:Hi; [|done].
    by rewrite (Hall i node Hi Hact) in Hm.
Qed.

(** C2, as the code has it: submission is rejected exactly when no active
    registered node passes the whole hard filter, the load check
    [current_tasks < max_concurrent_tasks] included.  A rejected task is
    marked failed with the error [No suitable nodes available] and does not
    enter the queue; an accepted one is appended to it.  In particular a
    task that requires a GPU is rejected when no registered node has one. *)
Theorem submit_task_feasibility (s : GPUScheduler.t) (task : nat)
    (task_obj : InferenceTask) :
  GPUScheduler.tasks s !! task = Some task_obj →
  ((GPUScheduler.submit_task task s).1 = false
   ↔ ∀ i node, GPUScheduler.registry s !! i = Some node →
                is_active node = true →
                GPUScheduler._node_meets_requirements node (requirements task_obj)
                = false)
  ∧ ((GPUScheduler.submit_task task s).1 = false →
     GPUScheduler.task_queue (GPUScheduler.submit_task task s).2
     = GPUScheduler.task_queue s
     ∧ GPUScheduler.tasks (GPUScheduler.submit_task task s).2 !! task
       = Some (task_failed task_obj "No suitable nodes available"))
  ∧ ((GPUScheduler.submit_task task s).1 = true →
     GPUScheduler.task_queue (GPUScheduler.submit_task task s).2
     = GPUScheduler.task_queue s ++ [task])
  ∧ (requires_gpu (requirements task_obj) = true →
     (∀ node, node ∈ GPUScheduler.registry s →
              has_gpu (compute_resources node) = false) →
     (GPUScheduler.submit_task task s).1 = false).
Proof.
  intros Htask.
  assert (GPUScheduler.submit_task task s
          = if bool_decide (GPUScheduler._find_suitable_nodes (requirements task_obj) s
                            = [])
            then (false,
                  GPUScheduler.with_tasks s
                    (<[task := task_failed task_obj "No suitable nodes available"]>
                       (GPUScheduler.tasks s)))
            else (true,
                  GPUScheduler.with_task_queue s (GPUScheduler.task_queue s ++ [task])))
    as Hsub.
  { unfold GPUScheduler.submit_task. unfold_monad. rewrite Htask. unfold_monad.
    by case_bool_decide. }
  rewrite Hsub. clear Hsub.
  split; [|split; [|split]].
  - rewrite <- find_suitable_nodes_nil. by case_bool_decide.
  - case_bool_decide; [|done]. intros _. cbn. split; [done|].
    apply list_lookup_insert_eq. by eapply lookup_lt_Some.
  - by case_bool_decide.
  - intros Hgpu Hnone.
    rewrite bool_decide_eq_true_2; [done|].
    apply find_suitable_nodes_nil. intros i node Hi _.
    unfold GPUScheduler._node_meets_requirements.
    rewrite Hgpu, (Hnone node) by (by eapply list_elem_of_lookup_2). done.
Qed.
End SubmitProperties.

Section SubmitPropertiesExamples.
Import Base.

Lemma submit_task_feasibility_witness :
  (GPUScheduler.submit_task (H := example_runtime) (H0 := example_fleet) 0
     (example_scheduler [example_node "A" false 0 2]
        [example_task "t1" NORMAL 0 true] [])).1 = false
  ∧ GPUScheduler.task_queue
      (GPUScheduler.submit_task (H := example_runtime) (H0 := example_fleet) 0
         (example_scheduler [example_node "A" false 0 2]
            [example_task "t1" NORMAL 0 true] [])).2 = [].
Proof.
  destruct (submit_task_feasibility (H := example_runtime) (H0 := example_fleet)
              (example_scheduler [example_node "A" false 0 2]
                 [example_task "t1" NORMAL 0 true] [])
              0 (example_task "t1" NORMAL 0 true) eq_refl)
    as (_ & Hrejected & _ & Hgpu).
  assert ((GPUScheduler.submit_task (H := example_runtime) (H0 := example_fleet) 0
             (example_scheduler [example_node "A" false 0 2]
                [example_task "t1" NORMAL 0 true] [])).1 = false) as Hfalse.
  { apply Hgpu; [reflexivity|].
    intros node Hin. apply list_elem_of_singleton in Hin as ->. reflexivity. }
  split; [exact Hfalse|]. by apply Hrejected.
Defined.

(** C2, as stated, fails: with one GPU node that is full, a GPU task is
    rejected although the node satisfies every constraint that does not
    depend on its load. *)
Lemma submit_rejects_on_load :
  ¬ (∀ (s : GPUScheduler.t) (task : nat) (task_obj : InferenceTask),
       GPUScheduler.tasks s !! task = Some task_obj →
       ((GPUScheduler.submit_task (H := example_runtime) (H0 := example_fleet)
           task s).1 = false
        ↔ ∀ node, node ∈ GPUScheduler.registry s →
                  satisfies_hard_constraints (H := example_runtime)
                    node (requirements task_obj) = false)).
Proof.
  intros Hclaim.
  specialize (Hclaim (example_scheduler [example_node "G" true 1 1]
                        [example_task "t1" NORMAL 0 true] [])
                0 (example_task "t1" NORMAL 0 true) eq_refl).
  destruct Hclaim as [Hsat _].
  assert (satisfies_hard_constraints (H := example_runtime)
            (example_node "G" true 1 1)
            (requirements (example_task "t1" NORMAL 0 true)) = false) as Hno.
  { apply Hsat; [by vm_compute|]. by left. }
  vm_compute in Hno. discriminate Hno.
Qed.

End SubmitPropertiesExamples.

(** ** The peer handoff *)

Section HandoffProperties.
Import P2PHandoff.
Context `{Runtime} `{Network} `{Validation}.

Lemma extends_refl s : extends s s.
Proof. by split. Qed.


Lemma post_spec o s :
  post o s
  = if http_session s
    then (post_outcome (length (sent s)) o, record_sent s o)
    else (Raised "'NoneType' object has no attribute 'post'", s).
Proof.
  unfold post, post_outcome, record_sent. destruct (http_session s); [|done].
  by destruct (http_post _ _).
Qed.







Lemma completed_response_spec hid r m s :
  completed_response hid r m s
  = match validate_optional_dict r with
    | Ok v =>
        (Ok {| resp_handoff_id := hid; resp_status := COMPLETED;
               resp_result := v; resp_error := None; resp_metrics := m |}, s)
    | Raised e => (Raised e, s)
    end.
Proof.
  unfold completed_response. unfold_monad.
  by destruct (validate_optional_dict r).
Qed.






End HandoffProperties.

Section HandoffPropertiesExamples.
Import P2PHandoff.



End HandoffPropertiesExamples.

(** ** The fleet registry: heartbeat, removal and listing *)

Lemma hgetall_delete_eq k r : Redis.hgetall k (Redis.delete k r) = ∅.
Proof. unfold Redis.hgetall, Redis.delete. cbn. by rewrite lookup_delete_eq. Qed.

Lemma hgetall_delete_ne k' k r :
  k ≠ k' → Redis.hgetall k' (Redis.delete k r) = Redis.hgetall k' r.
Proof.
  intros. unfold Redis.hgetall, Redis.delete. cbn. by rewrite lookup_delete_ne.
Qed.

Lemma smembers_delete k' k r :
  Redis.smembers k' (Redis.delete k r) = Redis.smembers k' r.
Proof. reflexivity. Qed.

Section NodeProperties.
Context `{Runtime}.

(** X1.  A heartbeat for a registered node returns [True] and brings the
    node back online: a [get_node] that follows within 30 seconds returns
    the record with status online, the instant of the heartbeat as
    [last_heartbeat], and every other field as it was. *)
Theorem heartbeat_revives (node_id : string) (w : World) :
  Redis.exists_ (Registry.node_key node_id) (redis w) = true →
  fromisoformat (isoformat (clock (ticks w))) = Some (clock (ticks w)) →
  (clock (S (ticks w)) - clock (ticks w) ≤ seconds 30)%Z →
  (Registry.update_node_heartbeat node_id w).1 = true
  ∧ ∃ d w2,
      Registry.get_node node_id (Registry.update_node_heartbeat node_id w).2
      = (Some d, w2)
      ∧ d !! "status" = Some "online"
      ∧ d !! "last_heartbeat" = Some (isoformat (clock (ticks w)))
      ∧ ∀ f, f ≠ "status" → f ≠ "last_heartbeat" →
             d !! f = Redis.hgetall (Registry.node_key node_id) (redis w) !! f.
Proof.
  intros Hex Hiso Hnear.
  assert (Registry.update_node_heartbeat node_id w
          = (true,
             {| redis :=
                  Redis.expire (Registry.node_key node_id) 86400
                    (Redis.hset (Registry.node_key node_id)
                       (list_to_map [("last_heartbeat", isoformat (clock (ticks w)));
                                     ("status", "online")])
                       (redis w));
                ticks := S (ticks w) |})) as ->.
  { unfold Registry.update_node_heartbeat. unfold_monad. by rewrite Hex. }
  split; [done|]. cbn [snd].
  rewrite get_node_spec. cbn [redis ticks].
  rewrite hgetall_expire, hgetall_hset_eq. cbn zeta.
  set (old := Redis.hgetall (Registry.node_key node_id) (redis w)).
  set (d := _ ∪ old).
  assert (d !! "last_heartbeat" = Some (isoformat (clock (ticks w)))) as Hhb.
  { apply lookup_union_Some_l. by simplify_map_eq. }
  assert (d !! "status" = Some "online") as Hst.
  { apply lookup_union_Some_l. by simplify_map_eq. }
  rewrite decide_False; last first.
  { intros He. rewrite He, lookup_empty in Hst. discriminate. }
  rewrite Hhb. cbn. rewrite Hiso.
  rewrite bool_decide_eq_false_2 by lia.
  eexists _, _. split; [reflexivity|].
  split; [done|]. split; [done|].
  intros f Hf1 Hf2. unfold d. rewrite lookup_union_r; [done|].
  by simplify_map_eq.
Qed.

(** X2.  [remove_node] returns [True] for every id, known or not.  After
    it the node cannot be read and is out of the active set; the records
    and the membership of every other node are as before. *)
Theorem remove_node_forgets (node_id : string) (w : World) :
  (Registry.remove_node node_id w).1 = true
  ∧ Registry.get_node node_id (Registry.remove_node node_id w).2
    = (None, (Registry.remove_node node_id w).2)
  ∧ (node_id ∉ Redis.smembers "active_nodes"
                 (redis (Registry.remove_node node_id w).2))
  ∧ (∀ m, m ≠ node_id →
       Redis.hgetall (Registry.node_key m)
         (redis (Registry.remove_node node_id w).2)
       = Redis.hgetall (Registry.node_key m) (redis w))
  ∧ (∀ m, m ≠ node_id →
       m ∈ Redis.smembers "active_nodes"
             (redis (Registry.remove_node node_id w).2)
       ↔ m ∈ Redis.smembers "active_nodes" (redis w)).
Proof.
  unfold Registry.remove_node. unfold_monad. cbn [fst snd].
  split; [done|]. split; [|split; [|split]].
  - rewrite get_node_spec. cbn [redis]. rewrite hgetall_delete_eq. cbn zeta.
    by rewrite decide_True.
  - cbn [redis]. rewrite smembers_delete, smembers_srem, decide_True by done.
    set_solver.
  - intros m Hm. cbn [redis].
    rewrite hgetall_delete_ne by (intros Hk%node_key_inj; done).
    by rewrite hgetall_srem.
  - intros m Hm. cbn [redis].
    rewrite smembers_delete, smembers_srem, decide_True by done. set_solver.
Qed.

Lemma get_node_other (m : string) (w : World) (k : string) :
  k ≠ Registry.node_key m →
  Redis.hgetall k (redis (Registry.get_node m w).2) = Redis.hgetall k (redis w).
Proof.
  intros Hk. rewrite get_node_spec. cbn zeta.
  case_decide; [done|].
  destruct (fromisoformat _); [|done].
  case_bool_decide; cbn; [|done].
  unfold Redis.hset1. by rewrite hgetall_hset_ne.
Qed.

Lemma get_node_smembers (m : string) (w : World) (k : string) :
  Redis.smembers k (redis (Registry.get_node m w).2) = Redis.smembers k (redis w).
Proof.
  rewrite get_node_spec. cbn zeta.
  case_decide; [done|].
  destruct (fromisoformat _); [|done].
  by case_bool_decide.
Qed.

Lemma get_node_readable (m : string) (w : World) :
  match (Registry.get_node m w).1 with
  | Some d => d ≠ ∅ ∧ node_readable (Redis.hgetall (Registry.node_key m) (redis w))
  | None => ¬ node_readable (Redis.hgetall (Registry.node_key m) (redis w))
  end.
Proof.
  rewrite get_node_spec. cbn zeta. unfold node_readable.
  case_decide as He; cbn; [tauto|].
  destruct (fromisoformat _) eqn:Hf; cbn.
  - case_bool_decide; cbn; (split; [|eauto]); [|done].
    intros Hz. apply (f_equal (λ m, m !! "status")) in Hz.
    by rewrite lookup_insert_eq, lookup_empty in Hz.
  - intros [_ [x Hx]]. discriminate.
Qed.

Lemma get_all_nodes_loop_prunes (w0 : World) (ids : list string) :
  NoDup ids →
  ∀ acc w,
    (∀ m, m ∈ ids →
       Redis.hgetall (Registry.node_key m) (redis w)
       = Redis.hgetall (Registry.node_key m) (redis w0)) →
    ∃ r w',
      Registry.get_all_nodes_loop ids acc w = (Ok r, w')
      ∧ Redis.smembers "active_nodes" (redis w')
        = Redis.smembers "active_nodes" (redis w)
            ∖ list_to_set
                (filter (λ m, ¬ node_readable
                                  (Redis.hgetall (Registry.node_key m) (redis w0)))
                   ids)
      ∧ length r
        = (length acc
           + length (filter (λ m, node_readable
                                    (Redis.hgetall (Registry.node_key m) (redis w0)))
                       ids))%nat.
Proof.
  induction 1 as [|m ids Hm Hnd IH]; intros acc w Hsame.
  - eexists _, _. split; [reflexivity|]. cbn. split; [set_solver|lia].
  - cbn [Registry.get_all_nodes_loop]. unfold_monad.
    pose proof (get_node_readable m w) as Hread.
    pose proof (get_node_smembers m w "active_nodes") as Hsets.
    assert (∀ m', m' ∈ ids →
              Redis.hgetall (Registry.node_key m') (redis (Registry.get_node m w).2)
              = Redis.hgetall (Registry.node_key m') (redis w0)) as Hsame1.
    { intros m' Hm'. rewrite get_node_other.
      - apply Hsame. by right.
      - intros Hk%node_key_inj. by subst. }
    rewrite (Hsame m) in Hread by left.
    destruct (Registry.get_node m w) as [[d|] w1]; cbn [fst snd] in *.
    + destruct Hread as [Hd Hr]. rewrite decide_False by done.
      destruct (IH (acc ++ [d]) w1 Hsame1) as (r & w' & -> & Hact & Hlen).
      eexists _, _. split; [reflexivity|].
      rewrite !filter_cons. rewrite decide_False by tauto.
      rewrite decide_True by done.
      split.
      * by rewrite Hact, Hsets.
      * rewrite Hlen, length_app. cbn. lia.
    + destruct (IH acc {| redis := Redis.srem "active_nodes" m (redis w1);
                          ticks := ticks w1 |}) as (r & w' & -> & Hact & Hlen).
      { intros m' Hm'. cbn [redis]. rewrite hgetall_srem. by apply Hsame1. }
      eexists _, _. split; [reflexivity|].
      rewrite !filter_cons. rewrite decide_True by done.
      rewrite decide_False by done.
      split; [|done].
      rewrite Hact. cbn [redis]. rewrite smembers_srem, decide_True by done.
      rewrite Hsets. cbn. set_solver.
Qed.

Lemma get_all_nodes_readable (w : World) :
  let readable_ids :=
    filter (λ m, node_readable (Redis.hgetall (Registry.node_key m) (redis w)))
      (elements (Redis.smembers "active_nodes" (redis w))) in
  Redis.smembers "active_nodes" (redis (Registry.get_all_nodes w).2)
  = list_to_set readable_ids
  ∧ length (Registry.get_all_nodes w).1 = length readable_ids.
Proof.
  cbn zeta. unfold Registry.get_all_nodes. unfold_monad.
  set (S := Redis.smembers "active_nodes" (redis w)).
  destruct (get_all_nodes_loop_prunes w (elements S) (NoDup_elements S) [] w)
    as (r & w' & -> & Hact & Hlen); [done|].
  cbn [fst snd]. split; [|done].
  rewrite Hact. fold S. apply set_eq. intros m.
  rewrite elem_of_difference, !elem_of_list_to_set, !list_elem_of_filter,
    elem_of_elements.
  destruct (decide (node_readable
                      (Redis.hgetall (Registry.node_key m) (redis w)))); tauto.
Qed.

(** X3.  [get_all_nodes] prunes the active set: after the call the set
    holds exactly the former members whose record is not empty and has a
    heartbeat that parses, and the list returned has one entry for each
    of them. *)
Theorem get_all_nodes_prunes (w : World) :
  (∀ m, m ∈ Redis.smembers "active_nodes" (redis (Registry.get_all_nodes w).2)
        ↔ m ∈ Redis.smembers "active_nodes" (redis w)
          ∧ node_readable (Redis.hgetall (Registry.node_key m) (redis w)))
  ∧ length (Registry.get_all_nodes w).1
    = size (Redis.smembers "active_nodes" (redis (Registry.get_all_nodes w).2)).
Proof.
  destruct (get_all_nodes_readable w) as [Hset Hlen]. cbn zeta in *.
  split.
  - intros m. rewrite Hset, elem_of_list_to_set, list_elem_of_filter,
      elem_of_elements. tauto.
  - rewrite Hlen, Hset. rewrite size_list_to_set; [done|].
    apply NoDup_filter, NoDup_elements.
Qed.

End NodeProperties.

(** ** The pending queue *)

Lemma zsets_hset k m r : Redis.zsets (Redis.hset k m r) = Redis.zsets r.
Proof. reflexivity. Qed.

Lemma zsets_sadd k x r : Redis.zsets (Redis.sadd k x r) = Redis.zsets r.
Proof. reflexivity. Qed.

Lemma zsets_srem k x r : Redis.zsets (Redis.srem k x r) = Redis.zsets r.
Proof. unfold Redis.srem. by destruct (Redis.sets r !! k). Qed.

Lemma zsets_hincrby k f n r r' :
  Redis.hincrby k f n r = Some r' → Redis.zsets r' = Redis.zsets r.
Proof.
  unfold Redis.hincrby. intros Hinc.
  destruct (match Redis.hgetall k r !! f with
            | Some s => Redis.Z_of_string s
            | None => Some 0%Z
            end) as [v|]; [|discriminate].
  case_bool_decide; [|discriminate].
  by injection Hinc as <-.
Qed.

Lemma zmembers_zrem k x r : Redis.zmembers k (Redis.zrem k x r) !! x = None.
Proof.
  unfold Redis.zmembers, Redis.zrem.
  destruct (Redis.zsets r !! k) as [z|] eqn:Hz; cbn.
  - case_decide as He.
    + by rewrite lookup_delete_eq.
    + rewrite lookup_insert_eq. cbn. by rewrite lookup_delete_eq.
  - by rewrite Hz.
Qed.

Lemma zmembers_zadd k x p r :
  Redis.zmembers k (Redis.zadd k x p r) = <[x := p]> (Redis.zmembers k r).
Proof. unfold Redis.zmembers at 1, Redis.zadd. cbn. by rewrite lookup_insert_eq. Qed.

Lemma Z_of_string_to_string (v : Z) :
  Redis.Z_of_string (Redis.Z_to_string v) = Some v.
Proof.
  unfold Redis.Z_of_string, Redis.Z_to_string.
  rewrite NilZero.isi.
  - rewrite DecimalZ.of_to. by rewrite String.eqb_refl.
  - destruct v; cbn; try discriminate.
    intros [= Hp]. by apply Unsigned.to_uint_nonnil in Hp.
  - destruct v; cbn; try discriminate.
    intros [= Hp]. by apply Unsigned.to_uint_nonnil in Hp.
Qed.

#[global] Instance zle_total : Total Redis.zle.
Proof.
  intros [a x] [b y]. unfold Redis.zle. cbn.
  destruct (Z.lt_trichotomy x y) as [?|[->|?]]; [by left; left| |by right; left].
  destruct (String.leb_total a b); [left|right]; right; done.
Qed.

#[global] Instance zle_trans : Transitive Redis.zle.
Proof.
  intros [a x] [b y] [c z]. unfold Redis.zle. cbn.
  intros [?|[-> Hab]] [?|[-> Hbc]]; try (left; lia).
  right. split; [done|].
  apply Is_true_true. apply Is_true_true in Hab, Hbc.
  by etrans.
Qed.

Lemma StronglySorted_last {A} (R : relation A) (l : list A) (x : A) :
  StronglySorted R l → last l = Some x → ∀ y, y ∈ l → y = x ∨ R y x.
Proof.
  induction 1 as [|a l Hl IH Hall]; [done|].
  intros Hlast y Hy. destruct l as [|b l].
  - cbn in Hlast. injection Hlast as <-.
    apply list_elem_of_singleton in Hy. by left.
  - change (last (b :: l) = Some x) in Hlast.
    apply elem_of_cons in Hy as [->|Hy]; [|by apply IH].
    right. rewrite Forall_forall in Hall. apply Hall.
    by apply last_Some_elem_of.
Qed.

Section TaskQueue.
Context `{Runtime}.

Lemma get_pending_task_last (w : World) :
  Registry.get_pending_task w
  = (fst <$> last (merge_sort Redis.zle
                     (map_to_list (Redis.zmembers "pending_tasks" (redis w)))),
     w).
Proof.
  unfold Registry.get_pending_task. unfold_monad.
  unfold Redis.zrevrange_first, Redis.zrange_all.
  set (l := merge_sort Redis.zle _).
  assert (head (take 1 (reverse l.*1)) = fst <$> last l) as ->; [|done].
  rewrite <- fmap_reverse, <- head_reverse.
  by destruct (reverse l).
Qed.

Lemma get_pending_task_member (w : World) (t : string) :
  (Registry.get_pending_task w).1 = Some t →
  is_Some (Redis.zmembers "pending_tasks" (redis w) !! t).
Proof.
  rewrite get_pending_task_last. cbn [fst].
  set (m := Redis.zmembers "pending_tasks" (redis w)).
  destruct (last _) as [[t0 p]|] eqn:Hl; [|done].
  intros [= ->]. exists p. apply elem_of_map_to_list.
  rewrite <- (merge_sort_Permutation Redis.zle). by apply last_Some_elem_of.
Qed.

(** X8.  [get_pending_task] leaves the store as it is.  It returns [None]
    exactly when the pending queue is empty; otherwise it returns a
    member of the queue whose priority no other member exceeds. *)
Theorem get_pending_task_highest (w : World) :
  (Registry.get_pending_task w).2 = w
  ∧ ((Registry.get_pending_task w).1 = None
     ↔ Redis.zmembers "pending_tasks" (redis w) = ∅)
  ∧ ∀ t, (Registry.get_pending_task w).1 = Some t →
      ∃ p, Redis.zmembers "pending_tasks" (redis w) !! t = Some p
           ∧ ∀ t' p', Redis.zmembers "pending_tasks" (redis w) !! t' = Some p' →
                      (p' ≤ p)%Z.
Proof.
  rewrite get_pending_task_last. cbn [fst snd].
  split; [done|].
  set (m := Redis.zmembers "pending_tasks" (redis w)).
  set (l := merge_sort Redis.zle (map_to_list m)).
  assert (l ≡ₚ map_to_list m) as Hperm by apply merge_sort_Permutation.
  split.
  - split.
    + intros Hnone. destruct (last l) eqn:Hl; [done|].
      apply last_None in Hl. rewrite Hl in Hperm.
      apply Permutation_nil_l in Hperm. symmetry in Hperm.
      by apply map_to_list_empty_iff in Hperm.
    + intros He. rewrite He in Hperm. rewrite map_to_list_empty in Hperm.
      apply Permutation_nil_r in Hperm. by rewrite Hperm.
  - intros t Ht. destruct (last l) as [[t0 p]|] eqn:Hl; [|done].
    injection Ht as ->. exists p. split.
    + apply elem_of_map_to_list. rewrite <- Hperm. by apply last_Some_elem_of.
    + intros t' p' Ht'.
      assert ((t', p') ∈ l) as Hin.
      { rewrite Hperm. by apply elem_of_map_to_list. }
      destruct (StronglySorted_last Redis.zle l (t, p)
                  (StronglySorted_merge_sort _ _) Hl _ Hin) as [[= _ ->]|Hle];
        [lia|].
      unfold Redis.zle in Hle. cbn in Hle. lia.
Qed.

End TaskQueue.

(** ** Creation and moves of tasks *)

Section CreateTask.
Context `{Runtime} `{TaskCodec}.

Lemma create_task_spec (task : Task.t) (text n : string) (w : World) :
  dumps_input_data (Task.input_data task) = Some text →
  Task.node_id task = Some n →
  Registry.create_task task w
  = (true,
     {| redis :=
          Redis.sadd "all_tasks" (Task.id task)
            ((if decide (Task.status task = PENDING)
              then Redis.zadd "pending_tasks" (Task.id task) (Task.priority task)
              else λ r, r)
               (Redis.hset (Registry.task_key (Task.id task))
                  (Registry.task_data task text n (clock (ticks w))
                     (clock (S (ticks w))))
                  (redis w)));
        ticks := S (S (ticks w)) |}).
Proof.
  intros Hd Hn. unfold Registry.create_task. unfold_monad.
  rewrite Hd. cbn. rewrite Hn. cbn. by case_decide.
Qed.

(** X5.  When [json.dumps] writes the input of the task as [text] and the
    task has a node id, [create_task] returns [True] and a [get_task]
    that follows returns the record written: id, status, model, node id,
    priority, the creation instant and the input read back from [text].
    The task is in the set of all tasks, and in the pending queue under
    its priority exactly when its status is pending. *)
Theorem create_then_get (task : Task.t) (text n : string) (w : World) :
  dumps_input_data (Task.input_data task) = Some text →
  Task.node_id task = Some n →
  (Registry.create_task task w).1 = true
  ∧ (∃ d,
       Registry.get_task (Task.id task) (Registry.create_task task w).2
       = (Some d, (Registry.create_task task w).2)
       ∧ d !! "id" = Some (JStr (Task.id task))
       ∧ d !! "status" = Some (JStr (TaskStatus_value (Task.status task)))
       ∧ d !! "model" = Some (JStr (Task.model task))
       ∧ d !! "node_id" = Some (JStr n)
       ∧ d !! "priority" = Some (JStr (Redis.Z_to_string (Task.priority task)))
       ∧ d !! "created_at" = Some (JStr (isoformat (clock (ticks w))))
       ∧ d !! "input_data" = Some (default (JObj []) (json_loads text)))
  ∧ Task.id task
      ∈ Redis.smembers "all_tasks" (redis (Registry.create_task task w).2)
  ∧ (Task.status task = PENDING →
     Redis.zmembers "pending_tasks" (redis (Registry.create_task task w).2)
       !! Task.id task = Some (Task.priority task))
  ∧ (Task.status task ≠ PENDING →
     Redis.zsets (redis (Registry.create_task task w).2) = Redis.zsets (redis w)).
Proof.
  intros Hd Hn. rewrite (create_task_spec task text n w Hd Hn). cbn [fst snd].
  split; [done|]. split; [|split; [|split]].
  - rewrite get_task_spec. cbn [redis]. rewrite hgetall_sadd.
    set (old := Redis.hgetall (Registry.task_key (Task.id task)) (redis w)).
    set (new := Registry.task_data task text n (clock (ticks w))
                  (clock (S (ticks w)))).
    assert (Redis.hgetall (Registry.task_key (Task.id task))
              ((if decide (Task.status task = PENDING)
                then Redis.zadd "pending_tasks" (Task.id task) (Task.priority task)
                else λ r, r)
                 (Redis.hset (Registry.task_key (Task.id task)) new (redis w)))
            = new ∪ old) as ->.
    { case_decide; [|apply hgetall_hset_eq].
      unfold Redis.hgetall at 1, Redis.zadd. cbn [Redis.hashes].
      apply hgetall_hset_eq. }
    assert (∀ k v, new !! k = Some v → (new ∪ old) !! k = Some v) as Hnew.
    { intros k v. apply lookup_union_Some_l. }
    rewrite decide_False; last first.
    { intros He.
      assert ((new ∪ old) !! "id" = Some (Task.id task)) as Hid.
      { apply Hnew. unfold new, Registry.task_data. by simplify_map_eq. }
      by rewrite He, lookup_empty in Hid. }
    eexists. split; [reflexivity|].
    repeat split.
    1-6: rewrite decode_task_field by done; erewrite Hnew; [reflexivity|];
         unfold new, Registry.task_data; by simplify_map_eq.
    unfold Registry.decode_task.
    rewrite (Hnew "input_data" text)
      by (unfold new, Registry.task_data; by simplify_map_eq).
    destruct ((new ∪ old) !! "result").
    + rewrite lookup_insert_ne by done. by rewrite lookup_insert_eq.
    + by rewrite lookup_insert_eq.
  - cbn [redis]. rewrite smembers_sadd, decide_True by done. set_solver.
  - intros Hp. cbn [redis]. rewrite decide_True by done.
    unfold Redis.zmembers, Redis.sadd, Redis.zadd. cbn.
    rewrite lookup_insert_eq. cbn. by rewrite lookup_insert_eq.
  - intros Hp. cbn [redis]. by rewrite decide_False by done.
Qed.

Lemma create_task_no_input (task : Task.t) (w : World) :
  dumps_input_data (Task.input_data task) = None →
  (Registry.create_task task w).1 = false
  ∧ redis (Registry.create_task task w).2 = redis w.
Proof.
  intros Hbad. unfold Registry.create_task. unfold_monad. by rewrite Hbad.
Qed.

Lemma create_task_no_node (task : Task.t) (w : World) :
  Task.node_id task = None →
  (Registry.create_task task w).1 = false
  ∧ redis (Registry.create_task task w).2 = redis w.
Proof.
  intros Hbad. unfold Registry.create_task. unfold_monad.
  destruct (dumps_input_data _) as [text|]; cbn; [|done]. by rewrite Hbad.
Qed.

(** X6.  When [json.dumps] refuses the input of the task, or the task has
    no node id (the client refuses to write [None]), [create_task]
    returns [False] and writes nothing: no record, no entry in the
    pending queue or in the set of all tasks. *)
Theorem create_task_refused (task : Task.t) (w : World) :
  dumps_input_data (Task.input_data task) = None ∨ Task.node_id task = None →
  (Registry.create_task task w).1 = false
  ∧ redis (Registry.create_task task w).2 = redis w.
Proof.
  intros [Hbad|Hbad]; [by apply create_task_no_input|by apply create_task_no_node].
Qed.

(** X7.  [TaskScheduler.create_task] never creates a task: the task it
    builds has no node id, the registry refuses it, and the call raises
    with the store unchanged, whatever the model, the input and the
    priority. *)
Theorem scheduler_create_task_fails (task_id model : string)
    (input_data : TaskInput) (priority : Z) (w : World) :
  ∃ e w',
    TaskScheduler.create_task task_id model input_data priority w = (Raised e, w')
    ∧ redis w' = redis w.
Proof.
  unfold TaskScheduler.create_task. unfold_monad.
  case_bool_decide; cbn; [|by eexists _, _].
  match goal with
  | |- context [Registry.create_task ?t w] =>
      destruct (create_task_no_node t w) as [Hf Hr]; [done|];
      destruct (Registry.create_task t w) as [b w1]
  end.
  cbn in Hf, Hr. subst b. cbn. by eexists _, _.
Qed.

End CreateTask.

Section TaskMoves.
Context `{Runtime}.

Lemma update_task_status_zsets (task_id status : string)
    (node_id : option string) (result : option json) (w : World) :
  status ≠ "running" →
  Redis.zsets (redis (Registry.update_task_status task_id status node_id result w).2)
  = Redis.zsets (redis w).
Proof.
  intros Hs. unfold Registry.update_task_status. unfold_monad.
  destruct (Redis.exists_ _ _); [|done]. cbn.
  repeat (case_decide || case_match); simpl in *; simplify_eq.
  all: cbn [redis].
  all: repeat first
         [ rewrite zsets_sadd | rewrite zsets_srem | rewrite zsets_hset
         | match goal with
           | Hinc : Redis.hincrby _ _ _ _ = Some ?t |- context [Redis.zsets ?t] =>
               rewrite (zsets_hincrby _ _ _ _ _ Hinc)
           end ].
  all: done.
Qed.

Lemma get_pending_task_zsets (w w' : World) :
  Redis.zsets (redis w') = Redis.zsets (redis w) →
  (Registry.get_pending_task w').1 = (Registry.get_pending_task w).1.
Proof.
  intros Hz. unfold Registry.get_pending_task. unfold_monad. cbn.
  unfold Redis.zrevrange_first, Redis.zrange_all, Redis.zmembers. by rewrite Hz.
Qed.

(** X11.  Cancelling a pending task that is at the head of the pending
    queue records it as failed but leaves the queue as it is:
    [get_pending_task] still returns the cancelled task. *)
Theorem cancel_task_stays_queued (task_id : string) (w : World) :
  status_of task_id w = Some "pending" →
  (Registry.get_pending_task w).1 = Some task_id →
  status_of task_id (TaskScheduler.cancel_task task_id w).2 = Some "failed"
  ∧ Redis.zsets (redis (TaskScheduler.cancel_task task_id w).2)
    = Redis.zsets (redis w)
  ∧ (Registry.get_pending_task (TaskScheduler.cancel_task task_id w).2).1
    = Some task_id.
Proof.
  intros Hst Hhead.
  assert (TaskScheduler.cancel_task task_id w
          = (true,
             (Registry.update_task_status task_id "failed" None
                (Some (error_obj "Task cancelled by user")) w).2)) as ->.
  { destruct (status_of_stored _ _ _ Hst) as (h & Hh & Hall & Hs).
    unfold TaskScheduler.cancel_task. unfold_monad.
    rewrite get_task_spec, Hall.
    assert (h ≠ ∅) as Hne.
    { intros ->. by rewrite lookup_empty in Hs. }
    rewrite decide_False by done.
    rewrite decide_False by (intros Hz%decode_task_empty; done).
    rewrite decide_True by (by rewrite decode_task_status).
    by destruct (Registry.update_task_status _ _ _ _ _). }
  cbn [snd].
  destruct (status_of_stored _ _ _ Hst) as (h & Hh & _).
  split; [by eapply update_task_status_writes|].
  assert (Redis.zsets
            (redis (Registry.update_task_status task_id "failed" None
                      (Some (error_obj "Task cancelled by user")) w).2)
          = Redis.zsets (redis w)) as Hz
      by (by apply update_task_status_zsets).
  split; [done|].
  by rewrite (get_pending_task_zsets w _ Hz).
Qed.

Lemma update_task_status_running_spec (task_id : string) (node_id : option string)
    (result : option json) (w : World) (h : gmap string string) :
  Redis.hashes (redis w) !! Registry.task_key task_id = Some h →
  ∃ upd,
    Registry.update_task_status task_id "running" node_id result w
    = (true,
       {| redis := Redis.sadd "running_tasks" task_id
                     (Redis.zrem "pending_tasks" task_id
                        (Redis.hset (Registry.task_key task_id) upd (redis w)));
          ticks := S (ticks w) |})
    ∧ upd !! "status" = Some "running".
Proof.
  intros Hh. unfold Registry.update_task_status. unfold_monad.
  unfold Redis.exists_. rewrite Hh. rewrite bool_decide_eq_true_2 by eauto.
  cbn -[Redis.sadd Redis.zrem Redis.hset].
  rewrite decide_False by done. rewrite decide_True by done.
  cbn -[Redis.sadd Redis.zrem Redis.hset].
  eexists. split; [reflexivity|].
  destruct (truthy_str node_id), result; by simplify_map_eq.
Qed.

Lemma update_task_status_other_spec (task_id status : string)
    (node_id : option string) (result : option json) (w : World)
    (h : gmap string string) :
  Redis.hashes (redis w) !! Registry.task_key task_id = Some h →
  status ≠ "running" → status ≠ "completed" → status ≠ "failed" →
  ∃ upd,
    Registry.update_task_status task_id status node_id result w
    = (true,
       {| redis := Redis.hset (Registry.task_key task_id) upd (redis w);
          ticks := S (ticks w) |})
    ∧ upd !! "status" = Some status.
Proof.
  intros Hh H1 H2 H3. unfold Registry.update_task_status. unfold_monad.
  unfold Redis.exists_. rewrite Hh. rewrite bool_decide_eq_true_2 by eauto.
  cbn -[Redis.hset].
  repeat (rewrite decide_False by done).
  cbn -[Redis.hset].
  eexists. split; [reflexivity|].
  destruct (truthy_str node_id), result; by simplify_map_eq.
Qed.

(** X10.  A stored task that is set to running and then back to pending
    reads as pending but is not queued again: it is out of the pending
    queue, still in the running set, and [get_pending_task] does not
    return it. *)
Theorem revert_to_pending_not_requeued (task_id : string)
    (node_id : option string) (w : World) (h : gmap string string) :
  Redis.hashes (redis w) !! Registry.task_key task_id = Some h →
  let w1 := (Registry.update_task_status task_id "running" node_id None w).2 in
  let w2 := (Registry.update_task_status task_id "pending" None None w1).2 in
  status_of task_id w2 = Some "pending"
  ∧ Redis.zmembers "pending_tasks" (redis w2) !! task_id = None
  ∧ task_id ∈ Redis.smembers "running_tasks" (redis w2)
  ∧ (Registry.get_pending_task w2).1 ≠ Some task_id.
Proof.
  intros Hh. cbn zeta.
  destruct (update_task_status_running_spec task_id node_id None w h Hh)
    as (upd & -> & Hupd).
  cbn [snd].
  set (w1 := {| redis := _; ticks := _ |}).
  assert (is_Some (Redis.hashes (redis w1) !! Registry.task_key task_id))
    as [h1 Hh1].
  { unfold w1. cbn [redis]. rewrite hashes_sadd, hashes_zrem.
    unfold Redis.hset. cbn. rewrite lookup_insert_eq. eauto. }
  destruct (update_task_status_other_spec task_id "pending" None None w1 h1 Hh1)
    as (upd2 & -> & Hupd2); [done..|].
  cbn [snd redis].
  assert (Redis.zmembers "pending_tasks"
            (Redis.hset (Registry.task_key task_id) upd2 (redis w1)) !! task_id
          = None) as Hz.
  { unfold w1. cbn [redis].
    unfold Redis.zmembers. rewrite zsets_hset, zsets_sadd.
    apply zmembers_zrem. }
  split; [|split; [|split]].
  - unfold status_of. cbn [redis]. rewrite hgetall_hset_eq.
    by apply lookup_union_Some_l.
  - done.
  - rewrite smembers_hset. unfold w1. cbn [redis].
    rewrite smembers_sadd, decide_True by done. set_solver.
  - intros Hhead. apply get_pending_task_member in Hhead as [p Hp].
    cbn [redis] in Hp. congruence.
Qed.

(** X9.  What [update_task_status] does to the queue and the sets for a
    stored task: running takes the task out of the pending queue and
    puts it in the running set; completed and failed take it out of the
    running set and put it in the set of that name; every other status
    leaves all sets and the queue as they are. *)
Theorem update_task_status_moves (task_id status : string)
    (node_id : option string) (result : option json) (w : World)
    (h : gmap string string) :
  Redis.hashes (redis w) !! Registry.task_key task_id = Some h →
  let w' := (Registry.update_task_status task_id status node_id result w).2 in
  (status = "running" →
   Redis.zmembers "pending_tasks" (redis w') !! task_id = None
   ∧ task_id ∈ Redis.smembers "running_tasks" (redis w'))
  ∧ (status = "completed" →
     (task_id ∉ Redis.smembers "running_tasks" (redis w'))
     ∧ task_id ∈ Redis.smembers "completed_tasks" (redis w'))
  ∧ (status = "failed" →
     (task_id ∉ Redis.smembers "running_tasks" (redis w'))
     ∧ task_id ∈ Redis.smembers "failed_tasks" (redis w'))
  ∧ (status ≠ "running" → status ≠ "completed" → status ≠ "failed" →
     Redis.sets (redis w') = Redis.sets (redis w)
     ∧ Redis.zsets (redis w') = Redis.zsets (redis w)).
Proof.
  intros Hh. cbn zeta. split; [|split; [|split]].
  - intros ->.
    destruct (update_task_status_running_spec task_id node_id result w h Hh)
      as (upd & -> & _).
    cbn [snd redis]. split.
    + unfold Redis.zmembers. rewrite zsets_sadd. apply zmembers_zrem.
    + rewrite smembers_sadd, decide_True by done. set_solver.
  - intros ->. unfold Registry.update_task_status. unfold_monad.
    unfold Redis.exists_. rewrite Hh. rewrite bool_decide_eq_true_2 by eauto.
    cbn -[Redis.hincrby Redis.sadd Redis.srem Redis.hset].
    repeat first [rewrite decide_True by done | rewrite decide_False by done].
    cbn -[Redis.hincrby Redis.sadd Redis.srem Redis.hset].
    set (base := Redis.sadd "completed_tasks" task_id
                   (Redis.srem "running_tasks" task_id _)).
    assert ((task_id ∉ Redis.smembers "running_tasks" base)
            ∧ task_id ∈ Redis.smembers "completed_tasks" base) as Hbase.
    { unfold base. split.
      - rewrite smembers_sadd, decide_False by done.
        rewrite smembers_srem, decide_True by done. set_solver.
      - rewrite smembers_sadd, decide_True by done. set_solver. }
    destruct (truthy_str node_id) as [n|]; [|done].
    cbn -[Redis.hincrby Redis.sadd Redis.srem Redis.hset].
    destruct (Redis.hincrby _ _ _ _) as [r'|] eqn:Hinc; cbn [snd redis]; [|done].
    unfold Redis.smembers. rewrite (sets_hincrby _ _ _ _ _ Hinc). done.
  - intros ->. unfold Registry.update_task_status. unfold_monad.
    unfold Redis.exists_. rewrite Hh. rewrite bool_decide_eq_true_2 by eauto.
    cbn -[Redis.hincrby Redis.sadd Redis.srem Redis.hset].
    repeat (rewrite decide_False by done). rewrite decide_True by done.
    cbn -[Redis.hincrby Redis.sadd Redis.srem Redis.hset].
    set (base := Redis.sadd "failed_tasks" task_id
                   (Redis.srem "running_tasks" task_id _)).
    assert ((task_id ∉ Redis.smembers "running_tasks" base)
            ∧ task_id ∈ Redis.smembers "failed_tasks" base) as Hbase.
    { unfold base. split.
      - rewrite smembers_sadd, decide_False by done.
        rewrite smembers_srem, decide_True by done. set_solver.
      - rewrite smembers_sadd, decide_True by done. set_solver. }
    destruct (truthy_str node_id) as [n|]; [|done].
    cbn -[Redis.hincrby Redis.sadd Redis.srem Redis.hset].
    destruct (Redis.hincrby _ _ _ _) as [r'|] eqn:Hinc; cbn [snd redis]; [|done].
    unfold Redis.smembers. rewrite (sets_hincrby _ _ _ _ _ Hinc). done.
  - intros H1 H2 H3.
    destruct (update_task_status_other_spec task_id status node_id result w h Hh)
      as (upd & -> & _); done.
Qed.

End TaskMoves.

(** ** The counters of the nodes *)

Lemma hincrby_counter k f c r :
  Redis.hgetall k r !! f = Some (Redis.Z_to_string c) →
  (- 2 ^ 63 ≤ c ∧ c + 1 < 2 ^ 63)%Z →
  Redis.hincrby k f 1 r = Some (Redis.hset1 k f (Redis.Z_to_string (c + 1)) r).
Proof.
  intros Hc Hr. unfold Redis.hincrby. rewrite Hc, Z_of_string_to_string.
  rewrite bool_decide_eq_true_2 by lia. done.
Qed.

Lemma hincrby_fresh k f r :
  Redis.hgetall k r !! f = None →
  Redis.hincrby k f 1 r = Some (Redis.hset1 k f "1" r).
Proof.
  intros Hc. unfold Redis.hincrby. rewrite Hc.
  rewrite bool_decide_eq_true_2 by lia. done.
Qed.

Section Counters.
Context `{Runtime}.

Lemma update_completed_spec (task_id n : string) (node_id : option string)
    (result : option json) (w : World) (h : gmap string string) :
  Redis.hashes (redis w) !! Registry.task_key task_id = Some h →
  truthy_str node_id = Some n →
  ∃ upd,
    Registry.update_task_status task_id "completed" node_id result w
    = match Redis.hincrby (Registry.node_key n) "tasks_completed" 1
              (Redis.sadd "completed_tasks" task_id
                 (Redis.srem "running_tasks" task_id
                    (Redis.hset (Registry.task_key task_id) upd (redis w)))) with
      | Some r' => (true, {| redis := r'; ticks := S (S (ticks w)) |})
      | None =>
          (false,
           {| redis := Redis.sadd "completed_tasks" task_id
                         (Redis.srem "running_tasks" task_id
                            (Redis.hset (Registry.task_key task_id) upd (redis w)));
              ticks := S (S (ticks w)) |})
      end.
Proof.
  intros Hh Hn. unfold Registry.update_task_status. unfold_monad.
  unfold Redis.exists_. rewrite Hh. rewrite bool_decide_eq_true_2 by eauto.
  cbn -[Redis.hincrby Redis.sadd Redis.srem Redis.hset].
  rewrite Hn.
  repeat first [rewrite decide_True by done | rewrite decide_False by done].
  cbn -[Redis.hincrby Redis.sadd Redis.srem Redis.hset].
  match goal with
  | |- context [Redis.hset (Registry.task_key task_id) ?g (redis w)] => exists g
  end.
  by destruct (Redis.hincrby _ _ _ _).
Qed.

(** X12.  Completing a stored task for a node whose [tasks_completed]
    counter reads [c] returns [True] and leaves the counter at [c + 1];
    no other field of the node record changes. *)
Theorem completion_counts (task_id n : string) (node_id : option string)
    (result : option json) (w : World) (h : gmap string string) (c : Z) :
  Redis.hashes (redis w) !! Registry.task_key task_id = Some h →
  truthy_str node_id = Some n →
  Redis.hgetall (Registry.node_key n) (redis w) !! "tasks_completed"
  = Some (Redis.Z_to_string c) →
  (- 2 ^ 63 ≤ c ∧ c + 1 < 2 ^ 63)%Z →
  let r := Registry.update_task_status task_id "completed" node_id result w in
  r.1 = true
  ∧ Redis.hgetall (Registry.node_key n) (redis r.2) !! "tasks_completed"
    = Some (Redis.Z_to_string (c + 1))
  ∧ ∀ f, f ≠ "tasks_completed" →
         Redis.hgetall (Registry.node_key n) (redis r.2) !! f
         = Redis.hgetall (Registry.node_key n) (redis w) !! f.
Proof.
  intros Hh Hn Hc Hr. cbn zeta.
  destruct (update_completed_spec task_id n node_id result w h Hh Hn) as [upd ->].
  rewrite (hincrby_counter _ _ c); [|by store_simpl|done].
  cbn [fst snd redis]. unfold Redis.hset1.
  split; [done|]. split.
  - rewrite hgetall_hset_eq. apply lookup_union_Some_l. by simplify_map_eq.
  - intros f Hf. rewrite hgetall_hset_eq.
    rewrite lookup_union_r by (by simplify_map_eq).
    by store_simpl.
Qed.

(** X13.  Completing a stored task for a node that has no record returns
    [True] and creates a record for that node that holds the counter
    alone, [tasks_completed = 1]; when the empty text is no instant,
    [get_node] does not return this record. *)
Theorem completion_for_unknown_node (task_id n : string)
    (node_id : option string) (result : option json) (w : World)
    (h : gmap string string) :
  Redis.hashes (redis w) !! Registry.task_key task_id = Some h →
  truthy_str node_id = Some n →
  Redis.hashes (redis w) !! Registry.node_key n = None →
  let r := Registry.update_task_status task_id "completed" node_id result w in
  r.1 = true
  ∧ Redis.hgetall (Registry.node_key n) (redis r.2) = {["tasks_completed" := "1"]}
  ∧ (fromisoformat "" = None → Registry.get_node n r.2 = (None, r.2)).
Proof.
  intros Hh Hn Hnone. cbn zeta.
  destruct (update_completed_spec task_id n node_id result w h Hh Hn) as [upd ->].
  assert (Redis.hgetall (Registry.node_key n) (redis w) = ∅) as Hold.
  { unfold Redis.hgetall. by rewrite Hnone. }
  rewrite hincrby_fresh; last first.
  { store_simpl. by rewrite Hold. }
  cbn [fst snd redis]. unfold Redis.hset1.
  assert (Redis.hgetall (Registry.node_key n)
            (Redis.hset (Registry.node_key n) {["tasks_completed" := "1"]}
               (Redis.sadd "completed_tasks" task_id
                  (Redis.srem "running_tasks" task_id
                     (Redis.hset (Registry.task_key task_id) upd (redis w)))))
          = {["tasks_completed" := "1"]}) as Hnew.
  { rewrite hgetall_hset_eq. store_simpl. rewrite Hold. by rewrite (right_id_L ∅ (∪)). }
  split; [done|]. split; [done|].
  intros Hiso. rewrite get_node_spec. cbn [redis]. rewrite Hnew. cbn zeta.
  rewrite decide_False; last first.
  { intros He. apply (f_equal (λ m, m !! "tasks_completed")) in He.
    by rewrite lookup_singleton_eq, lookup_empty in He. }
  rewrite lookup_singleton_ne by done. cbn. by rewrite Hiso.
Qed.

End Counters.

(** ** The cleanup of old tasks *)

Lemma zsets_delete k r : Redis.zsets (Redis.delete k r) = Redis.zsets r.
Proof. reflexivity. Qed.

Section Cleanup.
Context `{Runtime}.

Lemma pruned_refl cutoff F w w' :
  redis w' = redis w → pruned cutoff F w w'.
Proof. intros Hr k. left. by rewrite Hr. Qed.

Lemma pruned_trans cutoff (F : string → Prop) w1 w2 w3 :
  pruned cutoff F w1 w2 → pruned cutoff F w2 w3 → pruned cutoff F w1 w3.
Proof.
  intros H12 H23 k.
  destruct (H23 k) as [Heq|(He & j & s & c & -> & Hj & Hs & Hc & Hlt)].
  - rewrite Heq. apply H12.
  - right. split; [done|].
    destruct (H12 (Registry.task_key j)) as [Heq|(He' & _)].
    + rewrite Heq in Hs. by exists j, s, c.
    + by rewrite He', lookup_empty in Hs.
Qed.

Lemma pruned_mono cutoff (F G : string → Prop) w w' :
  (∀ j, F j → G j) → pruned cutoff F w w' → pruned cutoff G w w'.
Proof.
  intros HFG Hp k. destruct (Hp k) as [?|(He & j & s & c & ? & ? & ?)];
    [by left|right].
  split; [done|]. exists j, s, c. split; [done|]. split; [by apply HFG|done].
Qed.

Lemma cleanup_loop_spec (status : string) (cutoff : Z) (ids : list string) :
  ∀ n w,
    ∃ o w',
      Registry.cleanup_loop status cutoff ids n w = (o, w')
      ∧ ticks w' = ticks w
      ∧ Redis.zsets (redis w') = Redis.zsets (redis w)
      ∧ (∀ k, k ≠ status → k ≠ "all_tasks" →
              Redis.smembers k (redis w') = Redis.smembers k (redis w))
      ∧ pruned cutoff (λ j, j ∈ ids) w w'.
Proof.
  induction ids as [|j ids IH]; intros n w.
  - eexists _, _. split; [reflexivity|]. repeat split; try done.
    by apply pruned_refl.
  - assert (∀ n, ∃ o w',
              Registry.cleanup_loop status cutoff ids n w = (o, w')
              ∧ ticks w' = ticks w
              ∧ Redis.zsets (redis w') = Redis.zsets (redis w)
              ∧ (∀ k, k ≠ status → k ≠ "all_tasks" →
                      Redis.smembers k (redis w') = Redis.smembers k (redis w))
              ∧ pruned cutoff (λ j', j' ∈ j :: ids) w w') as Hskip.
    { intros n'. destruct (IH n' w) as (o & w' & Hrun & Ht & Hz & Hs & Hp).
      exists o, w'. repeat split; try done.
      eapply pruned_mono; [|done]. intros j' Hj'. by right. }
    cbn [Registry.cleanup_loop]. unfold_monad. rewrite get_task_spec.
    set (h := Redis.hgetall (Registry.task_key j) (redis w)).
    destruct (decide (h = ∅)) as [He|He]; [apply Hskip|].
    rewrite decide_False by (intros Hz%decode_task_empty; done).
    rewrite decode_task_field by done.
    destruct (h !! "created_at") as [s|] eqn:Hs; cbn; [|apply Hskip].
    destruct (fromisoformat s) as [c|] eqn:Hc; cbn.
    + case_bool_decide as Hold; [|apply Hskip].
      set (w1 := {| redis := Redis.delete (Registry.task_key j)
                               (Redis.srem "all_tasks" j
                                  (Redis.srem status j (redis w)));
                    ticks := ticks w |}).
      destruct (IH (n + 1)%Z w1) as (o & w' & Hrun & Ht & Hz & Hsets & Hp).
      exists o, w'. split; [done|]. split; [done|].
      split; [by rewrite Hz; unfold w1; cbn [redis]; rewrite zsets_delete, !zsets_srem|].
      split.
      * intros k Hk1 Hk2. rewrite Hsets by done. unfold w1. cbn [redis].
        rewrite smembers_delete, !smembers_srem.
        by rewrite !decide_False by done.
      * eapply pruned_trans; [|eapply pruned_mono; [|exact Hp]].
        -- intros k. unfold w1. cbn [redis].
           destruct (decide (k = Registry.task_key j)) as [->|Hk].
           ++ right. rewrite hgetall_delete_eq. split; [done|].
              exists j, s, c. fold h. repeat split; try done. by left.
           ++ left. rewrite hgetall_delete_ne by done.
              by rewrite !hgetall_srem.
        -- intros j' Hj'. by right.
    + eexists _, _. split; [reflexivity|]. repeat split; try done.
      by apply pruned_refl.
Qed.

Lemma cleanup_old_tasks_pruned (days : Z) (w : World) :
  let w' := (Registry.cleanup_old_tasks days w).2 in
  pruned (clock (ticks w) - seconds (days * 86400))
    (λ j, j ∈ Redis.smembers "completed_tasks" (redis w)
          ∨ j ∈ Redis.smembers "failed_tasks" (redis w))
    w w'
  ∧ Redis.zsets (redis w') = Redis.zsets (redis w)
  ∧ (∀ k, k ≠ "completed_tasks" → k ≠ "failed_tasks" → k ≠ "all_tasks" →
          Redis.smembers k (redis w') = Redis.smembers k (redis w)).
Proof.
  cbn zeta. unfold Registry.cleanup_old_tasks. unfold_monad.
  set (cutoff := (clock (ticks w) - seconds (days * 86400))%Z).
  set (w0 := {| redis := redis w; ticks := S (ticks w) |}).
  destruct (cleanup_loop_spec "completed_tasks" cutoff
              (elements (Redis.smembers "completed_tasks" (redis w0))) 0%Z w0)
    as (o1 & w1 & -> & Ht1 & Hz1 & Hs1 & Hp1).
  change (redis w0) with (redis w) in *.
  assert (pruned cutoff
            (λ j, j ∈ Redis.smembers "completed_tasks" (redis w)
                  ∨ j ∈ Redis.smembers "failed_tasks" (redis w)) w w1) as Hp1'.
  { eapply pruned_trans; [by apply (pruned_refl _ _ w w0)|].
    eapply pruned_mono; [|exact Hp1].
    intros j Hj. left. by apply elem_of_elements in Hj. }
  destruct o1 as [n1|e]; cbn [snd].
  - assert (Redis.smembers "failed_tasks" (redis w1)
            = Redis.smembers "failed_tasks" (redis w)) as Hfailed.
    { by rewrite Hs1. }
    rewrite Hfailed.
    destruct (cleanup_loop_spec "failed_tasks" cutoff
                (elements (Redis.smembers "failed_tasks" (redis w))) n1 w1)
      as (o2 & w2 & -> & Ht2 & Hz2 & Hs2 & Hp2).
    assert (pruned cutoff
              (λ j, j ∈ Redis.smembers "completed_tasks" (redis w)
                    ∨ j ∈ Redis.smembers "failed_tasks" (redis w)) w w2) as Hp.
    { eapply pruned_trans; [exact Hp1'|].
      eapply pruned_mono; [|exact Hp2].
      intros j Hj. right. by apply elem_of_elements in Hj. }
    assert (Redis.zsets (redis w2) = Redis.zsets (redis w)) as Hz
      by (by rewrite Hz2, Hz1).
    assert (∀ k, k ≠ "completed_tasks" → k ≠ "failed_tasks" → k ≠ "all_tasks" →
                 Redis.smembers k (redis w2) = Redis.smembers k (redis w)) as Hs.
    { intros k ? ? ?. by rewrite Hs2, Hs1. }
    by destruct o2.
  - split; [done|]. split; [done|]. intros k ? ? ?. by rewrite Hs1.
Qed.

(** X14.  [cleanup_old_tasks] only deletes what it is meant to: every
    record is as before or deleted, and a deleted record is that of a
    task of the completed or failed set whose creation instant is before
    the cutoff, [days] days before the call.  The pending queue and every
    set other than the completed, failed and all-tasks sets are as
    before. *)
Theorem cleanup_old_tasks_spares (days : Z) (w : World) :
  let w' := (Registry.cleanup_old_tasks days w).2 in
  (∀ k, Redis.hgetall k (redis w') = Redis.hgetall k (redis w)
        ∨ (Redis.hgetall k (redis w') = ∅
           ∧ ∃ j s c,
               k = Registry.task_key j
               ∧ (j ∈ Redis.smembers "completed_tasks" (redis w)
                  ∨ j ∈ Redis.smembers "failed_tasks" (redis w))
               ∧ Redis.hgetall k (redis w) !! "created_at" = Some s
               ∧ fromisoformat s = Some c
               ∧ (c < clock (ticks w) - seconds (days * 86400))%Z))
  ∧ Redis.zsets (redis w') = Redis.zsets (redis w)
  ∧ (∀ k, k ≠ "completed_tasks" → k ≠ "failed_tasks" → k ≠ "all_tasks" →
          Redis.smembers k (redis w') = Redis.smembers k (redis w)).
Proof.
  cbn zeta. destruct (cleanup_old_tasks_pruned days w) as (Hp & Hz & Hs).
  split; [|done]. intros k. apply (Hp k).
Qed.



End Cleanup.

(** ** The listing of tasks and the statistics *)

Lemma key_lt_asym (a b : option string) :
  RedisRegistry.key_lt a b = true → RedisRegistry.key_lt b a = false.
Proof.
  destruct a as [x|], b as [y|]; cbn; try done.
  unfold String.ltb. rewrite (String.compare_antisym x y).
  by destruct (String.compare y x).
Qed.

Lemma py_sort_reverse_Sorted {A} (lt : A → A → bool) (l : list A) :
  (∀ a b, lt a b = true → lt b a = false) →
  Sorted (λ a b, lt a b = false) (py_sort_reverse lt l).
Proof.
  intros Hasym. unfold py_sort_reverse.
  apply (Sorted_reverse (not_after lt)). by apply py_sort_Sorted.
Qed.

Lemma py_sort_reverse_perm {A} (lt : A → A → bool) (l : list A) :
  py_sort_reverse lt l ≡ₚ l.
Proof.
  unfold py_sort_reverse. by rewrite reverse_Permutation, py_sort_perm,
    reverse_Permutation.
Qed.

Lemma length_omap_le {A B} (f : A → option B) (l : list A) :
  length (omap f l) ≤ length l.
Proof. induction l as [|x l IH]; cbn; [done|]. destruct (f x); cbn; lia. Qed.

Lemma forallb_elem_of {A} (f : A → bool) (l : list A) :
  (∀ x, x ∈ l → f x = true) → forallb f l = true.
Proof.
  induction l as [|x l IH]; intros Hall; cbn; [done|].
  rewrite Hall by left. apply IH. intros y Hy. apply Hall. by right.
Qed.

Section Listing.
Context `{Runtime}.

Lemma created_key_decode (h : gmap string string) :
  is_Some (RedisRegistry.created_key (Registry.decode_task h)).
Proof.
  unfold RedisRegistry.created_key. rewrite decode_task_field by done.
  by destruct (h !! "created_at").
Qed.

Lemma get_all_tasks_spec (limit : Z) (w : World) :
  RedisRegistry.get_all_tasks limit w
  = (py_sort_reverse
       (λ a b, RedisRegistry.key_lt (RedisRegistry.created_key a)
                 (RedisRegistry.created_key b))
       (omap (task_dict w)
          (py_slice_from (- limit)
             (elements (Redis.smembers "all_tasks" (redis w))))),
     w).
Proof.
  unfold RedisRegistry.get_all_tasks. unfold_monad.
  rewrite get_tasks_loop_spec. cbn [app].
  fold (task_dict w).
  rewrite forallb_elem_of; [done|].
  intros d Hd%list_elem_of_omap. destruct Hd as (j & _ & Hd).
  unfold task_dict in Hd. cbn zeta in Hd. case_decide; [done|].
  injection Hd as <-. apply bool_decide_eq_true. apply created_key_decode.
Qed.

(** X16.  [get_all_tasks] leaves the store as it is and returns
    dictionaries of stored tasks of the set of all tasks, newest first by
    the text of [created_at]; for a positive [limit] at most [limit] of
    them, and for [limit = 0] all of them. *)
Theorem get_all_tasks_listing (limit : Z) (w : World) :
  let r := (RedisRegistry.get_all_tasks limit w).1 in
  (RedisRegistry.get_all_tasks limit w).2 = w
  ∧ Sorted (λ a b, RedisRegistry.key_lt (RedisRegistry.created_key a)
                     (RedisRegistry.created_key b) = false) r
  ∧ (∀ d, d ∈ r →
          ∃ j, j ∈ Redis.smembers "all_tasks" (redis w)
               ∧ task_dict w j = Some d)
  ∧ ((0 < limit)%Z → length r ≤ Z.to_nat limit)
  ∧ (limit = 0%Z →
     r ≡ₚ omap (task_dict w) (elements (Redis.smembers "all_tasks" (redis w)))).
Proof.
  cbn zeta. rewrite get_all_tasks_spec. cbn [fst snd].
  split; [done|]. split; [|split; [|split]].
  - apply (py_sort_reverse_Sorted
             (λ a b, RedisRegistry.key_lt (RedisRegistry.created_key a)
                       (RedisRegistry.created_key b))).
    intros a b. apply key_lt_asym.
  - intros d Hd. apply py_sort_reverse_elem in Hd.
    apply list_elem_of_omap in Hd as (j & Hj & Hd).
    exists j. split; [|done].
    apply elem_of_elements. unfold py_slice_from in Hj.
    destruct (- limit <? 0)%Z;
      (eapply elem_of_sublist; [exact Hj|apply sublist_drop]).
  - intros Hpos. rewrite py_sort_reverse_perm.
    etrans; [apply length_omap_le|].
    unfold py_slice_from. rewrite (proj2 (Z.ltb_lt _ _)) by lia.
    rewrite length_drop. lia.
  - intros ->. rewrite py_sort_reverse_perm. done.
Qed.

Lemma count_nodes_sum (nodes : list (gmap string string)) (a b : Z) :
  ((Registry.count_nodes nodes a b).1 + (Registry.count_nodes nodes a b).2
   = a + b + Z.of_nat (length nodes))%Z
  ∧ (a ≤ (Registry.count_nodes nodes a b).1)%Z
  ∧ (b ≤ (Registry.count_nodes nodes a b).2)%Z.
Proof.
  revert a b. induction nodes as [|n nodes IH]; intros a b; cbn.
  - lia.
  - case_decide.
    + destruct (IH (a + 1)%Z b) as (? & ? & ?). lia.
    + destruct (IH a (b + 1)%Z) as (? & ? & ?). lia.
Qed.

(** X4.  In the statistics [get_stats] returns, the online and offline
    counts are not negative, add up to the number of nodes
    [get_all_nodes] returns, and never exceed the total, which is the
    size of the active set before the call. *)
Theorem get_stats_nodes (w : World) :
  let st := (Registry.get_stats w).1 in
  (0 ≤ Registry.nodes_online st)%Z
  ∧ (0 ≤ Registry.nodes_offline st)%Z
  ∧ (Registry.nodes_online st + Registry.nodes_offline st
     ≤ Registry.nodes_total st)%Z
  ∧ (Registry.nodes_online st + Registry.nodes_offline st
     = Z.of_nat (length (Registry.get_all_nodes w).1))%Z
  ∧ Registry.nodes_total st
    = Z.of_nat (size (Redis.smembers "active_nodes" (redis w))).
Proof.
  cbn zeta. unfold Registry.get_stats. unfold_monad.
  destruct (get_all_nodes_readable w) as [_ Hlen]. cbn zeta in Hlen.
  destruct (Registry.get_all_nodes w) as [nodes w'] eqn:Hall. cbn [fst snd] in *.
  destruct (count_nodes_sum nodes 0 0) as (Hsum & Hon & Hoff).
  destruct (Registry.count_nodes nodes 0 0) as [online offline]. cbn in *.
  unfold Redis.scard.
  assert (length nodes ≤ size (Redis.smembers "active_nodes" (redis w))).
  { rewrite Hlen. etrans; [apply length_filter|].
    unfold size, set_size. cbn. done. }
  lia.
Qed.

End Listing.

(** ** The node records of every reachable store *)

Lemma hgetall_zadd k' k x p r :
  Redis.hgetall k' (Redis.zadd k x p r) = Redis.hgetall k' r.
Proof. reflexivity. Qed.

Section Reachable.
Context `{Runtime} `{TaskCodec}.

Lemma well_keyed_redis (w w' : World) :
  redis w' = redis w → well_keyed w → well_keyed w'.
Proof. intros Hr Hwk m i. rewrite Hr. apply Hwk. Qed.

Lemma get_all_nodes_loop_well_keyed (ids : list string) :
  ∀ acc w, well_keyed w → well_keyed (Registry.get_all_nodes_loop ids acc w).2.
Proof.
  induction ids as [|m ids IH]; intros acc w Hwk; [done|].
  cbn [Registry.get_all_nodes_loop]. unfold_monad.
  pose proof (get_node_well_keyed m w Hwk) as Hwk1.
  destruct (Registry.get_node m w) as [[d|] w1]; cbn [snd] in Hwk1.
  - case_decide.
    + apply IH. intros k i. cbn [redis]. rewrite hgetall_srem. apply Hwk1.
    + by apply IH.
  - apply IH. intros k i. cbn [redis]. rewrite hgetall_srem. apply Hwk1.
Qed.

Lemma get_all_nodes_well_keyed (w : World) :
  well_keyed w → well_keyed (Registry.get_all_nodes w).2.
Proof.
  intros Hwk. unfold Registry.get_all_nodes. unfold_monad.
  pose proof (get_all_nodes_loop_well_keyed
                (elements (Redis.smembers "active_nodes" (redis w))) [] w Hwk)
    as Hloop.
  by destruct (Registry.get_all_nodes_loop _ _ _) as [[r|e] w'].
Qed.

Lemma remove_node_well_keyed (node_id : string) (w : World) :
  well_keyed w → well_keyed (Registry.remove_node node_id w).2.
Proof.
  intros Hwk m i. unfold Registry.remove_node. unfold_monad. cbn [snd redis].
  destruct (decide (Registry.node_key node_id = Registry.node_key m)) as [<-|Hne].
  - by rewrite hgetall_delete_eq, lookup_empty.
  - rewrite hgetall_delete_ne by done. rewrite hgetall_srem. apply Hwk.
Qed.

Lemma create_task_well_keyed (task : Task.t) (w : World) :
  well_keyed w → well_keyed (Registry.create_task task w).2.
Proof.
  intros Hwk. unfold Registry.create_task. unfold_monad.
  destruct (dumps_input_data _); cbn; [|done].
  destruct (Task.node_id task); cbn; [|by eapply well_keyed_redis].
  intros m i. case_decide; cbn [snd redis]; rewrite hgetall_sadd.
  - rewrite hgetall_zadd.
    rewrite hgetall_hset_ne by (apply not_eq_sym, node_key_ne_task_key).
    apply Hwk.
  - rewrite hgetall_hset_ne by (apply not_eq_sym, node_key_ne_task_key).
    apply Hwk.
Qed.

Lemma cleanup_old_tasks_well_keyed (days : Z) (w : World) :
  well_keyed w → well_keyed (Registry.cleanup_old_tasks days w).2.
Proof.
  intros Hwk m i.
  destruct (cleanup_old_tasks_pruned days w) as [Hp _]. cbn zeta in Hp.
  destruct (Hp (Registry.node_key m)) as [->|[-> _]]; [apply Hwk|].
  by rewrite lookup_empty.
Qed.

Lemma get_stats_well_keyed (w : World) :
  well_keyed w → well_keyed (Registry.get_stats w).2.
Proof.
  intros Hwk. unfold Registry.get_stats. unfold_monad.
  pose proof (get_all_nodes_well_keyed w Hwk) as Hall.
  destruct (Registry.get_all_nodes w) as [nodes w']. cbn [snd] in *.
  by destruct (Registry.count_nodes nodes 0 0).
Qed.

Lemma tasks_of_node_state (node : gmap string string)
    (tasks : list (gmap string json)) (w : World) :
  (TaskScheduler.tasks_of_node node tasks w).2 = w.
Proof.
  induction tasks as [|t tasks IH]; [done|].
  cbn [TaskScheduler.tasks_of_node]. unfold_monad.
  destruct (node !! "id"); cbn; [|done].
  destruct (TaskScheduler.tasks_of_node node tasks w) as [[r|e] w']; cbn in *;
    subst; [|done].
  by case_decide.
Qed.

Lemma available_nodes_loop_state (all : list (gmap string string)) :
  ∀ acc w, (TaskScheduler.available_nodes_loop all acc w).2 = w.
Proof.
  induction all as [|node all IH]; intros acc w; [done|].
  cbn [TaskScheduler.available_nodes_loop]. case_decide; [|apply IH].
  unfold_monad. rewrite !get_running_tasks_spec.
  pose proof (tasks_of_node_state node
                (omap (λ m,
                         let h := Redis.hgetall (Registry.task_key m) (redis w) in
                         if decide (h = ∅) then None
                         else Some (Registry.decode_task h))
                   (elements (Redis.smembers "running_tasks" (redis w)))) w)
    as Hst.
  destruct (TaskScheduler.tasks_of_node _ _ _) as [[r|e] w']; cbn in Hst; subst;
    [|done].
  case_bool_decide; apply IH.
Qed.

Lemma get_available_nodes_well_keyed (w : World) :
  well_keyed w → well_keyed (TaskScheduler._get_available_nodes w).2.
Proof.
  intros Hwk. unfold TaskScheduler._get_available_nodes. unfold_monad.
  pose proof (get_all_nodes_well_keyed w Hwk) as Hall.
  destruct (Registry.get_all_nodes w) as [nodes w1]. cbn [snd] in Hall.
  pose proof (available_nodes_loop_state nodes [] w1) as Hst.
  destruct (TaskScheduler.available_nodes_loop nodes [] w1) as [[r|e] w2];
    cbn in *; by subst.
Qed.

Lemma check_running_loop_well_keyed (running : bool)
    (tasks : list (gmap string json)) :
  ∀ w, well_keyed w →
       well_keyed (TaskScheduler.check_running_loop running tasks w).2.
Proof.
  induction tasks as [|task tasks IH]; intros w Hwk; [done|].
  cbn [TaskScheduler.check_running_loop]. destruct running; cbn [negb]; [|done].
  unfold_monad.
  destruct (as_str _); cbn; [|done].
  destruct (fromisoformat _); cbn; [|done].
  assert (well_keyed {| redis := redis w; ticks := S (ticks w) |}) as Hwk1
    by (by eapply well_keyed_redis).
  case_bool_decide; [|by apply IH].
  destruct (option_bind _ _ as_str (task !! "id")) as [i|]; cbn; [|done].
  match goal with
  | |- context [Registry.update_task_status ?a ?b ?c ?d ?w0] =>
      pose proof (update_task_status_well_keyed a b c d w0 Hwk1) as Hwk2;
      destruct (Registry.update_task_status a b c d w0) as [b0 w2]
  end.
  by apply IH.
Qed.

Lemma check_running_tasks_well_keyed (running : bool) (w : World) :
  well_keyed w → well_keyed (TaskScheduler._check_running_tasks running w).2.
Proof.
  intros Hwk. unfold TaskScheduler._check_running_tasks. unfold_monad.
  rewrite get_running_tasks_spec.
  match goal with
  | |- context [TaskScheduler.check_running_loop running ?l w] =>
      pose proof (check_running_loop_well_keyed running l w Hwk) as Hloop;
      destruct (TaskScheduler.check_running_loop running l w) as [[u|e] w']
  end; done.
Qed.

Lemma cancel_task_well_keyed (task_id : string) (w : World) :
  well_keyed w → well_keyed (TaskScheduler.cancel_task task_id w).2.
Proof.
  intros Hwk. unfold TaskScheduler.cancel_task. unfold_monad.
  rewrite get_task_spec. case_decide; [done|].
  case_decide; [done|]. case_decide; [|done].
  match goal with
  | |- context [Registry.update_task_status ?a ?b ?c ?d w] =>
      pose proof (update_task_status_well_keyed a b c d w Hwk) as Hwk2;
      destruct (Registry.update_task_status a b c d w) as [b0 w2]
  end.
  done.
Qed.

Lemma registry_step_well_keyed (o : registry_op) (w : World) :
  well_keyed w → well_keyed (registry_step o w).
Proof.
  intros Hwk. destruct o; cbn.
  - by apply register_node_well_keyed.
  - by apply update_node_heartbeat_well_keyed.
  - by apply get_node_well_keyed.
  - by apply get_all_nodes_well_keyed.
  - by apply remove_node_well_keyed.
  - by apply create_task_well_keyed.
  - by apply update_task_status_well_keyed.
  - by apply cleanup_old_tasks_well_keyed.
  - by apply get_stats_well_keyed.
  - by apply get_available_nodes_well_keyed.
  - by apply check_running_tasks_well_keyed.
  - by apply cancel_task_well_keyed.
Qed.

(** X17.  No call of the registry or of the scheduler on it breaks the
    keying of the node records: if every record under [node:<m>] that has
    an id has the id [m], this still holds after every sequence of
    calls. *)
Theorem reachable_well_keyed (ops : list registry_op) (w : World) :
  well_keyed w → well_keyed (registry_run ops w).
Proof.
  revert w. induction ops as [|o ops IH]; intros w Hwk; [done|].
  cbn. apply IH. by apply registry_step_well_keyed.
Qed.

End Reachable.

(** ** The GPU-aware scheduler: the matching round *)

Section Matching.
Import Base.
Context `{Runtime} `{Fleet}.

Lemma assign_task_spec (task i : nat) (s : GPUScheduler.t)
    (obj : InferenceTask) (node : AgentNode) :
  GPUScheduler.tasks s !! task = Some obj →
  GPUScheduler.registry s !! i = Some node →
  GPUScheduler._assign_task_to_node task i s
  = (true,
     {| GPUScheduler.registry :=
          <[i := set_current_tasks node (current_tasks node + 1)]>
            (GPUScheduler.registry s);
        GPUScheduler.tasks :=
          <[task := task_running obj (clock (GPUScheduler.clock_readings s))
                      (node_id node)]> (GPUScheduler.tasks s);
        GPUScheduler.task_queue := GPUScheduler.task_queue s;
        GPUScheduler.running_tasks :=
          <[id obj := task]> (GPUScheduler.running_tasks s);
        GPUScheduler.task_assignments :=
          <[id obj := node_id node]> (GPUScheduler.task_assignments s);
        GPUScheduler.clock_readings := S (GPUScheduler.clock_readings s) |}).
Proof.
  intros Ht Hi. unfold GPUScheduler._assign_task_to_node, GPUScheduler.now.
  unfold_monad. cbn [GPUScheduler.tasks GPUScheduler.registry].
  rewrite Ht. cbn. rewrite Hi. reflexivity.
Qed.

Lemma find_best_node_suitable (task_obj : InferenceTask) (s : GPUScheduler.t) :
  ∃ o, GPUScheduler._find_best_node task_obj s = (o, s)
       ∧ ∀ i, o = Ok (Some i) →
           i ∈ GPUScheduler._find_suitable_nodes (requirements task_obj) s.
Proof.
  unfold GPUScheduler._find_best_node. unfold_monad.
  case_bool_decide as Hnil.
  - eexists. split; [reflexivity|]. intros i [=].
  - destruct (GPUScheduler.score_nodes _ _ _) as [l|] eqn:Hsc.
    + eexists. split; [reflexivity|]. intros i [= Hhead].
      apply head_Some_elem_of in Hhead.
      apply list_elem_of_fmap in Hhead as ([j sc] & -> & Hin).
      apply py_sort_reverse_elem in Hin.
      apply (list_elem_of_fmap_2 fst) in Hin.
      by rewrite (score_nodes_fst _ _ _ _ Hsc) in Hin.
    + eexists. split; [reflexivity|]. intros i [=].
Qed.

Lemma suitable_node (req : TaskRequirements) (s : GPUScheduler.t) (i : nat) :
  i ∈ GPUScheduler._find_suitable_nodes req s →
  ∃ node, GPUScheduler.registry s !! i = Some node
          ∧ is_active node = true
          ∧ GPUScheduler._node_meets_requirements node req = true.
Proof.
  unfold GPUScheduler._find_suitable_nodes, GPUScheduler.get_active_nodes.
  rewrite !list_elem_of_filter. intros (Hm & Hact & _).
  unfold GPUScheduler.active_at in Hact.
  destruct (GPUScheduler.registry s !! i) as [node|]; [|done].
  by exists node.
Qed.

(** The matching loop, for an invariant [P] of the scheduler and a
    property [Q] of the tasks it takes out of the queue. *)
Lemma process_loop_inv (P : GPUScheduler.t → Prop) (Q : GPUScheduler.t → nat → Prop) :
  (∀ s task i obj node,
     P s →
     GPUScheduler.tasks s !! task = Some obj →
     GPUScheduler.registry s !! i = Some node →
     is_active node = true →
     GPUScheduler._node_meets_requirements node (requirements obj) = true →
     P (GPUScheduler._assign_task_to_node task i s).2
     ∧ Q (GPUScheduler._assign_task_to_node task i s).2 task
     ∧ ∀ t, Q s t → Q (GPUScheduler._assign_task_to_node task i s).2 t) →
  ∀ queue acc s,
    P s → Forall (Q s) acc →
    ∃ r s',
      GPUScheduler.process_loop queue acc s = (Ok r, s')
      ∧ P s' ∧ Forall (Q s') r
      ∧ GPUScheduler.task_queue s' = GPUScheduler.task_queue s.
Proof.
  intros Hassign. induction queue as [|task queue IH]; intros acc s HP HQ.
  - eexists _, _. split; [reflexivity|]. done.
  - cbn [GPUScheduler.process_loop]. unfold_monad.
    destruct (GPUScheduler.tasks s !! task) as [obj|] eqn:Ht; [|by apply IH].
    unfold_monad.
    destruct (find_best_node_suitable obj s) as (o & -> & Hsuit).
    destruct o as [[i|]|e]; [|by apply IH..].
    destruct (suitable_node _ _ _ (Hsuit i eq_refl)) as (node & Hi & Hact & Hm).
    destruct (Hassign s task i obj node HP Ht Hi Hact Hm) as (HP' & HQ' & Hstable).
    rewrite (assign_task_spec task i s obj node Ht Hi) in *.
    cbn [snd] in *.
    destruct (IH (acc ++ [task]) _ HP') as (r & s' & -> & ? & ? & Hq).
    { apply Forall_app. split; [|by apply Forall_singleton].
      eapply Forall_impl; [exact HQ|]. intros t. apply Hstable. }
    eexists _, _. split; [reflexivity|]. done.
Qed.

Lemma task_eqb_running (a b : InferenceTask) :
  task_eqb a b = true →
  status b = RUNNING → is_Some (assigned_node b) →
  status a = RUNNING ∧ is_Some (assigned_node a).
Proof.
  unfold task_eqb. rewrite !andb_true_iff.
  intros ((((((((((((_ & _) & _) & _) & _) & _) & Hst) & _) & _) & _) & Hn) & _) & _).
  apply bool_decide_eq_true in Hst. intros Hb [n Hbn]. split; [congruence|].
  rewrite Hbn in Hn. by destruct (assigned_node a).
Qed.

Lemma list_remove_elem (s : GPUScheduler.t) (x : nat) (queue : list nat) (t : nat) :
  t ∈ GPUScheduler.list_remove s x queue → t ∈ queue.
Proof.
  induction queue as [|y queue IH]; cbn; [done|].
  destruct (_ || _); [by right|].
  rewrite !elem_of_cons. intros [->|Hin]; [by left|right; by apply IH].
Qed.

Lemma list_remove_running (s : GPUScheduler.t) (x : nat) (queue : list nat) (t : nat) :
  is_running s x →
  t ∈ queue → t ∈ GPUScheduler.list_remove s x queue ∨ is_running s t.
Proof.
  intros (objx & Hx & Hst & Hn).
  induction queue as [|y queue IH]; cbn; [by intros ?%elem_of_nil|].
  destruct (bool_decide (y = x) || _) eqn:Hy.
  - rewrite elem_of_cons. intros [->|Hin]; [|by left].
    right. apply orb_true_iff in Hy as [Hy|Hy].
    + apply bool_decide_eq_true in Hy as ->. by exists objx.
    + rewrite Hx in Hy. destruct (GPUScheduler.tasks s !! y) as [objy|] eqn:Hty;
        [|done].
      destruct (task_eqb_running objy objx Hy Hst Hn). by exists objy.
  - rewrite !elem_of_cons. intros [->|Hin]; [by left; left|].
    destruct (IH Hin); [left; by right|by right].
Qed.

Lemma remove_all_elem (s : GPUScheduler.t) (removed queue : list nat) (t : nat) :
  t ∈ foldl (λ queue task, GPUScheduler.list_remove s task queue) queue removed →
  t ∈ queue.
Proof.
  revert queue. induction removed as [|x removed IH]; intros queue; cbn; [done|].
  intros Hin. apply IH in Hin. by eapply list_remove_elem.
Qed.

Lemma remove_all_running (s : GPUScheduler.t) (removed queue : list nat) (t : nat) :
  Forall (is_running s) removed →
  t ∈ queue →
  t ∈ foldl (λ queue task, GPUScheduler.list_remove s task queue) queue removed
  ∨ is_running s t.
Proof.
  revert queue. induction removed as [|x removed IH]; intros queue Hall Hin; cbn;
    [by left|].
  apply Forall_cons in Hall as [Hx Hall].
  destruct (list_remove_running s x queue t Hx Hin) as [Hin'|Hr]; [|by right].
  by apply IH.
Qed.

Lemma process_tick_spec (P : GPUScheduler.t → Prop) (Q : GPUScheduler.t → nat → Prop) :
  (∀ s q, P s → P (GPUScheduler.with_task_queue s q)) →
  (∀ s q t, Q s t → Q (GPUScheduler.with_task_queue s q) t) →
  (∀ s task i obj node,
     P s →
     GPUScheduler.tasks s !! task = Some obj →
     GPUScheduler.registry s !! i = Some node →
     is_active node = true →
     GPUScheduler._node_meets_requirements node (requirements obj) = true →
     P (GPUScheduler._assign_task_to_node task i s).2
     ∧ Q (GPUScheduler._assign_task_to_node task i s).2 task
     ∧ ∀ t, Q s t → Q (GPUScheduler._assign_task_to_node task i s).2 t) →
  ∀ s, P s →
    GPUScheduler.process_tick s = (tt, s)
    ∨ ∃ removed s1,
        P s1 ∧ Forall (Q s1) removed
        ∧ GPUScheduler.task_queue s1 = GPUScheduler.sort_queue s
        ∧ GPUScheduler.process_tick s
          = (tt, GPUScheduler.with_task_queue s1
                   (foldl (λ queue task, GPUScheduler.list_remove s1 task queue)
                      (GPUScheduler.task_queue s1) removed)).
Proof.
  intros HPq HQq Hassign s HP.
  unfold GPUScheduler.process_tick, GPUScheduler._process_task_queue.
  unfold_monad. case_bool_decide; [by left|]. right.
  destruct (process_loop_inv P Q Hassign
              (GPUScheduler.task_queue
                 (GPUScheduler.with_task_queue s (GPUScheduler.sort_queue s)))
              [] (GPUScheduler.with_task_queue s (GPUScheduler.sort_queue s)))
    as (r & s1 & -> & HP1 & HQ1 & Hq); [by apply HPq|done|].
  exists r, s1. done.
Qed.

End Matching.

Section MatchingTheorems.
Import Base.
Context `{Runtime} `{Fleet}.

Lemma is_running_assign (s : GPUScheduler.t) (task i : nat) (obj : InferenceTask)
    (node : AgentNode) :
  GPUScheduler.tasks s !! task = Some obj →
  GPUScheduler.registry s !! i = Some node →
  is_running (GPUScheduler._assign_task_to_node task i s).2 task
  ∧ ∀ t, is_running s t →
         is_running (GPUScheduler._assign_task_to_node task i s).2 t.
Proof.
  intros Ht Hi. rewrite (assign_task_spec task i s obj node Ht Hi). cbn [snd].
  assert (task < length (GPUScheduler.tasks s)) as Hlen
    by (by eapply lookup_lt_Some).
  split.
  - eexists. cbn [GPUScheduler.tasks]. split.
    + by apply list_lookup_insert_eq.
    + cbn. eauto.
  - intros t (o & Ho & Hst & Hn). unfold is_running. cbn [GPUScheduler.tasks].
    destruct (decide (t = task)) as [->|Hne].
    + eexists. split; [by apply list_lookup_insert_eq|]. cbn. eauto.
    + exists o. by rewrite list_lookup_insert_ne.
Qed.

(** X18.  A matching round loses no task: a task of the queue is, after
    the round, still in the queue or running with a node assigned; and
    the round adds nothing to the queue. *)
Theorem tick_keeps_or_starts (s : GPUScheduler.t) (t : nat) :
  (t ∈ GPUScheduler.task_queue s →
   t ∈ GPUScheduler.task_queue (GPUScheduler.process_tick s).2
   ∨ is_running (GPUScheduler.process_tick s).2 t)
  ∧ (t ∈ GPUScheduler.task_queue (GPUScheduler.process_tick s).2 →
     t ∈ GPUScheduler.task_queue s).
Proof.
  destruct (process_tick_spec (λ _, True) is_running) with (s := s)
    as [->|(removed & s1 & _ & Hrun & Hq & ->)]; try done.
  - intros s0 task i obj node _ Ht Hi _ _. split; [done|].
    by apply (is_running_assign s0 task i obj node).
  - cbn [snd]. split; [by left|done].
  - cbn [snd GPUScheduler.with_task_queue GPUScheduler.task_queue].
    rewrite Hq. split.
    + intros Hin.
      assert (t ∈ GPUScheduler.sort_queue s) as Hin'.
      { unfold GPUScheduler.sort_queue. by apply py_sort_elem. }
      destruct (remove_all_running s1 removed _ t Hrun Hin') as [?|Hr];
        [by left|by right].
    + intros Hin%remove_all_elem.
      unfold GPUScheduler.sort_queue in Hin. by apply py_sort_elem in Hin.
Qed.

Lemma meets_requirements_gpu (node : AgentNode) (req : TaskRequirements) :
  GPUScheduler._node_meets_requirements node req = true →
  (requires_gpu req = true → has_gpu (compute_resources node) = true)
  ∧ PrimFloat.ltb (available_ram_gb (compute_resources node)) (min_ram_gb req)
    = false.
Proof.
  unfold GPUScheduler._node_meets_requirements.
  destruct (requires_gpu req), (has_gpu (compute_resources node)); cbn;
    try done;
    by destruct (PrimFloat.ltb _ _).
Qed.

Lemma same_fleet_elem (s0 s : GPUScheduler.t) (i : nat) (node : AgentNode) :
  same_fleet s0 s →
  GPUScheduler.registry s !! i = Some node →
  ∃ node0, node0 ∈ GPUScheduler.registry s0
           ∧ node = set_current_tasks node0 (current_tasks node).
Proof.
  intros Hsf Hi. destruct (Hsf i node Hi) as (node0 & Hi0 & Heq).
  exists node0. split; [by eapply list_elem_of_lookup_2|done].
Qed.

(** X19.  A matching round changes a task object only by starting it: a
    task object after the round is as before, or is running on a node of
    the registry that, under its load at that moment, was active and met
    the requirements of the task; a task that requires a GPU runs on a
    node that has one. *)
Theorem tick_starts_on_suitable_nodes (s : GPUScheduler.t) (t : nat)
    (obj : InferenceTask) :
  GPUScheduler.tasks (GPUScheduler.process_tick s).2 !! t = Some obj →
  GPUScheduler.tasks s !! t = Some obj
  ∨ (status obj = RUNNING
     ∧ ∃ node c,
         node ∈ GPUScheduler.registry s
         ∧ assigned_node obj = Some (node_id node)
         ∧ is_active (set_current_tasks node c) = true
         ∧ GPUScheduler._node_meets_requirements (set_current_tasks node c)
             (requirements obj) = true
         ∧ (requires_gpu (requirements obj) = true →
            has_gpu (compute_resources node) = true)).
Proof.
  set (P := λ s1 : GPUScheduler.t,
         same_fleet s s1
         ∧ ∀ t obj, GPUScheduler.tasks s1 !! t = Some obj →
             GPUScheduler.tasks s !! t = Some obj ∨ started_on s obj).
  assert (∀ obj', started_on s obj' →
            status obj' = RUNNING
            ∧ ∃ node c,
                node ∈ GPUScheduler.registry s
                ∧ assigned_node obj' = Some (node_id node)
                ∧ is_active (set_current_tasks node c) = true
                ∧ GPUScheduler._node_meets_requirements (set_current_tasks node c)
                    (requirements obj') = true
                ∧ (requires_gpu (requirements obj') = true →
                   has_gpu (compute_resources node) = true)) as Hstarted.
  { intros obj' (Hst & node & c & Hin & Hn & Hact & Hm). split; [done|].
    exists node, c. repeat split; try done.
    intros Hgpu. by apply meets_requirements_gpu in Hm as [Hm _]; auto. }
  assert (P s) as HP.
  { split; [|by left]. intros i node Hi. exists node. split; [done|].
    by destruct node. }
  assert (∀ s1 task i o node,
            P s1 →
            GPUScheduler.tasks s1 !! task = Some o →
            GPUScheduler.registry s1 !! i = Some node →
            is_active node = true →
            GPUScheduler._node_meets_requirements node (requirements o) = true →
            P (GPUScheduler._assign_task_to_node task i s1).2
            ∧ True
            ∧ ∀ t : nat, True → True) as Hassign.
  { intros s1 task i o node [Hsf Htasks] Ht Hi Hact Hm.
    rewrite (assign_task_spec task i s1 o node Ht Hi). cbn [snd].
    split; [|done]. split.
    - intros j n. cbn [GPUScheduler.registry].
      destruct (decide (j = i)) as [->|Hne].
      + rewrite list_lookup_insert_eq by (by eapply lookup_lt_Some).
        intros [= <-]. destruct (Hsf i node Hi) as (node0 & Hi0 & Heq).
        exists node0. split; [done|]. rewrite Heq. reflexivity.
      + rewrite list_lookup_insert_ne by done. apply Hsf.
    - intros t' o'. cbn [GPUScheduler.tasks].
      destruct (decide (t' = task)) as [->|Hne].
      + rewrite list_lookup_insert_eq by (by eapply lookup_lt_Some).
        intros [= <-]. right.
        destruct (same_fleet_elem _ _ _ _ Hsf Hi) as (node0 & Hin0 & Heq).
        split; [done|]. exists node0, (current_tasks node).
        rewrite <- Heq. split; [done|]. split; [|done].
        cbn. by rewrite Heq.
      + rewrite list_lookup_insert_ne by done. apply Htasks. }
  destruct (process_tick_spec P (λ _ _, True) (λ s1 q HP1, HP1)
              (λ _ _ _ _, I) Hassign s HP)
    as [->|(removed & s1 & [_ Htasks] & _ & _ & ->)].
  - by left.
  - cbn [snd GPUScheduler.with_task_queue GPUScheduler.tasks].
    intros Ht. destruct (Htasks t obj Ht) as [?|Hs]; [by left|right].
    by apply Hstarted.
Qed.

(** *** The tracking tables *)

Lemma fleet_ids_insert (reg : list AgentNode) (i : nat) (node : AgentNode) (c : Z) :
  reg !! i = Some node →
  node_id <$> <[i := set_current_tasks node c]> reg = node_id <$> reg.
Proof.
  intros Hi. rewrite list_fmap_insert. cbn.
  apply list_insert_id. by rewrite list_lookup_fmap, Hi.
Qed.

Lemma tracked_assign (s : GPUScheduler.t) (task i : nat) (obj : InferenceTask)
    (node : AgentNode) :
  tracked s →
  GPUScheduler.tasks s !! task = Some obj →
  GPUScheduler.registry s !! i = Some node →
  tracked (GPUScheduler._assign_task_to_node task i s).2.
Proof.
  intros [Hdom Hreg] Ht Hi. rewrite (assign_task_spec task i s obj node Ht Hi).
  cbn [snd]. split; cbn [GPUScheduler.running_tasks GPUScheduler.task_assignments
                           GPUScheduler.registry].
  - by rewrite !dom_insert_L, Hdom.
  - intros task_id n. rewrite (fleet_ids_insert _ _ _ _ Hi).
    destruct (decide (task_id = id obj)) as [->|Hne].
    + rewrite lookup_insert_eq. intros [= <-].
      apply list_elem_of_fmap. exists node. split; [done|].
      by eapply list_elem_of_lookup_2.
    + rewrite lookup_insert_ne by done. apply Hreg.
Qed.

Lemma tracked_tick (s : GPUScheduler.t) :
  tracked s → tracked (GPUScheduler.process_tick s).2.
Proof.
  intros Htr.
  destruct (process_tick_spec tracked (λ _ _, True) (λ s1 q Htr1, Htr1)
              (λ _ _ _ _, I)) with (s := s)
    as [->|(removed & s1 & Htr1 & _ & _ & ->)]; try done.
  intros s1 task i obj node Htr1 Ht Hi _ _. split; [|done].
  by eapply tracked_assign.
Qed.

Lemma tracked_submit (task : nat) (s : GPUScheduler.t) :
  tracked s → tracked (GPUScheduler.submit_task task s).2.
Proof.
  intros Htr. unfold GPUScheduler.submit_task. unfold_monad.
  destruct (GPUScheduler.tasks s !! task); unfold_monad; [|done].
  by case_bool_decide.
Qed.

Lemma tracked_complete (task_id : string) (result : option json)
    (error : option string) (s : GPUScheduler.t) :
  tracked s → tracked (GPUScheduler.complete_task task_id result error s).2.
Proof.
  intros [Hdom Hreg]. unfold GPUScheduler.complete_task, GPUScheduler.now.
  unfold_monad.
  destruct (GPUScheduler.running_tasks s !! task_id) as [task|]; [|done].
  unfold_monad. cbn [GPUScheduler.tasks].
  destruct (GPUScheduler.tasks s !! task) as [task_obj|]; unfold_monad; [|done].
  cbn.
  assert (∀ reg, node_id <$> reg = node_id <$> GPUScheduler.registry s →
            tracked
              {| GPUScheduler.registry := reg;
                 GPUScheduler.tasks :=
                   <[task := task_finished task_obj
                               (clock (GPUScheduler.clock_readings s)) result
                               (truthy_str error)]> (GPUScheduler.tasks s);
                 GPUScheduler.task_queue := GPUScheduler.task_queue s;
                 GPUScheduler.running_tasks :=
                   delete task_id (GPUScheduler.running_tasks s);
                 GPUScheduler.task_assignments :=
                   delete task_id (GPUScheduler.task_assignments s);
                 GPUScheduler.clock_readings :=
                   S (GPUScheduler.clock_readings s) |}) as Hgoal.
  { intros reg Hids. split; cbn.
    - by rewrite !dom_delete_L, Hdom.
    - intros k n Hk. rewrite Hids. apply (Hreg k).
      by apply lookup_delete_Some in Hk as [_ ?]. }
  destruct (option_bind _ _ _ _) as [i|]; [|by apply Hgoal].
  destruct (GPUScheduler.registry s !! i) as [node|] eqn:Hi; [|by apply Hgoal].
  apply Hgoal. by apply fleet_ids_insert.
Qed.

(** X20.  The two tracking tables stay in step: if [running_tasks] and
    [task_assignments] have the same task ids and every assignment names
    a node of the registry, this still holds after every sequence of
    submissions, matching rounds and completions. *)
Theorem tracking_invariant (ops : list scheduler_op) (s : GPUScheduler.t) :
  tracked s → tracked (run ops s).
Proof.
  revert s. induction ops as [|o ops IH]; intros s Htr; [done|].
  cbn. apply IH. destruct o; cbn.
  - by apply tracked_submit.
  - by apply tracked_tick.
  - by apply tracked_complete.
Qed.

End MatchingTheorems.

Section RoundTrip.
Import Base.
Context `{Runtime} `{Fleet}.



End RoundTrip.

(** ** The peer handoff: sessions *)

Section NotStarted.
Import P2PHandoff.
Context `{Runtime} `{Network} `{Validation}.

Lemma silent_refl s : silent s s.
Proof. done. Qed.

Lemma silent_trans s1 s2 s3 : silent s1 s2 → silent s2 s3 → silent s1 s3.
Proof. intros [? ?] [? ?]. split; congruence. Qed.

Lemma post_not_started o s :
  http_session s = false →
  post o s = (Raised "'NoneType' object has no attribute 'post'", s).
Proof. intros Hh. unfold post. by rewrite Hh. Qed.

Lemma execute_handoff_not_started k s :
  http_session s = false →
  ∃ e, _execute_handoff k s = (Raised e, s).
Proof.
  intros Hh. unfold _execute_handoff, deref. unfold_monad.
  destruct (sessions s !! k); cbn; [|by eexists].
  rewrite post_not_started by done. by eexists.
Qed.

Lemma fallback_loop_not_started x alts :
  ∀ s, http_session s = false →
       ∃ s', fallback_loop x alts s = (Ok None, s') ∧ silent s s'.
Proof.
  induction alts as [|n alts IH]; intros s Hh.
  - exists s. done.
  - cbn [fallback_loop]. unfold alloc, P2PHandoff.now. unfold_monad.
    match goal with
    | |- context [_execute_handoff ?k ?s1] =>
        destruct (execute_handoff_not_started k s1) as [e ->]; [done|];
        destruct (IH s1) as (s' & -> & Hs); [done|]
    end.
    exists s'. split; [done|]. destruct Hs as [Hs1 Hs2]. split; done.
Qed.

Lemma handle_fallback_not_started k s :
  http_session s = false →
  ∃ o s', _handle_fallback k s = (o, s') ∧ silent s s'
          ∧ (∀ r, o ≠ Ok (Some r)).
Proof.
  intros Hh. unfold _handle_fallback, _find_alternative_nodes, update, deref.
  unfold_monad.
  destruct (sessions s !! k) as [x|] eqn:Hk; cbn; [|by eexists _, _].
  case_bool_decide; [by eexists _, _|].
  rewrite Hk. cbn.
  rewrite list_lookup_insert_eq by (by eapply lookup_lt_Some). cbn.
  match goal with
  | |- context [fallback_loop ?y ?alts ?s1] =>
      destruct (fallback_loop_not_started y alts s1) as (s' & -> & Hs); [done|]
  end.
  eexists _, _. split; [reflexivity|]. split; [|done].
  destruct Hs as [Hs1 Hs2]. split; done.
Qed.

Lemma verify_not_started src tgt s :
  http_session s = false →
  ∃ b s', _verify_node_connection src tgt s = (Ok b, s') ∧ silent s s'
          ∧ sessions s' = sessions s.
Proof.
  intros Hh. unfold _verify_node_connection, _establish_connection.
  unfold_monad. case_bool_decide.
  - eexists _, _. done.
  - rewrite post_not_started by done. eexists _, _. done.
Qed.

(** X22.  A service that was not started sends nothing: every handoff
    returns a response with status failed, no result and an error text,
    and no request is posted, neither to the target nor to a fallback
    node. *)
Theorem handoff_without_session (req : HandoffRequest) (s : P2PHandoff.t) :
  http_session s = false →
  ∃ resp s',
    initiate_handoff req s = (Ok resp, s')
    ∧ resp_status resp = FAILED
    ∧ resp_result resp = None
    ∧ is_Some (resp_error resp)
    ∧ sent s' = sent s.
Proof.
  intros Hh. unfold initiate_handoff, alloc, P2PHandoff.now. unfold_monad. cbn.
  match goal with
  | |- context [first_attempt ?h ?k req _] =>
      set (hid := h); change k with (length (sessions s))
  end.
  match goal with
  | |- context [first_attempt hid _ req ?w] => set (s1 := w)
  end.
  assert (silent s s1) as Hs1 by done.
  assert (http_session s1 = false) as Hh1 by done.
  assert (sessions s1 !! length (sessions s)
          = Some (new_session hid req PENDING (clock (S (clock_readings s)))))
    as Hk1.
  { unfold s1. cbn. by rewrite lookup_app_r, Nat.sub_diag. }
  assert (∃ e s2, first_attempt hid (length (sessions s)) req s1 = (Raised e, s2)
                  ∧ silent s1 s2
                  ∧ is_Some (sessions s2 !! length (sessions s))) as Hfirst.
  { unfold first_attempt, update, deref. unfold_monad.
    destruct (verify_not_started (source_node_id req) (target_node_id req) s1 Hh1)
      as (b & s2 & -> & Hs2 & Hsess).
    destruct b; cbn.
    - rewrite Hsess, Hk1. cbn.
      match goal with
      | |- context [_execute_handoff ?k ?w] =>
          destruct (execute_handoff_not_started k w) as [e ->]
      end.
      { cbn. destruct Hs2 as [_ ->]. done. }
      eexists _, _. split; [reflexivity|]. split.
      + destruct Hs2. split; done.
      + cbn. rewrite list_lookup_insert_eq; [eauto|].
        rewrite Hsess. by eapply lookup_lt_Some.
    - eexists _, _. split; [reflexivity|]. split; [done|].
      rewrite Hsess, Hk1. eauto. }
  destruct Hfirst as (e & s2 & -> & Hs2 & [x Hx]).
  unfold on_failure, update, deref. unfold_monad. rewrite Hx. unfold_monad.
  cbn -[_handle_fallback completed_response].
  match goal with
  | |- context [_handle_fallback ?k ?w] =>
      destruct (handle_fallback_not_started k w) as (o & s3 & -> & Hs3 & Hno)
  end.
  { cbn. destruct Hs2 as [_ ->]. done. }
  assert (sent s3 = sent s) as Hsent.
  { destruct Hs3 as [-> _]. cbn. destruct Hs2 as [-> _]. done. }
  destruct o as [[r|]|e'].
  - by destruct (Hno r).
  - eexists _, _. split; [reflexivity|]. cbn. eauto.
  - eexists _, _. split; [reflexivity|]. cbn. eauto.
Qed.

End NotStarted.

Section Accepted.
Import P2PHandoff.
Context `{Runtime} `{Network} `{Validation}.

(** Every node answers 200 with the body [body], which the response
    model accepts as the result [validated]: [None] for a null body, the
    dictionary itself for a JSON object. *)
Variables (body : json) (validated : option json).
Hypothesis accepting : ∀ k url, http_post k url = Response 200 (Ok body).
Hypothesis accepted : validate_optional_dict body = Ok validated.

Lemma verify_accepting src tgt s :
  http_session s = true →
  ∃ s2 cs,
    _verify_node_connection src tgt s = (Ok true, s2)
    ∧ sessions s2 = sessions s
    ∧ active_sessions s2 = active_sessions s
    ∧ http_session s2 = true
    ∧ clock_readings s2 = clock_readings s
    ∧ sent s2 = sent s ++ cs
    ∧ handoff_targets cs = [].
Proof.
  pose proof accepting as Hacc.
  intros Hh. unfold _verify_node_connection, _establish_connection.
  unfold_monad. case_bool_decide.
  - eexists _, []. split; [reflexivity|]. cbn. by rewrite app_nil_r.
  - rewrite post_spec. cbn [http_session with_connections]. rewrite Hh.
    unfold post_outcome. rewrite Hacc.
    rewrite (bool_decide_eq_false_2 (200%Z ≠ 200%Z)) by (intros Hne; by apply Hne).
    cbn beta iota.
    rewrite post_spec. cbn [http_session record_sent with_connections].
    rewrite Hh. unfold post_outcome. rewrite Hacc.
    rewrite (bool_decide_eq_false_2 (200%Z ≠ 200%Z)) by (intros Hne; by apply Hne).
    cbn beta iota.
    eexists _, [PostConnect src tgt; PostConnect tgt src].
    split; [reflexivity|]. cbn.
    repeat split; try done. by rewrite <- app_assoc.
Qed.

(** X23.  On a network whose nodes answer 200 with a body that the
    response model accepts (a JSON object, or null), a handoff on a
    started service succeeds at the first attempt: the response is
    completed with the validated body as result and no fallback metrics,
    and exactly one handoff request is posted, to the target.  The
    session object holds the body and keeps the status in progress, so
    the cleanup round does not remove it from the active sessions. *)
Theorem direct_handoff_session_kept (req : HandoffRequest) (s : P2PHandoff.t) :
  http_session s = true →
  ∃ resp s' x,
    initiate_handoff req s = (Ok resp, s')
    ∧ resp_status resp = COMPLETED
    ∧ resp_metrics resp = None
    ∧ resp_result resp = validated
    ∧ result x = Some body
    ∧ handoff_targets (drop (length (sent s)) (sent s')) = [target_node_id req]
    ∧ active_sessions s' !! resp_handoff_id resp = Some (length (sessions s))
    ∧ sessions s' !! length (sessions s) = Some x
    ∧ status x = IN_PROGRESS
    ∧ active_sessions (cleanup_round s').2 !! resp_handoff_id resp
      = Some (length (sessions s)).
Proof.
  intros Hh. unfold initiate_handoff, alloc, P2PHandoff.now. unfold_monad. cbn.
  match goal with
  | |- context [first_attempt ?h ?k req _] =>
      set (hid := h); change k with (length (sessions s))
  end.
  match goal with
  | |- context [first_attempt hid _ req ?w] => set (s1 := w)
  end.
  unfold first_attempt, update, deref. unfold_monad.
  destruct (verify_accepting (source_node_id req) (target_node_id req) s1)
    as (s2 & cs & -> & Hsess & Hact & Hh2 & Hclk & Hsent & Hcs); [done|].
  cbn [negb].
  assert (sessions s2 !! length (sessions s)
          = Some (new_session hid req PENDING (clock (S (clock_readings s)))))
    as Hk.
  { rewrite Hsess. unfold s1. cbn. by rewrite lookup_app_r, Nat.sub_diag. }
  rewrite Hk. cbn.
  unfold _execute_handoff, update, deref, P2PHandoff.now. unfold_monad.
  cbn [sessions with_sessions].
  rewrite list_lookup_insert_eq by (by eapply lookup_lt_Some).
  cbn -[post]. rewrite post_spec. cbn [http_session with_sessions]. rewrite Hh2.
  unfold post_outcome. rewrite accepting.
  rewrite (bool_decide_eq_false_2 (200%Z ≠ 200%Z)) by (intros Hne; by apply Hne).
  cbn beta iota. cbn [sessions record_sent with_sessions].
  rewrite list_lookup_insert_eq by (by eapply lookup_lt_Some).
  cbn -[completed_response]. rewrite completed_response_spec, accepted.
  eexists _, _, _. split; [reflexivity|]. cbn.
  rewrite list_insert_insert_eq.
  repeat apply conj.
  7: { apply list_lookup_insert_eq. by eapply lookup_lt_Some. }
  - done.
  - done.
  - done.
  - done.
  - rewrite Hsent. unfold s1. cbn. rewrite <- app_assoc.
    rewrite drop_app_length. unfold handoff_targets in *.
    rewrite omap_app, Hcs. done.
  - rewrite Hact. unfold s1. cbn. by rewrite lookup_insert_eq.
  - done.
  - unfold cleanup_round, P2PHandoff.now. unfold_monad. cbn.
    apply lookup_difference_Some. split.
    + rewrite Hact. unfold s1. cbn. by rewrite lookup_insert_eq.
    + apply map_lookup_filter_None. right. intros ref Href.
      rewrite Hact in Href. unfold s1 in Href. cbn in Href.
      rewrite lookup_insert_eq in Href. injection Href as <-.
      cbn. unfold expired_at. cbn.
      rewrite list_lookup_insert_eq by (by eapply lookup_lt_Some). cbn. done.
Qed.

End Accepted.

(** ** Examples of the properties above *)

Lemma heartbeat_revives_witness :
  (Registry.update_node_heartbeat (H := example_runtime) "a" world_stale).1 = true
  ∧ ∃ d w2,
      Registry.get_node (H := example_runtime) "a"
        (Registry.update_node_heartbeat (H := example_runtime) "a" world_stale).2
      = (Some d, w2)
      ∧ d !! "status" = Some "online"
      ∧ d !! "last_heartbeat" = Some "3700000000"
      ∧ ∀ f, f ≠ "status" → f ≠ "last_heartbeat" →
             d !! f = Redis.hgetall (Registry.node_key "a") (redis world_stale) !! f.
Proof.
  apply (heartbeat_revives (H := example_runtime) "a" world_stale).
  - vm_compute. reflexivity.
  - vm_compute. reflexivity.
  - vm_compute. discriminate.
Defined.

Lemma create_then_get_witness :
  let task := example_task_for "t1" PENDING 5 in
  let w' := (Registry.create_task (H := example_runtime) (H0 := example_codec)
               task empty_world).2 in
  (Registry.create_task (H := example_runtime) (H0 := example_codec)
     task empty_world).1 = true
  ∧ (∃ d,
       Registry.get_task (H := example_runtime) "t1" w' = (Some d, w')
       ∧ d !! "id" = Some (JStr "t1")
       ∧ d !! "status" = Some (JStr "pending")
       ∧ d !! "model" = Some (JStr "m")
       ∧ d !! "node_id" = Some (JStr "a")
       ∧ d !! "priority" = Some (JStr "5")
       ∧ d !! "created_at" = Some (JStr "0")
       ∧ d !! "input_data" = Some (JObj []))
  ∧ "t1" ∈ Redis.smembers "all_tasks" (redis w')
  ∧ (PENDING = PENDING →
     Redis.zmembers "pending_tasks" (redis w') !! "t1" = Some 5%Z)
  ∧ (PENDING ≠ PENDING → Redis.zsets (redis w') = Redis.zsets (redis empty_world)).
Proof.
  apply (create_then_get (H := example_runtime) (H0 := example_codec)
           (example_task_for "t1" PENDING 5) "hello" "a" empty_world).
  - reflexivity.
  - reflexivity.
Defined.

Lemma create_task_refused_witness :
  (Registry.create_task (H := example_runtime) (H0 := standard_codec)
     (example_task_for "t1" PENDING 5) empty_world).1 = false
  ∧ redis (Registry.create_task (H := example_runtime) (H0 := standard_codec)
             (example_task_for "t1" PENDING 5) empty_world).2
    = redis empty_world.
Proof.
  apply (create_task_refused (H := example_runtime) (H0 := standard_codec)
           (example_task_for "t1" PENDING 5) empty_world).
  left. reflexivity.
Defined.

Lemma update_task_status_moves_witness :
  let w := world_with_task "running" [("running_tasks", {["t1"]})] in
  let w' := (Registry.update_task_status (H := example_runtime) "t1" "completed"
               None None w).2 in
  ("completed" = "running" →
   Redis.zmembers "pending_tasks" (redis w') !! "t1" = None
   ∧ "t1" ∈ Redis.smembers "running_tasks" (redis w'))
  ∧ ("completed" = "completed" →
     ("t1" ∉ Redis.smembers "running_tasks" (redis w'))
     ∧ "t1" ∈ Redis.smembers "completed_tasks" (redis w'))
  ∧ ("completed" = "failed" →
     ("t1" ∉ Redis.smembers "running_tasks" (redis w'))
     ∧ "t1" ∈ Redis.smembers "failed_tasks" (redis w'))
  ∧ ("completed" ≠ "running" → "completed" ≠ "completed" → "completed" ≠ "failed" →
     Redis.sets (redis w') = Redis.sets (redis w)
     ∧ Redis.zsets (redis w') = Redis.zsets (redis w)).
Proof.
  eapply (update_task_status_moves (H := example_runtime) "t1" "completed"
            None None (world_with_task "running" [("running_tasks", {["t1"]})])).
  vm_compute. reflexivity.
Defined.

Lemma revert_to_pending_not_requeued_witness :
  let w1 := (Registry.update_task_status (H := example_runtime) "t1" "running"
               (Some "a") None (world_node_task PENDING 5)).2 in
  let w2 := (Registry.update_task_status (H := example_runtime) "t1" "pending"
               None None w1).2 in
  status_of "t1" w2 = Some "pending"
  ∧ Redis.zmembers "pending_tasks" (redis w2) !! "t1" = None
  ∧ "t1" ∈ Redis.smembers "running_tasks" (redis w2)
  ∧ (Registry.get_pending_task w2).1 ≠ Some "t1".
Proof.
  eapply (revert_to_pending_not_requeued (H := example_runtime) "t1" (Some "a")
            (world_node_task PENDING 5)).
  vm_compute. reflexivity.
Defined.

Lemma cancel_task_stays_queued_witness :
  let w := world_node_task PENDING 5 in
  status_of "t1" (TaskScheduler.cancel_task (H := example_runtime) "t1" w).2
  = Some "failed"
  ∧ Redis.zsets (redis (TaskScheduler.cancel_task (H := example_runtime) "t1" w).2)
    = Redis.zsets (redis w)
  ∧ (Registry.get_pending_task
       (TaskScheduler.cancel_task (H := example_runtime) "t1" w).2).1
    = Some "t1".
Proof.
  apply (cancel_task_stays_queued (H := example_runtime) "t1"
           (world_node_task PENDING 5)).
  - vm_compute. reflexivity.
  - vm_compute. reflexivity.
Defined.

Lemma completion_counts_witness :
  let r := Registry.update_task_status (H := example_runtime) "t1" "completed"
             (Some "a") None (world_node_task RUNNING 5) in
  r.1 = true
  ∧ Redis.hgetall (Registry.node_key "a") (redis r.2) !! "tasks_completed"
    = Some (Redis.Z_to_string (0 + 1))
  ∧ ∀ f, f ≠ "tasks_completed" →
         Redis.hgetall (Registry.node_key "a") (redis r.2) !! f
         = Redis.hgetall (Registry.node_key "a")
             (redis (world_node_task RUNNING 5)) !! f.
Proof.
  eapply (completion_counts (H := example_runtime) "t1" "a" (Some "a") None
            (world_node_task RUNNING 5) _ 0).
  - vm_compute. reflexivity.
  - reflexivity.
  - vm_compute. reflexivity.
  - lia.
Defined.

Lemma completion_for_unknown_node_witness :
  let r := Registry.update_task_status (H := example_runtime) "t1" "completed"
             (Some "ghost") None
             (world_with_task "running" [("running_tasks", {["t1"]})]) in
  r.1 = true
  ∧ Redis.hgetall (Registry.node_key "ghost") (redis r.2)
    = {["tasks_completed" := "1"]}
  ∧ (fromisoformat (Runtime := example_runtime) "" = None →
     Registry.get_node (H := example_runtime) "ghost" r.2 = (None, r.2)).
Proof.
  eapply (completion_for_unknown_node (H := example_runtime) "t1" "ghost"
            (Some "ghost") None
            (world_with_task "running" [("running_tasks", {["t1"]})])).
  - vm_compute. reflexivity.
  - reflexivity.
  - vm_compute. reflexivity.
Defined.


Lemma reachable_well_keyed_witness :
  well_keyed
    (registry_run (H := example_runtime) (H0 := standard_codec)
       [RegisterNode node_online; Heartbeat "a"; GetAllNodes;
        CreateTask (example_task_for "t1" PENDING 5)]
       empty_world).
Proof.
  apply (reachable_well_keyed (H := example_runtime) (H0 := standard_codec)).
  intros m i Hi. unfold Redis.hgetall in Hi. cbn in Hi.
  by rewrite lookup_empty in Hi.
Defined.

Section MatchingWitnesses.
Import Base.

Lemma tick_starts_on_suitable_nodes_witness :
  let s := example_scheduler [example_node "n1" false 0 1]
             [example_task "t" NORMAL 0 false] [0] in
  ∃ obj,
    GPUScheduler.tasks
      (GPUScheduler.process_tick (H := example_runtime) (H0 := example_fleet) s).2
      !! 0 = Some obj
    ∧ (GPUScheduler.tasks s !! 0 = Some obj
       ∨ (status obj = RUNNING
          ∧ ∃ node c,
              node ∈ GPUScheduler.registry s
              ∧ assigned_node obj = Some (node_id node)
              ∧ is_active (Fleet := example_fleet) (set_current_tasks node c) = true
              ∧ GPUScheduler._node_meets_requirements (H := example_runtime)
                  (set_current_tasks node c) (requirements obj) = true
              ∧ (requires_gpu (requirements obj) = true →
                 has_gpu (compute_resources node) = true))).
Proof.
  cbn zeta. eexists. split.
  - vm_compute. reflexivity.
  - apply (tick_starts_on_suitable_nodes (H := example_runtime)
             (H0 := example_fleet)
             (example_scheduler [example_node "n1" false 0 1]
                [example_task "t" NORMAL 0 false] [0]) 0).
    vm_compute. reflexivity.
Defined.

Lemma tracking_invariant_witness :
  tracked
    (run (H := example_runtime) (H0 := example_fleet)
       [Submit 0; Tick; Complete "t" None None]
       (example_scheduler [example_node "n1" false 0 1]
          [example_task "t" NORMAL 0 false] [])).
Proof.
  apply (tracking_invariant (H := example_runtime) (H0 := example_fleet)).
  split.
  - reflexivity.
  - intros task_id n Hn. cbn in Hn. by rewrite lookup_empty in Hn.
Defined.


End MatchingWitnesses.

Section SessionWitnesses.
Import P2PHandoff.

Lemma handoff_without_session_witness :
  ∃ resp s',
    initiate_handoff (H := example_runtime) (H0 := accepting_network)
      (H1 := strict_validation) example_request unstarted_service = (Ok resp, s')
    ∧ resp_status resp = FAILED
    ∧ resp_result resp = None
    ∧ is_Some (resp_error resp)
    ∧ sent s' = sent unstarted_service.
Proof.
  apply (handoff_without_session (H := example_runtime) (H0 := accepting_network)
           (H1 := strict_validation) example_request unstarted_service).
  reflexivity.
Defined.

Lemma direct_handoff_session_kept_witness :
  let s := example_service ["src"; "tgt"] [] in
  ∃ resp s' x,
    initiate_handoff (H := example_runtime) (H0 := accepting_network)
      (H1 := strict_validation) example_request s = (Ok resp, s')
    ∧ resp_status resp = COMPLETED
    ∧ resp_metrics resp = None
    ∧ resp_result resp = Some (JObj [("status", JStr "accepted")])
    ∧ result x = Some (JObj [("status", JStr "accepted")])
    ∧ handoff_targets (drop (length (sent s)) (sent s')) = ["tgt"]
    ∧ active_sessions s' !! resp_handoff_id resp = Some (length (sessions s))
    ∧ sessions s' !! length (sessions s) = Some x
    ∧ status x = IN_PROGRESS
    ∧ active_sessions (cleanup_round (H := example_runtime) s').2
        !! resp_handoff_id resp
      = Some (length (sessions s)).
Proof.
  apply (direct_handoff_session_kept (H := example_runtime)
           (H0 := accepting_network) (H1 := strict_validation)
           (JObj [("status", JStr "accepted")])
           (Some (JObj [("status", JStr "accepted")]))).
  - reflexivity.
  - reflexivity.
  - reflexivity.
Defined.

End SessionWitnesses.
